(** * The rich-text section extractor of the Rolodex script

    A shallow embedding of [extractRichTextSection_] (src/README.md,
    lines 249-319) and of the parts of JavaScript and of the spreadsheet
    host it relies on:

    - strings are sequences of UTF-16 code units, indices are integers;
    - a [RegExp] is the source text it prints as, together with the
      function [String.prototype.match] computes from it on a subject;
      a small backtracking engine gives concrete patterns;
    - host objects live in a heap: rich text values are only read, the
      builder is a mutable object, [console.log] appends to the console;
    - the two [while] loops run on an explicit iteration budget. *)

From Stdlib Require Import ZArith NArith Lia String Ascii.
From stdpp Require Import base tactics option list gmap.

Local Open Scope Z_scope.

(** ** Strings *)

(** A string is the list of its UTF-16 code units. *)
Abbreviation str := (list N).

(** The code units of an ASCII literal. *)
Definition codeUnits (s : string) : str :=
  List.map N_of_ascii (list_ascii_of_string s).

(** [text.length] *)
Definition js_length (t : str) : Z := Z.of_nat (length t).

(** [text[i]]: the code unit at index [i], [undefined] out of range. *)
Definition charAt (t : str) (i : Z) : option N :=
  if i <? 0 then None else t !! Z.to_nat i.

(** The character class [\s]: WhiteSpace and LineTerminator code points. *)
Definition isWhiteSpace (c : N) : bool :=
  ((9 <=? c) && (c <=? 13) || (c =? 32) || (c =? 160) || (c =? 5760)
   || (8192 <=? c) && (c <=? 8202) || (c =? 8232) || (c =? 8233)
   || (c =? 8239) || (c =? 8287) || (c =? 12288) || (c =? 65279))%N.

(** [/\s/.test(x)] for [x = text[i]]: [undefined] is converted to the
    string "undefined", which holds no white space. *)
Definition test_ws (x : option N) : bool :=
  match x with
  | Some c => isWhiteSpace c
  | None => false
  end.

(** [p] is a prefix of [t], as a boolean. *)
Fixpoint startsWith (t p : str) {struct p} : bool :=
  match p, t with
  | [], _ => true
  | _ :: _, [] => false
  | a :: p', b :: t' => (a =? b)%N && startsWith t' p'
  end.

(** [text.indexOf(p)] searched from offset [i] on: the first position at
    which [p] occurs, [-1] when there is none. *)
Fixpoint indexOf_from (t p : str) (i : Z) : Z :=
  if startsWith t p then i
  else match t with
       | [] => -1
       | _ :: t' => indexOf_from t' p (i + 1)
       end.

Definition indexOf (t p : str) : Z := indexOf_from t p 0.

(** [text.slice(start)]: a negative [start] counts from the end. *)
Definition slice (t : str) (start : Z) : str :=
  let len := js_length t in
  let from := if start <? 0 then Z.max (len + start) 0 else Z.min start len in
  drop (Z.to_nat from) t.

(** [text.substring(a, b)]: both arguments are clamped to [0, length]
    and swapped when [a > b]. *)
Definition substring (t : str) (a b : Z) : str :=
  let len := js_length t in
  let a' := Z.min (Z.max a 0) len in
  let b' := Z.min (Z.max b 0) len in
  let from := Z.min a' b' in
  let to := Z.max a' b' in
  take (Z.to_nat (to - from)) (drop (Z.to_nat from) t).

(** ** Regular expressions *)

(** The result of a successful match: [match.index] and [match[0]]. *)
Record MatchResult := { m_index : Z; m_0 : str }.

(** A RegExp object: what it prints as in a template string, and the
    result of [subject.match(re)] as a function of the subject. That is
    a RegExp without the sticky flag, as the literals of SECTIONS are:
    its [lastIndex] plays no part in [match]. *)
Record RegExp := { re_source : str; re_exec : str → option MatchResult }.

(** [text.match(re)] *)
Definition str_match (t : str) (re : RegExp) : option MatchResult :=
  re_exec re t.

(** What every JavaScript pattern guarantees: the matched text stands in
    the subject at the match index. *)
Definition occursAt (t : str) (i : Z) (p : str) : Prop :=
  0 <= i ∧ take (length p) (drop (Z.to_nat i) t) = p.

Definition lawful (re : RegExp) : Prop :=
  ∀ t m, re_exec re t = Some m → occursAt t (m_index m) (m_0 m).

(** ** A backtracking engine for concrete patterns *)

Module Regex.

(** The pattern syntax used by the section markers ([\.], [\s*], literal
    characters), with alternation and the two assertions [$] and [(?=r)]. *)
Inductive regex : Type :=
| Chr (c : N)
| Space
| Eps
| Seq (r1 r2 : regex)
| Alt (r1 r2 : regex)
| Star (r : regex)
| Eoi
| Ahead (r : regex).

(** A literal string. *)
Fixpoint Lit (p : str) : regex :=
  match p with
  | [] => Eps
  | c :: p' => Seq (Chr c) (Lit p')
  end.

(** The iterations of a greedy star over a matcher [step] for its body:
    one more iteration when it consumes something and the rest of the
    match succeeds after it, otherwise the continuation [k] from here.
    [n] bounds the number of iterations by the length of the subject. *)
Fixpoint iterate (step : str → (str → option str) → option str)
    (k : str → option str) (n : nat) (s : str) : option str :=
  match n with
  | O => k s
  | S n' =>
      match step s (λ s', if (length s' <? length s)%nat
                          then iterate step k n' s' else None) with
      | Some x => Some x
      | None => k s
      end
  end.

(** [run r s k] matches [r] at the head of [s] and hands what is left of
    the subject to the continuation [k], backtracking into [r] when [k]
    fails: alternatives are tried left to right, [Star] is greedy and
    refuses an iteration that consumes nothing, a look-ahead keeps only
    its first way to match. *)
Fixpoint run (r : regex) (s : str) (k : str → option str) : option str :=
  match r with
  | Chr c =>
      match s with
      | x :: s' => if (x =? c)%N then k s' else None
      | [] => None
      end
  | Space =>
      match s with
      | x :: s' => if isWhiteSpace x then k s' else None
      | [] => None
      end
  | Eps => k s
  | Seq r1 r2 => run r1 s (λ s', run r2 s' k)
  | Alt r1 r2 =>
      match run r1 s k with
      | Some x => Some x
      | None => run r2 s k
      end
  | Star r' => iterate (run r') k (length s) s
  | Eoi =>
      match s with
      | [] => k []
      | _ :: _ => None
      end
  | Ahead r' =>
      match run r' s Some with
      | Some _ => k s
      | None => None
      end
  end.

(** The leftmost match: positions are tried from the current one up to
    and including the end of the subject. *)
Fixpoint search (r : regex) (s : str) (i : Z) : option MatchResult :=
  match run r s Some with
  | Some rest =>
      Some {| m_index := i; m_0 := take (length s - length rest)%nat s |}
  | None =>
      match s with
      | [] => None
      | _ :: s' => search r s' (i + 1)
      end
  end.

(** Patterns without assertions, and the strings they match. *)
Fixpoint assertionFree (r : regex) : bool :=
  match r with
  | Chr _ | Space | Eps => true
  | Seq r1 r2 | Alt r1 r2 => assertionFree r1 && assertionFree r2
  | Star r' => assertionFree r'
  | Eoi | Ahead _ => false
  end.

Fixpoint matches (r : regex) (u : str) : Prop :=
  match r with
  | Chr c => u = [c]
  | Space => ∃ c, u = [c] ∧ isWhiteSpace c = true
  | Eps => u = []
  | Seq r1 r2 => ∃ u1 u2, u = u1 ++ u2 ∧ matches r1 u1 ∧ matches r2 u2
  | Alt r1 r2 => matches r1 u ∨ matches r2 u
  | Star r' => ∃ us, u = concat us ∧ Forall (matches r') us
  | Eoi | Ahead _ => False
  end.

(** The RegExp object of the pattern [r], printed as [src]. *)
Definition compile (src : str) (r : regex) : RegExp :=
  {| re_source := src; re_exec := λ t, search r t 0 |}.

End Regex.

(** ** The spreadsheet host *)

(** References to host objects. *)
Abbreviation loc := positive.

(** The lines the routine writes to the console, by content:
    - Searching for start marker: the pattern;
    - Searching for stop marker: the pattern;
    - Match result: the text matched, or NULL;
    - Found raw text slice from index [startIdx] to [endIdx];
    - Section is empty after trimming whitespace. Returning null;
    - Final trimmed text slice is from index [startIdx] to [endIdx]. *)
Inductive LogLine : Type :=
| LogSearchStart (re : str)
| LogSearchStop (re : str)
| LogMatchResult (m : option str)
| LogRawSlice (startIdx endIdx : Z)
| LogEmptySection
| LogTrimmedSlice (startIdx endIdx : Z).

(** The exceptions of the host: a method called on an object that does
    not have it, and a range of offsets that a builder refuses. *)
Inductive Exn : Type :=
| TypeError
| InvalidRange.

Section Host.

Context {TextStyle : Type}.

(** A run of a rich text value: [getStartIndex], [getEndIndex],
    [getTextStyle], and [getLinkUrl], which is [null] without a link. *)
Record StyleRun : Type := {
  runStart : Z;
  runEnd : Z;
  runStyle : TextStyle;
  runLink : option str
}.

(** A rich text value: [getText] and [getRuns]. *)
Record RichTextValue : Type := {
  rtText : str;
  rtRuns : list StyleRun
}.

(** What [setTextStyle] and [setLinkUrl] do to the value a builder is
    assembling: the first records a run over the range, without a link;
    the second sets the link of the range, that is of every recorded
    run lying inside it. A recorded run that lies only partly in the
    range is left as it is; the routine sets no link on such a range
    when the runs of the source do not overlap. *)
Definition addStyle (s e : Z) (st : TextStyle) (v : RichTextValue)
    : RichTextValue :=
  {| rtText := rtText v;
     rtRuns := rtRuns v ++ [ {| runStart := s; runEnd := e;
                                runStyle := st; runLink := None |} ] |}.

Definition linkIn (s e : Z) (u : str) (r : StyleRun) : StyleRun :=
  if (s <=? runStart r) && (runEnd r <=? e)
  then {| runStart := runStart r; runEnd := runEnd r;
          runStyle := runStyle r; runLink := Some u |}
  else r.

Definition addLink (s e : Z) (u : str) (v : RichTextValue) : RichTextValue :=
  {| rtText := rtText v; rtRuns := linkIn s e u <$> rtRuns v |}.

(** Host objects: immutable rich text values and mutable builders. *)
Inductive HostObject : Type :=
| ObjRichText (v : RichTextValue)
| ObjBuilder (v : RichTextValue).

Record World : Type := {
  heap : gmap loc HostObject;
  console : list LogLine
}.

(** A computation runs in a world and completes, throws, or exhausts the
    iteration budget of a loop. *)
Inductive Outcome (A : Type) : Type :=
| Done (a : A) (w : World)
| Throw (e : Exn) (w : World)
| OutOfFuel.

Definition M (A : Type) : Type := World → Outcome A.

End Host.

Arguments StyleRun : clear implicits.
Arguments RichTextValue : clear implicits.
Arguments HostObject : clear implicits.
Arguments World : clear implicits.
Arguments Outcome : clear implicits.
Arguments M : clear implicits.
Arguments Done {TextStyle A} a w.
Arguments Throw {TextStyle A} e w.
Arguments OutOfFuel {TextStyle A}.

Section Routine.

Context {TextStyle : Type}.

Abbreviation M' := (M TextStyle).

#[export] Instance M_ret : MRet M' := λ A a w, Done a w.

#[export] Instance M_bind : MBind M' := λ A B f m w,
  match m w with
  | Done a w' => f a w'
  | Throw e w' => Throw e w'
  | OutOfFuel => OutOfFuel
  end.

(** [console.log(line)] *)
Definition console_log (line : LogLine) : M' unit := λ w,
  Done tt {| heap := heap w; console := console w ++ [line] |}.

(** [richText.getText()] and [richText.getRuns()]: calling them on
    anything but a rich text value is a TypeError. *)
Definition getText (rt : loc) : M' str := λ w,
  match heap w !! rt with
  | Some (ObjRichText v) => Done (rtText v) w
  | _ => Throw TypeError w
  end.

Definition getRuns (rt : loc) : M' (list (StyleRun TextStyle)) := λ w,
  match heap w !! rt with
  | Some (ObjRichText v) => Done (rtRuns v) w
  | _ => Throw TypeError w
  end.

(** A new host object gets a reference that is not in use. *)
Definition alloc (o : HostObject TextStyle) : M' loc := λ w,
  let l := fresh (dom (heap w)) in
  Done l {| heap := <[l := o]> (heap w); console := console w |}.

(** [SpreadsheetApp.newRichTextValue()] *)
Definition newRichTextValue : M' loc :=
  alloc (ObjBuilder {| rtText := []; rtRuns := [] |}).

(** The builder's setters update the builder in place and return it. *)
Definition updateBuilder (b : loc)
    (f : RichTextValue TextStyle → RichTextValue TextStyle) : M' loc := λ w,
  match heap w !! b with
  | Some (ObjBuilder v) =>
      Done b {| heap := <[b := ObjBuilder (f v)]> (heap w);
                console := console w |}
  | _ => Throw TypeError w
  end.

Definition setText (b : loc) (t : str) : M' loc :=
  updateBuilder b (λ v, {| rtText := t; rtRuns := rtRuns v |}).

(** [setTextStyle] and [setLinkUrl] take a range of offsets into the text
    of the builder; the host is taken to refuse one that is empty or not
    within the text. *)
Definition validRange (v : RichTextValue TextStyle) (s e : Z) : bool :=
  (0 <=? s) && (s <? e) && (e <=? js_length (rtText v)).

Definition formatBuilder (b : loc) (s e : Z)
    (f : RichTextValue TextStyle → RichTextValue TextStyle) : M' loc := λ w,
  match heap w !! b with
  | Some (ObjBuilder v) =>
      if validRange v s e then updateBuilder b f w else Throw InvalidRange w
  | _ => Throw TypeError w
  end.

Definition setTextStyle (b : loc) (s e : Z) (st : TextStyle) : M' loc :=
  formatBuilder b s e (addStyle s e st).

Definition setLinkUrl (b : loc) (s e : Z) (u : str) : M' loc :=
  formatBuilder b s e (addLink s e u).

(** [builder.build()]: a new rich text value with what the builder holds. *)
Definition build (b : loc) : M' loc := λ w,
  match heap w !! b with
  | Some (ObjBuilder v) => alloc (ObjRichText v) w
  | _ => Throw TypeError w
  end.

(** [while (cond) body] over the variable the loop assigns, with a
    budget of [fuel] evaluations of the condition. *)
Fixpoint while {S : Type} (fuel : nat) (cond : S → bool) (body : S → S)
    (s : S) : option S :=
  match fuel with
  | O => None
  | Datatypes.S fuel' =>
      if cond s then while fuel' cond body (body s) else Some s
  end.

Definition while_ {S : Type} (fuel : nat) (cond : S → bool) (body : S → S)
    (s : S) : M' S := λ w,
  match while fuel cond body s with
  | Some s' => Done s' w
  | None => OutOfFuel
  end.

(** The conditions of the two trimming loops:
    [startIdx < endIdx && /\s/.test(text[startIdx])] and
    [endIdx > startIdx && /\s/.test(text[endIdx - 1])]. *)
Definition leadingSpace (text : str) (endIdx startIdx : Z) : bool :=
  (startIdx <? endIdx) && test_ws (charAt text startIdx).

Definition trailingSpace (text : str) (startIdx endIdx : Z) : bool :=
  (endIdx >? startIdx) && test_ws (charAt text (endIdx - 1)).

(** [array.forEach(f)] *)
Fixpoint forEach {A : Type} (l : list A) (f : A → M' unit) : M' unit :=
  match l with
  | [] => mret tt
  | x :: l' => f x;; forEach l' f
  end.

(** The body of the [forEach] over the runs of the source. [if (link)]
    holds for a non-empty string only: not for [null], not for the empty
    string. *)
Definition copyRun (builder : loc) (startIdx endIdx : Z)
    (run : StyleRun TextStyle) : M' unit :=
  let runStart := runStart run in
  let runEnd := runEnd run in
  let overlapStart := Z.max runStart startIdx in
  let overlapEnd := Z.min runEnd endIdx in
  if overlapEnd >? overlapStart then
    let localStart := overlapStart - startIdx in
    let localEnd := overlapEnd - startIdx in
    setTextStyle builder localStart localEnd (runStyle run);;
    let link := runLink run in
    match link with
    | Some (c :: u) => setLinkUrl builder localStart localEnd (c :: u);; mret tt
    | _ => mret tt
    end
  else mret tt.

(** [extractRichTextSection_(richText, startRe, stopRe)]; the result is
    [null] ([None]) or the reference of the value built. *)
Definition extractRichTextSection_ (fuel : nat) (richText : loc)
    (startRe stopRe : RegExp) : M' (option loc) :=
  text ← getText richText;
  console_log (LogSearchStart (re_source startRe));;
  let startMatch := str_match text startRe in
  console_log (LogMatchResult (m_0 <$> startMatch));;
  match startMatch with
  | None => mret None
  | Some startMatch =>
      let startIdx := indexOf text (m_0 startMatch) + js_length (m_0 startMatch) in
      let endIdx := js_length text in
      let afterContent := slice text startIdx in
      console_log (LogSearchStop (re_source stopRe));;
      let stopMatch := str_match afterContent stopRe in
      console_log (LogMatchResult (m_0 <$> stopMatch));;
      let endIdx :=
        match stopMatch with
        | Some stopMatch => startIdx + indexOf afterContent (m_0 stopMatch)
        | None => endIdx
        end in
      console_log (LogRawSlice startIdx endIdx);;
      startIdx ← while_ fuel (leadingSpace text endIdx)
        (λ startIdx, startIdx + 1) startIdx;
      endIdx ← while_ fuel (trailingSpace text startIdx)
        (λ endIdx, endIdx - 1) endIdx;
      if endIdx <=? startIdx then
        console_log LogEmptySection;;
        mret None
      else
        console_log (LogTrimmedSlice startIdx endIdx);;
        let subText := substring text startIdx endIdx in
        b ← newRichTextValue;
        builder ← setText b subText;
        runs ← getRuns richText;
        forEach runs (copyRun builder startIdx endIdx);;
        result ← build builder;
        mret (Some result)
  end.

End Routine.

(** ** What the routine computes, apart from the world it runs in *)

(** The bounds of the raw slice: [startIdx] after the start marker and
    [endIdx] before the stop marker, as the routine computes them from
    the two matches. *)
Definition rawStart (text : str) (startMatch : MatchResult) : Z :=
  indexOf text (m_0 startMatch) + js_length (m_0 startMatch).

Definition rawEnd (text : str) (startIdx : Z) (stopRe : RegExp) : Z :=
  let afterContent := slice text startIdx in
  match str_match afterContent stopRe with
  | Some stopMatch => startIdx + indexOf afterContent (m_0 stopMatch)
  | None => js_length text
  end.

Section Description.

Context {TextStyle : Type}.

(** What one call of [copyRun] does to the value held by the builder. *)
Definition copied (startIdx endIdx : Z) (v : RichTextValue TextStyle)
    (run : StyleRun TextStyle) : RichTextValue TextStyle :=
  let overlapStart := Z.max (runStart run) startIdx in
  let overlapEnd := Z.min (runEnd run) endIdx in
  if overlapEnd >? overlapStart then
    let localStart := overlapStart - startIdx in
    let localEnd := overlapEnd - startIdx in
    let v' := addStyle localStart localEnd (runStyle run) v in
    match runLink run with
    | Some (c :: u) => addLink localStart localEnd (c :: u) v'
    | _ => v'
    end
  else v.

(** A call either exhausts the budget of a loop, or returns [null], or
    returns a newly built value; in both cases it has written lines to
    the console. *)
Inductive Effect : Type :=
| Diverges
| ReturnsNull (lines : list LogLine)
| ReturnsNew (lines : list LogLine) (res : RichTextValue TextStyle).

(** The lines written up to the trimming loops. *)
Definition linesUpTo (text : str) (startRe stopRe : RegExp)
    (startMatch : MatchResult) : list LogLine :=
  let s0 := rawStart text startMatch in
  [LogSearchStart (re_source startRe);
   LogMatchResult (Some (m_0 startMatch));
   LogSearchStop (re_source stopRe);
   LogMatchResult (m_0 <$> str_match (slice text s0) stopRe);
   LogRawSlice s0 (rawEnd text s0 stopRe)].

Definition effectOf (fuel : nat) (src : RichTextValue TextStyle)
    (startRe stopRe : RegExp) : Effect :=
  let text := rtText src in
  match str_match text startRe with
  | None =>
      ReturnsNull [LogSearchStart (re_source startRe); LogMatchResult None]
  | Some startMatch =>
      let s0 := rawStart text startMatch in
      let e0 := rawEnd text s0 stopRe in
      let lines := linesUpTo text startRe stopRe startMatch in
      match while fuel (leadingSpace text e0) (λ i, i + 1) s0 with
      | None => Diverges
      | Some s =>
          match while fuel (trailingSpace text s) (λ i, i - 1) e0 with
          | None => Diverges
          | Some e =>
              if e <=? s then ReturnsNull (lines ++ [LogEmptySection])
              else ReturnsNew (lines ++ [LogTrimmedSlice s e])
                     (fold_left (copied s e) (rtRuns src)
                        {| rtText := substring text s e; rtRuns := [] |})
          end
      end
  end.

Definition logged (lines : list LogLine) (w : World TextStyle)
    : World TextStyle :=
  {| heap := heap w; console := console w ++ lines |}.

(** The effect on a world: the lines reach the console; a value built
    leaves the builder and the value itself as two new objects. *)
Definition applyEffect (eff : Effect) (w : World TextStyle)
    : Outcome TextStyle (option loc) :=
  match eff with
  | Diverges => OutOfFuel
  | ReturnsNull lines => Done None (logged lines w)
  | ReturnsNew lines res =>
      let b := fresh (dom (heap w)) in
      let h := <[b := ObjBuilder res]> (heap w) in
      let l := fresh (dom h) in
      Done (Some l) {| heap := <[l := ObjRichText res]> h;
                       console := console w ++ lines |}
  end.

(** ** Notions used to state the properties *)

(** What a caller can see of a call: [null], the content of the value
    returned, an exception, or no answer within the budget. *)
Inductive Observation : Type :=
| SeesNull
| SeesValue (v : RichTextValue TextStyle)
| SeesBadReference
| SeesThrow (e : Exn)
| SeesNothing.

Definition observe (o : Outcome TextStyle (option loc)) : Observation :=
  match o with
  | Done None _ => SeesNull
  | Done (Some l) w =>
      match heap w !! l with
      | Some (ObjRichText v) => SeesValue v
      | _ => SeesBadReference
      end
  | Throw e _ => SeesThrow e
  | OutOfFuel => SeesNothing
  end.

(** What a caller sees of a call with a given effect. *)
Definition seenOf (eff : Effect) : Observation :=
  match eff with
  | Diverges => SeesNothing
  | ReturnsNull _ => SeesNull
  | ReturnsNew _ res => SeesValue res
  end.

(** The world after a completed or failed call. *)
Definition worldAfter {A : Type} (o : Outcome TextStyle A)
    : option (World TextStyle) :=
  match o with
  | Done _ w => Some w
  | Throw _ w => Some w
  | OutOfFuel => None
  end.

(** [calls w w']: the world [w'] is [w] after any number of calls of the
    routine, with any arguments. *)
Inductive calls : World TextStyle → World TextStyle → Prop :=
| calls_none w : calls w w
| calls_more w w1 w2 fuel richText startRe stopRe :
    calls w w1 →
    worldAfter (extractRichTextSection_ fuel richText startRe stopRe w1)
      = Some w2 →
    calls w w2.

(** Every position of [s, e) holds white space. *)
Definition blank (text : str) (s e : Z) : Prop :=
  ∀ i, s <= i < e → test_ws (charAt text i) = true.

(** [s, e) is the raw slice [s0, e0) of [text] without the white space
    at its two ends, and holds at least one character. *)
Definition trimmedSlice (text : str) (s0 e0 s e : Z) : Prop :=
  0 <= s0 ∧ s0 <= s ∧ s < e ∧ e <= e0 ∧ e0 <= js_length text
  ∧ blank text s0 s ∧ blank text e e0
  ∧ test_ws (charAt text s) = false ∧ test_ws (charAt text (e - 1)) = false.

(** Setting the link of the portion of [r] inside [s, e) leaves the
    recorded run [r'] as it is. *)
Definition apart (s e : Z) (r r' : StyleRun TextStyle) : Prop :=
  ∀ u, Z.max (runStart r) s < Z.min (runEnd r) e →
    linkIn (Z.max (runStart r) s - s) (Z.min (runEnd r) e - s) u r' = r'.

(** The portion of a run inside [s, e), in the coordinates of the
    section, with the style of the run; nothing when it is empty. *)
Definition clipped (s e : Z) (r : StyleRun TextStyle)
    : list (Z * Z * TextStyle) :=
  let overlapStart := Z.max (runStart r) s in
  let overlapEnd := Z.min (runEnd r) e in
  if overlapStart <? overlapEnd
  then [(overlapStart - s, overlapEnd - s, runStyle r)]
  else [].

(** The run recorded for a source run: its portion inside [s, e) in the
    coordinates of the section, with its style, and with its link when
    that is a non-empty string. *)
Definition emitted (s e : Z) (r : StyleRun TextStyle)
    : list (StyleRun TextStyle) :=
  let overlapStart := Z.max (runStart r) s in
  let overlapEnd := Z.min (runEnd r) e in
  if overlapStart <? overlapEnd
  then [ {| runStart := overlapStart - s; runEnd := overlapEnd - s;
            runStyle := runStyle r;
            runLink := match runLink r with
                       | Some (c :: u) => Some (c :: u)
                       | _ => None
                       end |} ]
  else [].

Definition extent (r : StyleRun TextStyle) : Z * Z * TextStyle :=
  (runStart r, runEnd r, runStyle r).

Definition startOf (x : Z * Z * TextStyle) : Z := x.1.1.

Definition endOf (x : Z * Z * TextStyle) : Z := x.1.2.

(** A run moved to the coordinates of a section starting at [s]. *)
Definition rebased (s : Z) (r : StyleRun TextStyle) : StyleRun TextStyle :=
  {| runStart := runStart r - s; runEnd := runEnd r - s;
     runStyle := runStyle r; runLink := runLink r |}.

(** The invariant of a run over a text of length [len]. *)
Definition runInText (len : Z) (r : StyleRun TextStyle) : Prop :=
  0 <= runStart r ∧ runStart r < runEnd r ∧ runEnd r <= len.

(** Two runs share a position. *)
Definition overlaps (r1 r2 : StyleRun TextStyle) : bool :=
  Z.max (runStart r1) (runStart r2) <? Z.min (runEnd r1) (runEnd r2).

Fixpoint pairwise {A : Type} (R : A → A → bool) (l : list A) : bool :=
  match l with
  | [] => true
  | x :: l' => forallb (R x) l' && pairwise R l'
  end.

Definition nonOverlapping (runs : list (StyleRun TextStyle)) : bool :=
  pairwise (λ r1 r2, negb (overlaps r1 r2)) runs.

Definition sortedByStart (runs : list (StyleRun TextStyle)) : bool :=
  pairwise (λ r1 r2, runStart r1 <=? runStart r2) runs.

End Description.

Arguments Effect : clear implicits.
Arguments Observation : clear implicits.

(** [String.prototype.trim], with the white space of [\s]. *)
Fixpoint trimStart (t : str) : str :=
  match t with
  | c :: t' => if isWhiteSpace c then trimStart t' else t
  | [] => []
  end.

Definition trimEnd (t : str) : str := reverse (trimStart (reverse t)).

Definition trim (t : str) : str := trimEnd (trimStart t).

(** The match stands at the first occurrence of the text it matched. *)
Definition atFirstOccurrence (t : str) (m : MatchResult) : Prop :=
  indexOf t (m_0 m) = m_index m.

(** ** Concrete inputs *)

Module Examples.

Import Regex.

(** Style descriptors for the examples. *)
Inductive Font : Type :=
| Regular
| Bold
| Italic.

(** The code unit of the block character of the section markers. *)
Definition block : N := 9607.

(** The pattern of a marker, and the RegExp printed as the literal of
    SECTIONS. *)
Definition markerPattern (n name : string) : regex :=
  Seq (Lit (codeUnits n))
    (Seq (Chr 46)
       (Seq (Star Space)
          (Seq (Chr block) (Seq (Star Space) (Lit (codeUnits name)))))).

Definition marker (n name : string) : RegExp :=
  compile
    (codeUnits "/" ++ codeUnits n ++ codeUnits "\.\s*" ++ [block]
       ++ codeUnits "\s*" ++ codeUnits name ++ codeUnits "/")
    (markerPattern n name).

Definition appraiserRe : RegExp := marker "1" "Appraiser:".

Definition taxesRe : RegExp := marker "2" "Taxes:".

Definition utilitiesRe : RegExp := marker "3" "Utilities:".

(** "1. # Appraiser: Call John at 555-1234. 2. # Taxes: ..." with the
    marker in bold and a link on the telephone number. *)
Definition rolodexText : str :=
  codeUnits "1. " ++ [block] ++ codeUnits " Appraiser: Call John at 555-1234. 2. "
    ++ [block] ++ codeUnits " Taxes: ...".

Definition rolodexEntry : RichTextValue Font :=
  {| rtText := rolodexText;
     rtRuns :=
       [ {| runStart := 0; runEnd := 15; runStyle := Bold; runLink := None |};
         {| runStart := 15; runEnd := 29; runStyle := Regular; runLink := None |};
         {| runStart := 29; runEnd := 37; runStyle := Italic;
            runLink := Some (codeUnits "tel:555-1234") |};
         {| runStart := 37; runEnd := 54; runStyle := Regular; runLink := None |} ] |}.

Definition sheet : World Font :=
  {| heap := {[ 1%positive := ObjRichText rolodexEntry ]}; console := [] |}.

(** The call for the first section of SECTIONS on the sheet, and the
    world after it. *)
Definition appraiserCall : Outcome Font (option loc) :=
  extractRichTextSection_ 60 1%positive appraiserRe taxesRe sheet.

Definition sheetAfter : World Font :=
  match appraiserCall with
  | Done _ w' => w'
  | _ => sheet
  end.

(** [/a$/], [/a(?= c)/] and [/z/]. *)
Definition aAtEndRe : RegExp := compile (codeUnits "/a$/") (Seq (Chr 97) Eoi).

Definition aBeforeCRe : RegExp :=
  compile (codeUnits "/a(?= c)/") (Seq (Chr 97) (Ahead (Lit (codeUnits " c")))).

Definition zRe : RegExp := compile (codeUnits "/z/") (Chr 122).

Definition plain (t : string) : RichTextValue Font :=
  {| rtText := codeUnits t; rtRuns := [] |}.

Definition holding (v : RichTextValue Font) : World Font :=
  {| heap := {[ 1%positive := ObjRichText v ]}; console := [] |}.

(** "a: bc" with a run over "bc" whose link is the empty string. *)
Definition emptyLinkRun : StyleRun Font :=
  {| runStart := 3; runEnd := 5; runStyle := Bold; runLink := Some [] |}.

Definition emptyLinkEntry : RichTextValue Font :=
  {| rtText := codeUnits "a: bc"; rtRuns := [emptyLinkRun] |}.

Definition aColonRe : RegExp := compile (codeUnits "/a:/") (Lit (codeUnits "a:")).

End Examples.

(** ** The script around the extractor *)

(** The other functions of the script (src/README.md, lines 43-247):
    the constants, [findRowInSheet_], [fillFormattedSections], which calls
    the extractor for every section, the edit handler and the two
    functions that install and remove its trigger.

    - spreadsheets are held by identifier, their sheets by name, the cells
      of a sheet by row and column; sheets and ranges are references into
      that store, so that a write through one is seen through another;
    - the console takes lines at three levels, the lines of the extractor
      among them; dialogs need a user interface, which a run may lack;
    - two things are left to the host and are parameters of the model:
      [String.prototype.toUpperCase] and the reading of A1 notation;
    - the four constants that the repository leaves blank are settings. *)

Module Script.

Import Examples.

(** *** Constants *)

Record Settings : Type := {
  TEMPLATE_SHEET : str;
  TEMPLATE_MUNI_A1 : str;
  ROLODEX_ID : str;
  ROLODEX_TAB : str
}.

Definition ROLODEX_MUNI_COL : Z := 1.

Definition ROLODEX_TEXT_COL : Z := 2.

Record SectionSpec : Type := {
  name : str;
  start : RegExp;
  stop : RegExp;
  targetA1 : str
}.

Definition SECTIONS : list SectionSpec :=
  [ {| name := codeUnits "Appraiser"; start := marker "1" "Appraiser:";
       stop := marker "2" "Taxes:"; targetA1 := codeUnits "B14" |};
    {| name := codeUnits "Taxes"; start := marker "2" "Taxes:";
       stop := marker "3" "Utilities:"; targetA1 := codeUnits "B22" |};
    {| name := codeUnits "Utilities"; start := marker "3" "Utilities:";
       stop := marker "4" "Permits:"; targetA1 := codeUnits "B30" |};
    {| name := codeUnits "Permits"; start := marker "4" "Permits:";
       stop := marker "5" "Code:"; targetA1 := codeUnits "B43" |};
    {| name := codeUnits "Code"; start := marker "5" "Code:";
       stop := marker "6" "Special:"; targetA1 := codeUnits "B68" |};
    {| name := codeUnits "Special"; start := marker "6" "Special:";
       stop := marker "7" "Contact Info:"; targetA1 := codeUnits "B93" |} ].

(** The name under which the edit handler is installed. *)
Definition muniEditHandlerName : str := codeUnits "muniEditHandler".

(** *** Console, dialogs, exceptions *)

(** [console.log], [console.warn], [console.error]. *)
Inductive Level : Type :=
| LevelLog
| LevelWarn
| LevelError.

(** What the script throws or lets through: an exception of the
    extractor's host calls (a TypeError also stands for a method called on
    [null]), a range that [getRange] refuses, a spreadsheet that
    [openById] does not find, a dialog asked for without a user interface,
    a trigger deleted twice. *)
Inductive Failure : Type :=
| Js (e : Exn)
| RangeRefused
| NoSpreadsheet
| NoUi
| NoTrigger.

(** The lines of the console, by content, in the order of the source. *)
Inductive Message : Type :=
| OfExtractor (line : LogLine)
| MsgStarting
| MsgTemplateNotFound
| MsgNoMunicipality
| MsgLooking (muni : str)
| MsgRolodexNotFound
| MsgMuniNotFound (muni : str)
| MsgFound (muni : str) (muniRow : Z)
| MsgNoRichText (muni : str)
| MsgExtracting
| MsgProcessing (section : str)
| MsgPopulated (target : str)
| MsgCleared (target : str)
| MsgFinished
| MsgUnexpected (err : Failure)
| MsgTriggerEnabled
| MsgTriggerDisabled
| MsgMalformedEvent
| MsgValueDetected (cell : str)
| MsgMuniCleared (cell : str)
| MsgHandlerError (err : Failure).

(** The dialogs of [SpreadsheetApp.getUi().alert], by content. *)
Inductive Alert : Type :=
| AlertTemplateNotFound (sheet : str)
| AlertSelectMunicipality (cell : str)
| AlertRolodexNotFound (tab : str)
| AlertMuniNotFound (muni : str)
| AlertError
| AlertEnabled (cell : str)
| AlertDisabled.

(** *** Sheets *)

(** A rectangle of cells: [getRange(row, column, numRows, numColumns)]. *)
Record Rect : Type := {
  top : Z;
  left : Z;
  numRows : Z;
  numColumns : Z
}.

Definition inRect (r : Rect) (k : Z * Z) : bool :=
  (top r <=? k.1) && (k.1 <? top r + numRows r)
  && (left r <=? k.2) && (k.2 <? left r + numColumns r).

Definition cellsOf (r : Rect) : list (Z * Z) :=
  row ← seqZ (top r) (numRows r);
  (λ column, (row, column)) <$> seqZ (left r) (numColumns r).

(** A sheet of a spreadsheet: the identifier of the spreadsheet and the
    name of the sheet. A range of a sheet. *)
Abbreviation SheetRef := (str * str)%type.

Record Range : Type := {
  rangeSheet : SheetRef;
  rangeRect : Rect
}.

(** Installed triggers. *)
Inductive EventType : Type :=
| ON_EDIT
| ON_OPEN
| ON_CHANGE
| ON_FORM_SUBMIT
| CLOCK.

Record Trigger : Type := {
  handlerFunction : str;
  triggerSourceId : str;
  eventType : EventType
}.

(** The event of an edit: [e.range], with its sheet and its A1 notation,
    and [e.value]; either may be missing. *)
Record EditedRange : Type := {
  editedSheet : SheetRef;
  editedA1 : str
}.

Record Event : Type := {
  range : option EditedRange;
  value : option str
}.

Section Host.

Context {TextStyle : Type}.

(** What a cell holds: text with its formatting, or a value that is not
    text (a number, a date, a boolean) of which the script sees what is
    displayed. An empty cell holds nothing. *)
Inductive CellValue : Type :=
| CellText (v : RichTextValue TextStyle)
| CellOther (display : str).

(** The state of the host: the objects of the extractor, the console, the
    dialogs shown (when there is a user interface), the spreadsheets by
    identifier, each with its sheets by name, each with its cells by row
    and column, the spreadsheet the script is bound to, and the triggers
    of the project. *)
Record App : Type := {
  objects : gmap loc (HostObject TextStyle);
  output : list (Level * Message);
  hasUi : bool;
  alerts : list Alert;
  files : gmap str (gmap str (gmap (Z * Z) CellValue));
  active : option str;
  triggers : gmap positive Trigger
}.

Inductive Result (A : Type) : Type :=
| Ret (a : A) (s : App)
| Raise (e : Failure) (s : App)
| Starved.

Definition Script (A : Type) : Type := App → Result A.

End Host.

Arguments CellValue : clear implicits.
Arguments App : clear implicits.
Arguments Result : clear implicits.
Arguments Script : clear implicits.
Arguments Ret {TextStyle A} a s.
Arguments Raise {TextStyle A} e s.
Arguments Starved {TextStyle A}.

Abbreviation Sheet TextStyle := (gmap (Z * Z) (CellValue TextStyle)).

Abbreviation Spreadsheet TextStyle := (gmap str (Sheet TextStyle)).

Section Operations.

Context {TextStyle : Type}.

Abbreviation Script' := (Script TextStyle).

#[export] Instance Script_ret : MRet Script' := λ A a s, Ret a s.

#[export] Instance Script_bind : MBind Script' := λ A B f m s,
  match m s with
  | Ret a s' => f a s'
  | Raise e s' => Raise e s'
  | Starved => Starved
  end.

(** [try { body } catch (err) { handler }] *)
Definition try_catch {A : Type} (body : Script' A)
    (handler : Failure → Script' A) : Script' A := λ s,
  match body s with
  | Ret a s' => Ret a s'
  | Raise e s' => handler e s'
  | Starved => Starved
  end.

Definition withObjects (h : gmap loc (HostObject TextStyle))
    (s : App TextStyle) : App TextStyle :=
  {| objects := h; output := output s; hasUi := hasUi s; alerts := alerts s;
     files := files s; active := active s; triggers := triggers s |}.

Definition withOutput (o : list (Level * Message)) (s : App TextStyle)
    : App TextStyle :=
  {| objects := objects s; output := o; hasUi := hasUi s; alerts := alerts s;
     files := files s; active := active s; triggers := triggers s |}.

Definition withAlerts (a : list Alert) (s : App TextStyle) : App TextStyle :=
  {| objects := objects s; output := output s; hasUi := hasUi s; alerts := a;
     files := files s; active := active s; triggers := triggers s |}.

Definition withFiles (f : gmap str (Spreadsheet TextStyle))
    (s : App TextStyle) : App TextStyle :=
  {| objects := objects s; output := output s; hasUi := hasUi s;
     alerts := alerts s; files := f; active := active s;
     triggers := triggers s |}.

Definition withTriggers (t : gmap positive Trigger) (s : App TextStyle)
    : App TextStyle :=
  {| objects := objects s; output := output s; hasUi := hasUi s;
     alerts := alerts s; files := files s; active := active s;
     triggers := t |}.

(** The console. *)
Definition console_ (level : Level) (m : Message) : Script' unit := λ s,
  Ret tt (withOutput (output s ++ [(level, m)]) s).

Definition logs (m : Message) : Script' unit := console_ LevelLog m.

Definition warns (m : Message) : Script' unit := console_ LevelWarn m.

Definition errors (m : Message) : Script' unit := console_ LevelError m.

(** [SpreadsheetApp.getUi().alert(a)]: [getUi] throws where the script
    runs without a user interface. *)
Definition alert (a : Alert) : Script' unit := λ s,
  if hasUi s then Ret tt (withAlerts (alerts s ++ [a]) s) else Raise NoUi s.

(** A computation of the extractor, run on the objects of the host; what
    it writes to the console follows what the console holds. *)
Definition lift {A : Type} (m : M TextStyle A) : Script' A := λ s,
  match m {| heap := objects s; console := [] |} with
  | Done a w =>
      Ret a (withObjects (heap w)
               (withOutput
                  (output s ++ ((λ l, (LevelLog, OfExtractor l)) <$> console w)) s))
  | Throw e w =>
      Raise (Js e)
        (withObjects (heap w)
           (withOutput
              (output s ++ ((λ l, (LevelLog, OfExtractor l)) <$> console w)) s))
  | OutOfFuel => Starved
  end.

(** [SpreadsheetApp.getActive()]: the spreadsheet the script is bound to,
    [null] for a script that is bound to none. *)
Definition getActive : Script' (option str) := λ s, Ret (active s) s.

(** [SpreadsheetApp.openById(id)] *)
Definition openById (id : str) : Script' str := λ s,
  match files s !! id with
  | Some _ => Ret id s
  | None => Raise NoSpreadsheet s
  end.

(** [ss.getSheetByName(name)]: the sheet, or [null]. *)
Definition getSheetByName (ss : option str) (name : str)
    : Script' (option SheetRef) := λ s,
  match ss with
  | Some id =>
      match files s !! id with
      | Some book =>
          Ret (match book !! name with
               | Some _ => Some (id, name)
               | None => None
               end) s
      | None => Raise (Js TypeError) s
      end
  | None => Raise (Js TypeError) s
  end.

(** [sheet.getName()] *)
Definition getName (sheet : SheetRef) : str := sheet.2.

(** The cells of the sheet a reference stands for. *)
Definition sheetAt (sheet : SheetRef) (s : App TextStyle)
    : option (Sheet TextStyle) :=
  files s !! sheet.1 ≫= (λ book, book !! sheet.2).

Definition readSheet (sheet : SheetRef) : Script' (Sheet TextStyle) := λ s,
  match sheetAt sheet s with
  | Some cells => Ret cells s
  | None => Raise (Js TypeError) s
  end.

Definition writeSheet (sheet : SheetRef) (cells : Sheet TextStyle)
    : Script' unit := λ s,
  match files s !! sheet.1 with
  | Some book =>
      match book !! sheet.2 with
      | Some _ =>
          Ret tt (withFiles (<[sheet.1 := <[sheet.2 := cells]> book]> (files s)) s)
      | None => Raise (Js TypeError) s
      end
  | None => Raise (Js TypeError) s
  end.

(** [sheet.getLastRow()]: the last row that holds a value, 0 on a sheet
    that holds none. *)
Definition lastRow (cells : Sheet TextStyle) : Z :=
  foldr (λ kv m, Z.max kv.1.1 m) 0 (map_to_list cells).

Definition getLastRow (sheet : SheetRef) : Script' Z :=
  cells ← readSheet sheet;
  mret (lastRow cells).

(** [sheet.getRange(row, column, numRows, numColumns)]: the host refuses
    a position or a size below 1. *)
Definition getRange (sheet : SheetRef) (row column numRows numColumns : Z)
    : Script' Range := λ s,
  if (1 <=? row) && (1 <=? column) && (1 <=? numRows) && (1 <=? numColumns)
  then Ret {| rangeSheet := sheet;
              rangeRect := {| top := row; left := column;
                              numRows := numRows; numColumns := numColumns |} |} s
  else Raise RangeRefused s.

(** [range.getDisplayValue()], [range.getDisplayValues()] *)
Definition displayOf (c : option (CellValue TextStyle)) : str :=
  match c with
  | Some (CellText v) => rtText v
  | Some (CellOther display) => display
  | None => []
  end.

Definition getDisplayValue (rg : Range) : Script' str :=
  cells ← readSheet (rangeSheet rg);
  mret (displayOf (cells !! (top (rangeRect rg), left (rangeRect rg)))).

Definition getDisplayValues (rg : Range) : Script' (list (list str)) :=
  cells ← readSheet (rangeSheet rg);
  mret ((λ row, (λ column, displayOf (cells !! (row, column)))
                  <$> seqZ (left (rangeRect rg)) (numColumns (rangeRect rg)))
          <$> seqZ (top (rangeRect rg)) (numRows (rangeRect rg))).

(** [range.getRichTextValue()]: a new object with the text and the runs
    of the top left cell; [null] when the cell holds a value that is not
    text; the empty text for an empty cell. *)
Definition getRichTextValue (rg : Range) : Script' (option loc) :=
  cells ← readSheet (rangeSheet rg);
  match cells !! (top (rangeRect rg), left (rangeRect rg)) with
  | Some (CellText v) => l ← lift (alloc (ObjRichText v)); mret (Some l)
  | Some (CellOther _) => mret None
  | None =>
      l ← lift (alloc (ObjRichText {| rtText := []; rtRuns := [] |}));
      mret (Some l)
  end.

(** [range.clearContent()]: every cell of the range is emptied. *)
Definition clearCells (r : Rect) (cells : Sheet TextStyle) : Sheet TextStyle :=
  filter (λ kv, inRect r kv.1 = false) cells.

Definition clearContent (rg : Range) : Script' unit :=
  cells ← readSheet (rangeSheet rg);
  writeSheet (rangeSheet rg) (clearCells (rangeRect rg) cells).

(** [range.setRichTextValue(value)]: every cell of the range takes the
    text and the runs of the value. *)
Definition setCells (r : Rect) (c : CellValue TextStyle)
    (cells : Sheet TextStyle) : Sheet TextStyle :=
  foldr (λ k m, <[k := c]> m) cells (cellsOf r).

Definition setRichTextValue (rg : Range) (value : loc) : Script' unit :=
  v ← lift (λ w, match heap w !! value with
                 | Some (ObjRichText v) => Done v w
                 | _ => Throw TypeError w
                 end);
  cells ← readSheet (rangeSheet rg);
  writeSheet (rangeSheet rg) (setCells (rangeRect rg) (CellText v) cells).

(** [ScriptApp.getProjectTriggers()], [ScriptApp.deleteTrigger(t)] and
    [ScriptApp.newTrigger(f).forSpreadsheet(ss).onEdit().create()]. *)
Definition getProjectTriggers : Script' (list (positive * Trigger)) := λ s,
  Ret (map_to_list (triggers s)) s.

Definition getHandlerFunction (t : positive * Trigger) : str :=
  handlerFunction t.2.

Definition deleteTrigger (t : positive * Trigger) : Script' unit := λ s,
  match triggers s !! t.1 with
  | Some _ => Ret tt (withTriggers (delete t.1 (triggers s)) s)
  | None => Raise NoTrigger s
  end.

Definition newTrigger (f : str) (ss : option str) (ev : EventType)
    : Script' unit := λ s,
  match ss with
  | Some id =>
      Ret tt (withTriggers
                (<[fresh (dom (triggers s)) :=
                     {| handlerFunction := f; triggerSourceId := id;
                        eventType := ev |}]> (triggers s)) s)
  | None => Raise (Js TypeError) s
  end.

(** [array.forEach(f)], and [forEach] with a body that assigns a variable
    of the enclosing function. *)
Fixpoint forEach {A : Type} (l : list A) (f : A → Script' unit)
    : Script' unit :=
  match l with
  | [] => mret tt
  | x :: l' => f x;; forEach l' f
  end.

Fixpoint forEachWith {A V : Type} (l : list A) (f : V → A → Script' V)
    (v : V) : Script' V :=
  match l with
  | [] => mret v
  | x :: l' => v' ← f v x; forEachWith l' f v'
  end.

End Operations.

Section Functions.

Context {TextStyle : Type}.

(** [String.prototype.toUpperCase], the reading of A1 notation by
    [sheet.getRange(a1Notation)], which refuses what names no range, and
    the settings. *)
Context (toUpperCase : str → str).
Context (a1Notation : str → option Rect).
Context (settings : Settings).

Definition getRangeA1 (sheet : SheetRef) (a1 : str)
    : Script TextStyle Range := λ s,
  match a1Notation a1 with
  | Some r => Ret {| rangeSheet := sheet; rangeRect := r |} s
  | None => Raise RangeRefused s
  end.

(** The loop of [findRowInSheet_] from index [i] on, over the rows that
    are left; [values[i][0] && ...] fails for the empty string. *)
Fixpoint findRow (values : list (list str)) (searchTermUpper : str) (i : Z)
    : Z :=
  match values with
  | [] => -1
  | row :: values' =>
      match row !! 0%nat with
      | Some (c :: v) =>
          if bool_decide (toUpperCase (trim (c :: v)) = searchTermUpper)
          then i + 1
          else findRow values' searchTermUpper (i + 1)
      | _ => findRow values' searchTermUpper (i + 1)
      end
  end.

Definition findRowInSheet_ (sheet : SheetRef) (searchTerm : str) (colNum : Z)
    : Script TextStyle Z :=
  lastRow ← getLastRow sheet;
  rg ← getRange sheet 1 colNum lastRow 1;
  values ← getDisplayValues rg;
  let searchTermUpper := toUpperCase searchTerm in
  mret (findRow values searchTermUpper 0).

(** [SECTIONS.forEach(s => sheet.getRange(s.targetA1).clearContent())] *)
Definition clearTargets (sheet : SheetRef) : Script TextStyle unit :=
  forEach SECTIONS (λ s,
    rg ← getRangeA1 sheet (targetA1 s);
    clearContent rg).

(** The body of the [forEach] over SECTIONS of [fillFormattedSections]. *)
Definition fillSection (fuel : nat) (templateSheet : SheetRef)
    (richTextValue : loc) (sec : SectionSpec) : Script TextStyle unit :=
  logs (MsgProcessing (name sec));;
  extractedRichText ←
    lift (extractRichTextSection_ fuel richTextValue (start sec) (stop sec));
  destinationCell ← getRangeA1 templateSheet (targetA1 sec);
  match extractedRichText with
  | Some extractedRichText =>
      setRichTextValue destinationCell extractedRichText;;
      logs (MsgPopulated (targetA1 sec))
  | None =>
      clearContent destinationCell;;
      logs (MsgCleared (targetA1 sec))
  end.

Definition fillFormattedSections (fuel : nat) : Script TextStyle unit :=
  logs MsgStarting;;
  try_catch
    (ss ← getActive;
     templateSheet ← getSheetByName ss (TEMPLATE_SHEET settings);
     match templateSheet with
     | None =>
         alert (AlertTemplateNotFound (TEMPLATE_SHEET settings));;
         errors MsgTemplateNotFound
     | Some templateSheet =>
         rg ← getRangeA1 templateSheet (TEMPLATE_MUNI_A1 settings);
         displayValue ← getDisplayValue rg;
         let muni := trim displayValue in
         match muni with
         | [] =>
             alert (AlertSelectMunicipality (TEMPLATE_MUNI_A1 settings));;
             logs MsgNoMunicipality
         | _ :: _ =>
             logs (MsgLooking muni);;
             book ← openById (ROLODEX_ID settings);
             rolodexSheet ← getSheetByName (Some book) (ROLODEX_TAB settings);
             match rolodexSheet with
             | None =>
                 alert (AlertRolodexNotFound (ROLODEX_TAB settings));;
                 errors MsgRolodexNotFound
             | Some rolodexSheet =>
                 muniRow ← findRowInSheet_ rolodexSheet muni ROLODEX_MUNI_COL;
                 if muniRow =? -1 then
                   clearTargets templateSheet;;
                   alert (AlertMuniNotFound muni);;
                   warns (MsgMuniNotFound muni)
                 else
                   logs (MsgFound muni muniRow);;
                   rg ← getRange rolodexSheet muniRow ROLODEX_TEXT_COL 1 1;
                   richTextValue ← getRichTextValue rg;
                   noText ←
                     match richTextValue with
                     | None => mret true
                     | Some v =>
                         text ← lift (getText v);
                         mret (bool_decide (trim text = []))
                     end;
                   match richTextValue, noText with
                   | Some richTextValue, false =>
                       logs MsgExtracting;;
                       forEach SECTIONS
                         (fillSection fuel templateSheet richTextValue);;
                       logs MsgFinished
                   | _, _ =>
                       clearTargets templateSheet;;
                       warns (MsgNoRichText muni)
                   end
             end
         end
     end)
    (λ err,
       errors (MsgUnexpected err);;
       alert AlertError).

(** [forEach] of [disableMuniAuto], which assigns [triggerDeleted]. *)
Definition deleteIfHandler (triggerDeleted : bool) (t : positive * Trigger)
    : Script TextStyle bool :=
  if bool_decide (getHandlerFunction t = muniEditHandlerName) then
    deleteTrigger t;;
    mret true
  else mret triggerDeleted.

Definition disableMuniAuto : Script TextStyle unit :=
  let triggerDeleted := false in
  allTriggers ← getProjectTriggers;
  triggerDeleted ← forEachWith allTriggers deleteIfHandler triggerDeleted;
  if triggerDeleted : bool then
    logs MsgTriggerDisabled;;
    (alert AlertDisabled : Script TextStyle unit)
  else mret tt.

Definition enableMuniAuto : Script TextStyle unit :=
  ss ← getActive;
  disableMuniAuto;;
  newTrigger muniEditHandlerName ss ON_EDIT;;
  logs MsgTriggerEnabled;;
  alert (AlertEnabled (TEMPLATE_MUNI_A1 settings)).

(** [muniEditHandler(e)]; [newValue && newValue.trim() !== ''] holds for
    a string that is not blank. *)
Definition notBlank (newValue : option str) : bool :=
  match newValue with
  | Some (c :: v) => bool_decide (trim (c :: v) ≠ [])
  | _ => false
  end.

Definition muniEditHandler (fuel : nat) (e : option Event)
    : Script TextStyle unit :=
  try_catch
    (match e ≫= range with
     | None => logs MsgMalformedEvent
     | Some range =>
         let sheet := editedSheet range in
         if bool_decide (getName sheet ≠ TEMPLATE_SHEET settings)
            || bool_decide (editedA1 range ≠ TEMPLATE_MUNI_A1 settings)
         then mret tt
         else
           let newValue := e ≫= value in
           if notBlank newValue then
             logs (MsgValueDetected (TEMPLATE_MUNI_A1 settings));;
             fillFormattedSections fuel
           else
             logs (MsgMuniCleared (TEMPLATE_MUNI_A1 settings));;
             clearTargets sheet
     end)
    (λ err, errors (MsgHandlerError err)).

End Functions.

(** *** Notions used to state the properties of the script *)

(** The triggers that call other functions than the edit handler, and
    the trigger that [enableMuniAuto] creates. *)
Definition otherTriggers (ts : gmap positive Trigger) : gmap positive Trigger :=
  filter (λ kv, handlerFunction kv.2 ≠ muniEditHandlerName) ts.

Definition handlerInstalled (ts : gmap positive Trigger) : Prop :=
  ∃ k t, ts !! k = Some t ∧ handlerFunction t = muniEditHandlerName.

Definition editTrigger (id : str) : Trigger :=
  {| handlerFunction := muniEditHandlerName; triggerSourceId := id;
     eventType := ON_EDIT |}.

Section Notions.

Context {TextStyle : Type}.

Context (toUpperCase : str → str).
Context (a1Notation : str → option Rect).
Context (settings : Settings).

(** The state after a run that completed or threw. *)
Definition stateAfter {A : Type} (r : Result TextStyle A)
    : option (App TextStyle) :=
  match r with
  | Ret _ s => Some s
  | Raise _ s => Some s
  | Starved => None
  end.

(** The run let an exception through. *)
Definition raises {A : Type} (r : Result TextStyle A) : Prop :=
  match r with
  | Raise _ _ => True
  | _ => False
  end.

(** Row [row] holds, in column [colNum], a value that is shown as the
    search term, apart from case and from white space around it. *)
Definition rowMatches (cells : Sheet TextStyle) (colNum : Z)
    (searchTerm : str) (row : Z) : Prop :=
  displayOf (cells !! (row, colNum)) ≠ []
  ∧ toUpperCase (trim (displayOf (cells !! (row, colNum))))
    = toUpperCase searchTerm.

(** The test of the loop of [findRowInSheet_] on one row of the values. *)
Definition hit (searchTermUpper : str) (row : list str) : Prop :=
  ∃ c v, row !! 0%nat = Some (c :: v)
         ∧ toUpperCase (trim (c :: v)) = searchTermUpper.

(** A cell of the target of one of the SECTIONS. *)
Definition inTarget (k : Z * Z) : Prop :=
  ∃ sec r, sec ∈ SECTIONS ∧ a1Notation (targetA1 sec) = Some r
           ∧ inRect r k = true.

(** The cell lies in the target of one of the sections [l]. *)
Definition targeted (l : list SectionSpec) (k : Z * Z) : bool :=
  existsb (λ sec, match a1Notation (targetA1 sec) with
                  | Some r => inRect r k
                  | None => false
                  end) l.

(** Every target of SECTIONS names a range. *)
Definition targetsResolve : Prop :=
  ∀ sec, sec ∈ SECTIONS → is_Some (a1Notation (targetA1 sec)).

(** What a run may do to the state when it writes to the cells [allowed]
    only: the console and the dialogs grow, objects are added, the sheets
    stay where they are and keep every other cell, and the triggers, the
    user interface and the active spreadsheet are as before. *)
Definition evolves (allowed : SheetRef → Z * Z → Prop)
    (s s' : App TextStyle) : Prop :=
  hasUi s' = hasUi s
  ∧ active s' = active s
  ∧ triggers s' = triggers s
  ∧ (∃ lines, output s' = output s ++ lines)
  ∧ (∃ shown, alerts s' = alerts s ++ shown)
  ∧ (∀ l o, objects s !! l = Some o → objects s' !! l = Some o)
  ∧ (∀ sheet, is_Some (sheetAt sheet s') ↔ is_Some (sheetAt sheet s))
  ∧ (∀ sheet cells cells' k,
       sheetAt sheet s = Some cells → sheetAt sheet s' = Some cells' →
       ¬ allowed sheet k → cells' !! k = cells !! k).

(** A script that writes to the cells [allowed] only, however it ends. *)
Definition keeps {A : Type} (allowed : SheetRef → Z * Z → Prop)
    (m : Script TextStyle A) : Prop :=
  ∀ s s', stateAfter (m s) = Some s' → evolves allowed s s'.

(** A computation of the extractor that leaves the objects it finds as
    they are. *)
Definition framed {A : Type} (m : M TextStyle A) : Prop :=
  ∀ w w', worldAfter (m w) = Some w' →
    ∀ l o, heap w !! l = Some o → heap w' !! l = Some o.

(** A script that never exhausts a budget, and a state in which every
    text of every sheet is shorter than the budget [fuel]. *)
Definition settles {A : Type} (m : Script TextStyle A) : Prop :=
  ∀ s, m s ≠ Starved.

Definition textsBelow (fuel : nat) (s : App TextStyle) : Prop :=
  ∀ sheet cells k v,
    sheetAt sheet s = Some cells → cells !! k = Some (CellText v) →
    (length (rtText v) < fuel)%nat.

(** The same, computed. *)
Definition textsBelowb (fuel : nat) (s : App TextStyle) : bool :=
  forallb (λ book : str * Spreadsheet TextStyle,
    forallb (λ sheet : str * Sheet TextStyle,
      forallb (λ cell : Z * Z * CellValue TextStyle,
        match cell.2 with
        | CellText v => (length (rtText v) <? fuel)%nat
        | CellOther _ => true
        end) (map_to_list sheet.2)) (map_to_list book.2))
    (map_to_list (files s)).

(** The cells of the targets on one sheet. *)
Definition targetsOn (sheet : SheetRef) : SheetRef → Z * Z → Prop :=
  λ sheet' k, sheet' = sheet ∧ inTarget k.

(** What a section leaves in its target: the text extracted from the
    source, or nothing. *)
Definition sectionValue (fuel : nat) (src : RichTextValue TextStyle)
    (sec : SectionSpec) : option (CellValue TextStyle) :=
  match effectOf fuel src (start sec) (stop sec) with
  | ReturnsNew _ res => Some (CellText res)
  | _ => None
  end.

(** What [fillFormattedSections] does to the cells of the template sheet
    for one section. *)
Definition placeSection (fuel : nat) (src : RichTextValue TextStyle)
    (cells : Sheet TextStyle) (sec : SectionSpec) : Sheet TextStyle :=
  match a1Notation (targetA1 sec) with
  | Some r =>
      match sectionValue fuel src sec with
      | Some c => setCells r c cells
      | None => clearCells r cells
      end
  | None => cells
  end.

(** No cell lies in the targets of two sections. *)
Definition targetsApart : Prop :=
  ∀ sec1 sec2 r1 r2 k,
    sec1 ∈ SECTIONS → sec2 ∈ SECTIONS →
    a1Notation (targetA1 sec1) = Some r1 →
    a1Notation (targetA1 sec2) = Some r2 →
    inRect r1 k = true → inRect r2 k = true → sec1 = sec2.

(** A state in which [fillFormattedSections] gets as far as the search of
    the Rolodex: the script is bound to the spreadsheet [id], which has the
    template sheet with the cells [template]; the cell of the municipality
    shows [muni], apart from white space around it, and [muni] is not
    empty; the Rolodex has its tab, with the cells [rolodex]. *)
Definition ready (s : App TextStyle) (id : str) (template : Sheet TextStyle)
    (muni : str) (rolodex : Sheet TextStyle) : Prop :=
  active s = Some id
  ∧ sheetAt (id, TEMPLATE_SHEET settings) s = Some template
  ∧ (∃ r, a1Notation (TEMPLATE_MUNI_A1 settings) = Some r
          ∧ trim (displayOf (template !! (top r, left r))) = muni)
  ∧ muni ≠ []
  ∧ sheetAt (ROLODEX_ID settings, ROLODEX_TAB settings) s = Some rolodex.

End Notions.

End Script.

(** *** An installation of the script, for the examples *)

Module ScriptExamples.

Import Examples Script.

(** [toUpperCase] on strings whose letters are those of ASCII. *)
Definition upper (t : str) : str :=
  (λ c, if (97 <=? c) && (c <=? 122) then c - 32 else c)%N <$> t.

(** A1 notation of a single cell, a column in capital letters and a row:
    "B14" is row 14 of column 2. *)
Fixpoint columnOf (t : str) (acc : Z) : Z * str :=
  match t with
  | c :: t' =>
      if ((65 <=? c) && (c <=? 90))%N
      then columnOf t' (acc * 26 + (Z.of_N c - 64))
      else (acc, t)
  | [] => (acc, [])
  end.

Fixpoint rowOf (t : str) (acc : Z) : option Z :=
  match t with
  | c :: t' =>
      if ((48 <=? c) && (c <=? 57))%N
      then rowOf t' (acc * 10 + (Z.of_N c - 48))
      else None
  | [] => Some acc
  end.

Definition cellA1 (a1 : str) : option Rect :=
  match columnOf a1 0 with
  | (column, c :: digits) =>
      match rowOf (c :: digits) 0 with
      | Some row =>
          if (1 <=? column) && (1 <=? row)
          then Some {| top := row; left := column;
                       numRows := 1; numColumns := 1 |}
          else None
      | None => None
      end
  | (_, []) => None
  end.

Definition installed : Settings :=
  {| TEMPLATE_SHEET := codeUnits "Form";
     TEMPLATE_MUNI_A1 := codeUnits "B2";
     ROLODEX_ID := codeUnits "rolodex";
     ROLODEX_TAB := codeUnits "Instructions" |}.

(** The Rolodex: a header, the entry of the examples for Springfield, and
    a row whose second cell holds a number. *)
Definition rolodexCells : Sheet Font :=
  {[ (1, 1) := CellText (plain "Municipality");
     (1, 2) := CellText (plain "Instructions");
     (2, 1) := CellText (plain " Springfield ");
     (2, 2) := CellText rolodexEntry;
     (3, 1) := CellText (plain "Shelbyville");
     (3, 2) := CellOther (codeUnits "42") ]}.

(** The form, with a municipality in B2 and what an earlier run left in
    the targets of the first and of the last section. *)
Definition formCells (muni : string) : Sheet Font :=
  {[ (2, 1) := CellText (plain "Municipality:");
     (2, 2) := CellText (plain muni);
     (14, 2) := CellText (plain "Call Jane.");
     (93, 2) := CellText (plain "None.") ]}.

Definition openTrigger : Trigger :=
  {| handlerFunction := codeUnits "onOpen";
     triggerSourceId := codeUnits "form";
     eventType := ON_OPEN |}.

Definition office (muni : string) : App Font :=
  {| objects := ∅;
     output := [];
     hasUi := true;
     alerts := [];
     files :=
       {[ codeUnits "rolodex" := {[ codeUnits "Instructions" := rolodexCells ]};
          codeUnits "form" := {[ codeUnits "Form" := formCells muni ]} ]};
     active := Some (codeUnits "form");
     triggers := {[ 1%positive := openTrigger ]} |}.

(** The same without a user interface, and with a Rolodex tab that holds
    no value. *)
Definition unattended (s : App Font) : App Font :=
  {| objects := objects s; output := output s; hasUi := false;
     alerts := alerts s; files := files s; active := active s;
     triggers := triggers s |}.

Definition emptyRolodex (muni : string) : App Font :=
  withFiles
    {[ codeUnits "rolodex" := {[ codeUnits "Instructions" := ∅ ]};
       codeUnits "form" := {[ codeUnits "Form" := formCells muni ]} ]}
    (office muni).

(** The state after a run, where there is one. *)
Definition after {A : Type} (r : Result Font A) (s : App Font) : App Font :=
  match r with
  | Ret _ s' => s'
  | Raise _ s' => s'
  | Starved => s
  end.

(** The two sheets, and the edit of a cell of the form. *)
Definition form : SheetRef := (codeUnits "form", codeUnits "Form").

Definition instructions : SheetRef :=
  (codeUnits "rolodex", codeUnits "Instructions").

Definition edited (a1 : string) (newValue : option string) : option Event :=
  Some {| range := Some {| editedSheet := form; editedA1 := codeUnits a1 |};
          value := codeUnits <$> newValue |}.

(** The constants as the repository has them, all four blank. *)
Definition asCommitted : Settings :=
  {| TEMPLATE_SHEET := []; TEMPLATE_MUNI_A1 := [];
     ROLODEX_ID := []; ROLODEX_TAB := [] |}.

(** The office with the edit handler installed twice. *)
Definition installedTwice : App Font :=
  withTriggers
    {[ 1%positive := openTrigger;
       2%positive := editTrigger (codeUnits "form");
       5%positive := editTrigger (codeUnits "form") ]}
    (office "springfield").

End ScriptExamples.

(** * Properties *)

(** ** Searching a string *)

Lemma startsWith_prefix (t p : str) : startsWith t p = true ↔ p `prefix_of` t.
Proof.
  revert t. induction p as [|a p IH]; intros t; cbn.
  - split; [intros _; apply prefix_nil | done].
  - destruct t as [|b t]; cbn.
    + split; [done | intros H; by apply prefix_nil_not in H].
    + rewrite andb_true_iff, N.eqb_eq, IH. split.
      * intros [-> H]. by apply prefix_cons.
      * intros H. split; [by apply prefix_cons_inv_1 in H | by apply prefix_cons_inv_2 in H].
Qed.

Lemma indexOf_from_spec (t p : str) (i : Z) :
  (indexOf_from t p i = -1 ∧ ∀ n, (n ≤ length t)%nat → ¬ p `prefix_of` drop n t)
  ∨ ∃ n : nat, indexOf_from t p i = i + Z.of_nat n ∧ (n ≤ length t)%nat
      ∧ p `prefix_of` drop n t
      ∧ ∀ n', (n' < n)%nat → ¬ p `prefix_of` drop n' t.
Proof.
  revert i. induction t as [|c t IH]; intros i; cbn [indexOf_from].
  - destruct (startsWith [] p) eqn:Hp.
    + right. exists 0%nat. rewrite startsWith_prefix in Hp.
      repeat split; [lia | done | done | lia].
    + left. split; [done|]. intros n Hn. cbn in Hn.
      replace n with 0%nat by lia. cbn. rewrite <- startsWith_prefix. congruence.
  - destruct (startsWith (c :: t) p) eqn:Hp.
    + right. exists 0%nat. rewrite startsWith_prefix in Hp.
      repeat split; [lia | cbn; lia | done | lia].
    + assert (Hp' : ¬ p `prefix_of` (c :: t)) by (rewrite <- startsWith_prefix; congruence).
      destruct (IH (i + 1)) as [[Hj Hno]|(n & Hj & Hn & Hpre & Hmin)].
      * left. split; [done|]. intros [|n] Hn; [done|]. cbn in *. apply Hno. lia.
      * right. exists (S n). repeat split; [lia | cbn; lia | done |].
        intros [|n'] Hn'; [done|]. cbn. apply Hmin. lia.
Qed.

Lemma indexOf_bounds (t p : str) :
  indexOf t p = -1 ∨ (0 <= indexOf t p ∧ indexOf t p + js_length p <= js_length t).
Proof.
  unfold indexOf, js_length.
  destruct (indexOf_from_spec t p 0) as [[Hj _]|(n & Hj & Hn & Hpre & _)]; [by left|right].
  apply prefix_length in Hpre. rewrite length_drop in Hpre. lia.
Qed.

Lemma indexOf_nil (t : str) : indexOf t [] = 0.
Proof. unfold indexOf. by destruct t. Qed.

Lemma take_prefix (p l : str) : take (length p) l = p ↔ p `prefix_of` l.
Proof.
  split.
  - intros H. exists (drop (length p) l). by rewrite <- H at 1; rewrite take_drop.
  - intros [k ->]. by rewrite take_app_length.
Qed.

Lemma indexOf_first (t p : str) (i : Z) :
  occursAt t i p →
  (∀ j, 0 <= j < i → ¬ occursAt t j p) →
  indexOf t p = i.
Proof.
  intros [Hi Hocc] Hfirst. unfold indexOf.
  apply take_prefix in Hocc.
  destruct (indexOf_from_spec t p 0) as [[_ Hno]|(n & Hj & Hn & Hpre & Hmin)].
  - destruct (decide (Z.to_nat i ≤ length t)%nat) as [Hle|Hgt].
    + by destruct (Hno _ Hle).
    + rewrite drop_ge in Hocc by lia. destruct (Hno (length t)); [done|].
      by rewrite drop_ge.
  - rewrite Hj. destruct (Z.lt_trichotomy (Z.of_nat n) i) as [Hlt|[Heq|Hgt]]; [|lia|].
    + destruct (Hfirst (Z.of_nat n)); [lia|]. split; [lia|].
      rewrite Nat2Z.id. by apply take_prefix.
    + destruct (Hmin (Z.to_nat i)); [lia | done].
Qed.

Lemma rawStart_nonneg (text : str) (sm : MatchResult) : 0 <= rawStart text sm.
Proof.
  unfold rawStart. destruct (indexOf_bounds text (m_0 sm)) as [H|H]; [|unfold js_length in *; lia].
  destruct (m_0 sm) as [|c p] eqn:Hp.
  - rewrite indexOf_nil in H. lia.
  - rewrite H. unfold js_length. cbn. lia.
Qed.

Lemma slice_nonneg (t : str) (i : Z) :
  0 <= i → slice t i = drop (Z.to_nat i) t.
Proof.
  intros Hi. unfold slice, js_length. destruct (i <? 0) eqn:Hneg; [lia|].
  destruct (decide (i <= Z.of_nat (length t))) as [Hle|Hgt].
  - by rewrite Z.min_l.
  - rewrite Z.min_r by lia. rewrite Nat2Z.id. by rewrite !drop_ge by lia.
Qed.

Lemma rawEnd_bounds (text : str) (s0 : Z) (stopRe : RegExp) :
  0 <= s0 →
  rawEnd text s0 stopRe <= js_length text ∨ rawEnd text s0 stopRe <= s0.
Proof.
  intros Hs0. unfold rawEnd. cbn zeta.
  destruct (str_match (slice text s0) stopRe) as [m|]; [|left; lia].
  destruct (indexOf_bounds (slice text s0) (m_0 m)) as [H|[H1 H2]]; [right; lia|].
  rewrite slice_nonneg in * by done. unfold js_length in *.
  rewrite length_drop in H2.
  destruct (decide (s0 <= Z.of_nat (length text))); [left|right]; lia.
Qed.

(** ** The trimming loops *)

Lemma while_invariant {S : Type} (I : S → Prop) (cond : S → bool) (body : S → S) :
  (∀ s, I s → cond s = true → I (body s)) →
  ∀ fuel s s', I s → while fuel cond body s = Some s' → I s' ∧ cond s' = false.
Proof.
  intros Hstep. induction fuel as [|fuel IH]; intros s s' Hs; cbn; [done|].
  destruct (cond s) eqn:Hc.
  - apply IH. by apply Hstep.
  - intros [= <-]. done.
Qed.

Lemma while_terminates {S : Type} (μ : S → nat) (cond : S → bool) (body : S → S) :
  (∀ s, cond s = true → (μ (body s) < μ s)%nat) →
  ∀ fuel s, (μ s < fuel)%nat → is_Some (while fuel cond body s).
Proof.
  intros Hstep. induction fuel as [|fuel IH]; intros s Hs; cbn; [lia|].
  destruct (cond s) eqn:Hc; [|done].
  apply IH. specialize (Hstep s Hc). lia.
Qed.

Lemma while_fuel_mono {S : Type} (cond : S → bool) (body : S → S) :
  ∀ fuel fuel' s s', (fuel ≤ fuel')%nat →
  while fuel cond body s = Some s' → while fuel' cond body s = Some s'.
Proof.
  induction fuel as [|fuel IH]; intros fuel' s s' Hle; cbn; [done|].
  destruct fuel' as [|fuel']; [lia|]. cbn.
  destruct (cond s); [|done]. apply IH. lia.
Qed.

(** Each round of the first loop shrinks [startIdx, endIdx) by one position
    from the left and leaves it an interval; each round of the second
    shrinks it by one from the right. *)
Lemma leadingSpace_shrinks (text : str) (endIdx startIdx : Z) :
  leadingSpace text endIdx startIdx = true →
  0 <= endIdx - (startIdx + 1) < endIdx - startIdx.
Proof. unfold leadingSpace. rewrite andb_true_iff, Z.ltb_lt. lia. Qed.

Lemma trailingSpace_shrinks (text : str) (startIdx endIdx : Z) :
  trailingSpace text startIdx endIdx = true →
  0 <= (endIdx - 1) - startIdx < endIdx - startIdx.
Proof. unfold trailingSpace. rewrite andb_true_iff, Z.gtb_lt. lia. Qed.

Lemma leading_result (text : str) (fuel : nat) (s0 e0 s : Z) :
  while fuel (leadingSpace text e0) (λ i, i + 1) s0 = Some s →
  s0 <= s ∧ (s0 <= e0 → s <= e0) ∧ (e0 <= s0 → s = s0)
  ∧ blank text s0 s ∧ (s < e0 → test_ws (charAt text s) = false).
Proof.
  intros H.
  apply (while_invariant
           (λ s, s0 <= s ∧ (s0 <= e0 → s <= e0) ∧ (e0 <= s0 → s = s0) ∧ blank text s0 s))
    in H.
  - destruct H as [(H1 & H2 & H3 & H4) Hc]. repeat split; try done.
    intros Hlt. unfold leadingSpace in Hc. apply andb_false_iff in Hc as [Hc|Hc]; [|done].
    apply Z.ltb_ge in Hc. lia.
  - intros i (H1 & H2 & H3 & H4) Hc. pose proof (leadingSpace_shrinks _ _ _ Hc).
    repeat split; try lia. intros j Hj.
    destruct (decide (j = i)) as [->|]; [|apply H4; lia].
    unfold leadingSpace in Hc. by apply andb_true_iff in Hc as [_ Hc].
  - repeat split; try lia. intros j Hj. lia.
Qed.

Lemma trailing_result (text : str) (fuel : nat) (s e0 e : Z) :
  while fuel (trailingSpace text s) (λ i, i - 1) e0 = Some e →
  e <= e0 ∧ (s <= e0 → s <= e) ∧ (e0 <= s → e = e0)
  ∧ blank text e e0 ∧ (s < e → test_ws (charAt text (e - 1)) = false).
Proof.
  intros H.
  apply (while_invariant
           (λ e, e <= e0 ∧ (s <= e0 → s <= e) ∧ (e0 <= s → e = e0) ∧ blank text e e0))
    in H.
  - destruct H as [(H1 & H2 & H3 & H4) Hc]. repeat split; try done.
    intros Hlt. unfold trailingSpace in Hc. apply andb_false_iff in Hc as [Hc|Hc]; [|done].
    rewrite Z.gtb_ltb in Hc. apply Z.ltb_ge in Hc. lia.
  - intros i (H1 & H2 & H3 & H4) Hc. pose proof (trailingSpace_shrinks _ _ _ Hc).
    repeat split; try lia. intros j Hj.
    destruct (decide (j = i - 1)) as [->|]; [|apply H4; lia].
    unfold trailingSpace in Hc. by apply andb_true_iff in Hc as [_ Hc].
  - repeat split; try lia. intros j Hj. lia.
Qed.

Lemma leading_terminates (text : str) (fuel : nat) (s0 e0 : Z) :
  (Z.to_nat (e0 - s0) < fuel)%nat →
  is_Some (while fuel (leadingSpace text e0) (λ i, i + 1) s0).
Proof.
  apply (while_terminates (λ s, Z.to_nat (e0 - s))).
  intros i Hc. pose proof (leadingSpace_shrinks _ _ _ Hc). lia.
Qed.

Lemma trailing_terminates (text : str) (fuel : nat) (s e0 : Z) :
  (Z.to_nat (e0 - s) < fuel)%nat →
  is_Some (while fuel (trailingSpace text s) (λ i, i - 1) e0).
Proof.
  apply (while_terminates (λ e, Z.to_nat (e - s))).
  intros i Hc. pose proof (trailingSpace_shrinks _ _ _ Hc). lia.
Qed.

(** ** The effect of a call *)

Section Effects.

Context {TextStyle : Type}.

Implicit Types (w : World TextStyle) (v src res : RichTextValue TextStyle).

Lemma effectOf_total fuel src startRe stopRe :
  (length (rtText src) < fuel)%nat →
  effectOf fuel src startRe stopRe ≠ Diverges.
Proof.
  intros Hfuel. unfold effectOf. cbn zeta.
  destruct (str_match (rtText src) startRe) as [sm|]; [|done].
  pose proof (rawStart_nonneg (rtText src) sm) as Hs0.
  pose proof (rawEnd_bounds (rtText src) _ stopRe Hs0) as He0.
  set (s0 := rawStart (rtText src) sm) in *.
  set (e0 := rawEnd (rtText src) s0 stopRe) in *.
  unfold js_length in He0.
  destruct (leading_terminates (rtText src) fuel s0 e0) as [s Hs]; [lia|].
  rewrite Hs. apply leading_result in Hs as (H1 & H2 & H3 & _).
  destruct (trailing_terminates (rtText src) fuel s e0) as [e He]; [lia|].
  rewrite He. by destruct (e <=? s).
Qed.

Lemma effectOf_ReturnsNew fuel src startRe stopRe lines res :
  effectOf fuel src startRe stopRe = ReturnsNew lines res →
  ∃ sm s e,
    str_match (rtText src) startRe = Some sm
    ∧ trimmedSlice (rtText src) (rawStart (rtText src) sm)
        (rawEnd (rtText src) (rawStart (rtText src) sm) stopRe) s e
    ∧ lines = linesUpTo (rtText src) startRe stopRe sm ++ [LogTrimmedSlice s e]
    ∧ res = fold_left (copied s e) (rtRuns src)
              {| rtText := substring (rtText src) s e; rtRuns := [] |}.
Proof.
  unfold effectOf. cbn zeta.
  destruct (str_match (rtText src) startRe) as [sm|]; [|done].
  pose proof (rawStart_nonneg (rtText src) sm) as Hs0.
  pose proof (rawEnd_bounds (rtText src) _ stopRe Hs0) as He0.
  destruct (while _ (leadingSpace _ _) _ _) as [s|] eqn:Hs; [|done].
  destruct (while _ (trailingSpace _ _) _ _) as [e|] eqn:He; [|done].
  destruct (e <=? s) eqn:Hes; [done|]. intros [= <- <-].
  apply Z.leb_gt in Hes.
  apply leading_result in Hs as (H1 & H2 & H3 & H4 & H5).
  apply trailing_result in He as (H6 & H7 & H8 & H9 & H10).
  exists sm, s, e. split; [done|]. split; [|done].
  unfold trimmedSlice. repeat split; try done; try lia.
  - apply H5. lia.
  - apply H10. lia.
Qed.



End Effects.

(** ** Substrings *)

Lemma substring_inside (t : str) (s e : Z) :
  0 <= s → s <= e → e <= js_length t →
  substring t s e = take (Z.to_nat (e - s)) (drop (Z.to_nat s) t).
Proof.
  intros H1 H2 H3. unfold substring. cbn zeta.
  by rewrite !(Z.max_l _ 0), !(Z.min_l _ (js_length t)), Z.min_l, Z.max_r by lia.
Qed.

Lemma substring_length (t : str) (s e : Z) :
  0 <= s → s <= e → e <= js_length t → js_length (substring t s e) = e - s.
Proof.
  intros H1 H2 H3. rewrite substring_inside by done. unfold js_length in *.
  rewrite length_take, length_drop. lia.
Qed.

Lemma substring_charAt (t : str) (s e i : Z) :
  0 <= s → s <= e → e <= js_length t → 0 <= i < e - s →
  charAt (substring t s e) i = charAt t (s + i).
Proof.
  intros H1 H2 H3 Hi. rewrite substring_inside by done. unfold charAt.
  destruct (i <? 0) eqn:?; [lia|]. destruct (s + i <? 0) eqn:?; [lia|].
  rewrite lookup_take_lt by lia. rewrite lookup_drop. f_equal. lia.
Qed.

Lemma substring_split (t : str) (s e : Z) :
  0 <= s → s <= e → e <= js_length t →
  t = take (Z.to_nat s) t ++ substring t s e ++ drop (Z.to_nat e) t.
Proof.
  intros H1 H2 H3. rewrite substring_inside by done.
  replace (Z.to_nat e) with (Z.to_nat s + Z.to_nat (e - s))%nat by lia.
  rewrite <- drop_drop. by rewrite !take_drop.
Qed.

Lemma charAt_head (t : str) : charAt t 0 = head t.
Proof. by destruct t. Qed.

Lemma charAt_last (t : str) : charAt t (js_length t - 1) = last t.
Proof.
  unfold charAt, js_length. destruct t as [|c t]; [done|].
  destruct (_ <? 0) eqn:H; [apply Z.ltb_lt in H; cbn [length] in H; lia|].
  rewrite last_lookup. f_equal. cbn [length]. lia.
Qed.

(** ** Running the routine *)

Section Execution.

Context {TextStyle : Type}.

Implicit Types (w : World TextStyle) (v src : RichTextValue TextStyle).

Lemma bind_Done {A B : Type} (m : M TextStyle A) (f : A → M TextStyle B) w a w' :
  m w = Done a w' → (m ≫= f) w = f a w'.
Proof. intros H. unfold mbind, M_bind. by rewrite H. Qed.

Lemma bind_OutOfFuel {A B : Type} (m : M TextStyle A) (f : A → M TextStyle B) w :
  m w = OutOfFuel → (m ≫= f) w = OutOfFuel.
Proof. intros H. unfold mbind, M_bind. by rewrite H. Qed.

Lemma updateBuilder_Done b f w v :
  heap w !! b = Some (ObjBuilder v) →
  updateBuilder b f w
  = Done b {| heap := <[b := ObjBuilder (f v)]> (heap w); console := console w |}.
Proof. intros H. unfold updateBuilder. by rewrite H. Qed.

Lemma formatBuilder_Done b s e f w v :
  heap w !! b = Some (ObjBuilder v) →
  validRange v s e = true →
  formatBuilder b s e f w
  = Done b {| heap := <[b := ObjBuilder (f v)]> (heap w); console := console w |}.
Proof.
  intros Hb Hvalid. unfold formatBuilder. rewrite Hb, Hvalid.
  by apply updateBuilder_Done.
Qed.

Lemma copied_text s e v r : rtText (copied s e v r) = rtText v.
Proof.
  unfold copied. destruct (_ >? _); [|done]. by destruct (runLink r) as [[|??]|].
Qed.

(** The ranges the routine hands to the builder are ranges of the text
    of the section: the setters do not throw. *)
Lemma copyRun_Done b s e r w v :
  heap w !! b = Some (ObjBuilder v) →
  js_length (rtText v) = e - s →
  copyRun b s e r w
  = Done tt {| heap := <[b := ObjBuilder (copied s e v r)]> (heap w);
               console := console w |}.
Proof.
  intros Hb Hlen. unfold copyRun, copied.
  destruct (Z.min (runEnd r) e >? Z.max (runStart r) s) eqn:Hov.
  - apply Z.gtb_lt in Hov.
    assert (∀ v', rtText v' = rtText v →
              validRange v' (Z.max (runStart r) s - s) (Z.min (runEnd r) e - s) = true)
      as Hvalid.
    { intros v' Hv'. unfold validRange. rewrite Hv', Hlen.
      apply andb_true_iff. split; [apply andb_true_iff; split|].
      - apply Z.leb_le. lia.
      - apply Z.ltb_lt. lia.
      - apply Z.leb_le. lia. }
    unfold setTextStyle, setLinkUrl.
    erewrite bind_Done by (apply formatBuilder_Done; [done|by apply Hvalid]).
    destruct (runLink r) as [[|c u]|]; cbn.
    + done.
    + erewrite bind_Done
        by (apply formatBuilder_Done; [cbn; apply lookup_insert_eq|by apply Hvalid]).
      cbn. by rewrite insert_insert_eq.
    + done.
  - cbn. rewrite insert_id by done. by destruct w.
Qed.

Lemma forEach_copyRun b s e runs : ∀ w v,
  heap w !! b = Some (ObjBuilder v) →
  js_length (rtText v) = e - s →
  forEach runs (copyRun b s e) w
  = Done tt {| heap := <[b := ObjBuilder (fold_left (copied s e) runs v)]> (heap w);
               console := console w |}.
Proof.
  induction runs as [|r runs IH]; intros w v Hb Hlen; cbn [forEach fold_left].
  - cbn. rewrite insert_id by done. by destruct w.
  - erewrite bind_Done by (by apply copyRun_Done).
    erewrite IH; [| cbn; apply lookup_insert_eq | by rewrite copied_text].
    cbn. by rewrite insert_insert_eq.
Qed.

Lemma fold_copied_text s e runs : ∀ v,
  rtText (fold_left (copied s e) runs v) = rtText v.
Proof.
  induction runs as [|r runs IH]; intros v; cbn [fold_left]; [done|].
  rewrite IH. unfold copied.
  destruct (_ >? _); [|done]. by destruct (runLink r) as [[|??]|].
Qed.

Theorem extract_applyEffect fuel richText startRe stopRe w src :
  heap w !! richText = Some (ObjRichText src) →
  extractRichTextSection_ fuel richText startRe stopRe w
  = applyEffect (effectOf fuel src startRe stopRe) w.
Proof.
  intros Hsrc. unfold extractRichTextSection_, effectOf.
  erewrite bind_Done by (unfold getText; by rewrite Hsrc).
  erewrite bind_Done by reflexivity.
  erewrite bind_Done by reflexivity.
  destruct (str_match (rtText src) startRe) as [sm|] eqn:Hstart; cbn [fmap option_fmap option_map].
  2:{ cbn. unfold logged. cbn. by rewrite <- app_assoc. }
  fold (rawStart (rtText src) sm).
  set (s0 := rawStart (rtText src) sm).
  erewrite bind_Done by reflexivity.
  erewrite bind_Done by reflexivity.
  erewrite bind_Done by reflexivity.
  fold (rawEnd (rtText src) s0 stopRe).
  set (e0 := rawEnd (rtText src) s0 stopRe).
  cbn [heap console].
  destruct (while fuel (leadingSpace (rtText src) e0) _ s0) as [s|] eqn:Hlead.
  2:{ erewrite bind_OutOfFuel; [done|]. unfold while_. by rewrite Hlead. }
  erewrite bind_Done by (unfold while_; rewrite Hlead; reflexivity).
  destruct (while fuel (trailingSpace (rtText src) s) _ e0) as [e|] eqn:Htrail.
  2:{ erewrite bind_OutOfFuel; [done|]. unfold while_. by rewrite Htrail. }
  erewrite bind_Done by (unfold while_; rewrite Htrail; reflexivity).
  destruct (e <=? s) eqn:Hes.
  - erewrite bind_Done by reflexivity.
    unfold mret, M_ret, applyEffect, logged. cbn. by rewrite <- !app_assoc.
  - assert (js_length (substring (rtText src) s e) = e - s) as Hlen.
    { apply Z.leb_gt in Hes.
      pose proof (rawStart_nonneg (rtText src) sm) as Hs0.
      pose proof (rawEnd_bounds (rtText src) _ stopRe Hs0) as He0.
      apply leading_result in Hlead as (H1 & H2 & H3 & _).
      apply trailing_result in Htrail as (H4 & H5 & H6 & _).
      fold s0 e0 in Hs0, He0. apply substring_length; lia. }
    erewrite bind_Done by reflexivity.
    erewrite bind_Done by reflexivity.
    cbn [heap console].
    set (b := fresh (dom (heap w))).
    assert (Hb : b ≠ richText).
    { intros Heq. apply (is_fresh (dom (heap w))). apply elem_of_dom.
      fold b. rewrite Heq, Hsrc. by eexists. }
    erewrite bind_Done by (apply updateBuilder_Done; cbn; apply lookup_insert_eq).
    cbn [heap console]. rewrite insert_insert_eq.
    erewrite bind_Done
      by (unfold getRuns; cbn; rewrite lookup_insert_ne, Hsrc by done; reflexivity).
    erewrite bind_Done by (apply forEach_copyRun; [cbn; apply lookup_insert_eq|done]).
    cbn [heap console]. rewrite insert_insert_eq.
    erewrite bind_Done by (unfold build; cbn; rewrite lookup_insert_eq; reflexivity).
    unfold mret, M_ret, applyEffect. cbn. rewrite <- !app_assoc. reflexivity.
Qed.
End Execution.

(** ** The runs of the result *)

Section Runs.

Context {TextStyle : Type}.

Implicit Types (v src res : RichTextValue TextStyle) (r : StyleRun TextStyle).

Lemma extent_linkIn a b u r : extent (linkIn a b u r) = extent r.
Proof. unfold linkIn. by destruct (_ && _). Qed.

Lemma copied_extents s e v r :
  extent <$> rtRuns (copied s e v r) = (extent <$> rtRuns v) ++ clipped s e r.
Proof.
  unfold copied, clipped. cbn zeta. rewrite Z.gtb_ltb.
  destruct (_ <? _); [|by rewrite app_nil_r].
  assert (extent <$> rtRuns (addStyle (Z.max (runStart r) s - s)
            (Z.min (runEnd r) e - s) (runStyle r) v)
          = (extent <$> rtRuns v) ++ [(Z.max (runStart r) s - s,
               Z.min (runEnd r) e - s, runStyle r)]) as Hst.
  { unfold addStyle. cbn. by rewrite fmap_app. }
  destruct (runLink r) as [[|c u]|]; try done.
  unfold addLink. cbn [rtRuns]. rewrite <- Hst, <- list_fmap_compose.
  apply list_fmap_ext. intros i x _. apply extent_linkIn.
Qed.

Lemma fold_copied_extents s e runs : ∀ v,
  extent <$> rtRuns (fold_left (copied s e) runs v)
  = (extent <$> rtRuns v) ++ flat_map (clipped s e) runs.
Proof.
  induction runs as [|r runs IH]; intros v; cbn [fold_left flat_map].
  - by rewrite app_nil_r.
  - by rewrite IH, copied_extents, <- app_assoc.
Qed.

Lemma clipped_bounds s e r x :
  x ∈ clipped s e r → 0 <= x.1.1 ∧ x.1.1 < x.1.2 ∧ x.1.2 <= e - s.
Proof.
  unfold clipped. cbn zeta. destruct (_ <? _) eqn:H; [|by intros ?%elem_of_nil].
  intros ->%list_elem_of_singleton. cbn. lia.
Qed.

(** Order of the runs. *)

Lemma forallb_fmap {A B : Type} (f : A → B) (P : B → bool) (l : list A) :
  forallb P (f <$> l) = forallb (λ x, P (f x)) l.
Proof. induction l as [|x l IH]; [done|]. cbn. by rewrite IH. Qed.

Lemma pairwise_fmap {A B : Type} (f : A → B) (R : B → B → bool) (l : list A) :
  pairwise R (f <$> l) = pairwise (λ x y, R (f x) (f y)) l.
Proof.
  induction l as [|x l IH]; [done|]. cbn. by rewrite IH, forallb_fmap.
Qed.

Lemma forallb_flat_map {A B : Type} (P : B → bool) (f : A → list B) (l : list A) :
  forallb P (flat_map f l) = forallb (λ x, forallb P (f x)) l.
Proof.
  induction l as [|x l IH]; [done|]. cbn. by rewrite forallb_app, IH.
Qed.

Lemma pairwise_clipped (R R' : _ → _ → bool) s e (runs : list (StyleRun TextStyle)) :
  (∀ r1 r2 x1 x2, R r1 r2 = true → x1 ∈ clipped s e r1 → x2 ∈ clipped s e r2 →
     R' x1 x2 = true) →
  pairwise R runs = true →
  pairwise R' (flat_map (clipped s e) runs) = true.
Proof.
  intros HR. induction runs as [|r runs IH]; [done|]. cbn.
  rewrite andb_true_iff. intros [Hr Hrest]. specialize (IH Hrest).
  unfold clipped at 1. cbn zeta. destruct (_ <? _) eqn:Hov; [|done].
  cbn. rewrite IH, andb_true_r.
  rewrite forallb_flat_map. rewrite forallb_forall in *. intros r2 Hr2.
  rewrite forallb_forall. intros x2 Hx2.
  apply (HR r r2); [by apply Hr | | by apply list_elem_of_In].
  unfold clipped. cbn zeta. rewrite Hov. by apply list_elem_of_singleton.
Qed.

Lemma sortedByStart_extents (runs : list (StyleRun TextStyle)) :
  sortedByStart runs = pairwise (λ x y, startOf x <=? startOf y) (extent <$> runs).
Proof. by rewrite pairwise_fmap. Qed.

Lemma nonOverlapping_extents (runs : list (StyleRun TextStyle)) :
  nonOverlapping runs
  = pairwise (λ x y, negb (Z.max (startOf x) (startOf y) <? Z.min (endOf x) (endOf y)))
      (extent <$> runs).
Proof. by rewrite pairwise_fmap. Qed.

Lemma copied_sortedByStart s e src text :
  sortedByStart (rtRuns src) = true →
  sortedByStart (rtRuns (fold_left (copied s e) (rtRuns src)
                           {| rtText := text; rtRuns := [] |})) = true.
Proof.
  intros H. rewrite sortedByStart_extents, fold_copied_extents. cbn [rtRuns fmap list_fmap app].
  revert H. apply pairwise_clipped.
  intros r1 r2 x1 x2 HR. unfold clipped. cbn zeta.
  destruct (Z.max (runStart r1) s <? _); [|by intros ?%elem_of_nil].
  destruct (Z.max (runStart r2) s <? _); [|by intros _ ?%elem_of_nil].
  intros ->%list_elem_of_singleton ->%list_elem_of_singleton.
  unfold startOf. cbn. apply Z.leb_le in HR. apply Z.leb_le. lia.
Qed.

Lemma copied_nonOverlapping s e src text :
  nonOverlapping (rtRuns src) = true →
  nonOverlapping (rtRuns (fold_left (copied s e) (rtRuns src)
                            {| rtText := text; rtRuns := [] |})) = true.
Proof.
  intros H. rewrite nonOverlapping_extents, fold_copied_extents. cbn [rtRuns fmap list_fmap app].
  revert H. apply pairwise_clipped.
  intros r1 r2 x1 x2 HR. unfold clipped. cbn zeta.
  destruct (Z.max (runStart r1) s <? _) eqn:H1; [|by intros ?%elem_of_nil].
  destruct (Z.max (runStart r2) s <? _) eqn:H2; [|by intros _ ?%elem_of_nil].
  intros ->%list_elem_of_singleton ->%list_elem_of_singleton.
  unfold startOf, endOf. cbn. unfold overlaps in HR.
  apply negb_true_iff, Z.ltb_ge in HR. apply negb_true_iff, Z.ltb_ge. lia.
Qed.

End Runs.

(** ** The links of the result *)

Section Links.

Context {TextStyle : Type}.

Implicit Types (v src res : RichTextValue TextStyle) (r : StyleRun TextStyle).

Lemma copied_runs s e v r :
  Forall (apart s e r) (rtRuns v) →
  rtRuns (copied s e v r) = rtRuns v ++ emitted s e r.
Proof.
  intros Hv. unfold copied, emitted. cbn zeta. rewrite Z.gtb_ltb.
  destruct (_ <? _) eqn:Hov; [|by rewrite app_nil_r].
  apply Z.ltb_lt in Hov.
  destruct (runLink r) as [[|c u]|]; try done.
  unfold addLink, addStyle. cbn [rtRuns]. rewrite fmap_app. f_equal.
  - rewrite <- (list_fmap_id (rtRuns v)) at 2. apply list_fmap_ext.
    intros i x Hx. rewrite Forall_lookup in Hv. by apply (Hv i x Hx).
  - cbn. unfold linkIn. cbn. by rewrite !Z.leb_refl.
Qed.

Lemma emitted_apart s e r1 r2 r' :
  overlaps r1 r2 = false → r' ∈ emitted s e r1 → apart s e r2 r'.
Proof.
  unfold overlaps, emitted. cbn zeta. intros Hov%Z.ltb_ge.
  destruct (_ <? _) eqn:H1; [|by intros ?%elem_of_nil].
  apply Z.ltb_lt in H1. intros ->%list_elem_of_singleton u H2.
  unfold linkIn. cbn [runStart runEnd].
  destruct (_ && _) eqn:Hc; [|done].
  apply andb_true_iff in Hc as [?%Z.leb_le ?%Z.leb_le]. lia.
Qed.

Lemma fold_copied_runs s e runs : ∀ v,
  nonOverlapping runs = true →
  Forall (λ r', Forall (λ r, apart s e r r') runs) (rtRuns v) →
  rtRuns (fold_left (copied s e) runs v) = rtRuns v ++ flat_map (emitted s e) runs.
Proof.
  induction runs as [|r runs IH]; intros v Hno Hv; cbn [fold_left flat_map].
  - by rewrite app_nil_r.
  - unfold nonOverlapping in Hno. cbn in Hno. apply andb_true_iff in Hno as [Hr Hno].
    rewrite IH; [| done |].
    + rewrite copied_runs; [by rewrite <- app_assoc|].
      eapply Forall_impl; [done|]. cbn. intros r' Hr'. by apply Forall_cons in Hr' as [? _].
    + rewrite copied_runs.
      2:{ eapply Forall_impl; [done|]. cbn. intros r' Hr'. by apply Forall_cons in Hr' as [? _]. }
      apply Forall_app. split.
      * eapply Forall_impl; [done|]. cbn. intros r' Hr'. by apply Forall_cons in Hr' as [_ ?].
      * apply Forall_forall. intros r' Hr'. apply Forall_forall. intros r2 Hr2.
        apply (emitted_apart s e r); [|done].
        rewrite forallb_forall in Hr. apply list_elem_of_In in Hr2.
        specialize (Hr _ Hr2). by apply negb_true_iff in Hr.
Qed.

Lemma emitted_inside s e r :
  s <= runStart r → runEnd r <= e → runStart r < runEnd r →
  runLink r ≠ Some [] →
  emitted s e r = [rebased s r].
Proof.
  intros H1 H2 H3 Hlink. unfold emitted, rebased. cbn zeta.
  destruct (_ <? _) eqn:Hov; [|lia].
  rewrite Z.max_l, Z.min_l by lia. do 2 f_equal.
  by destruct (runLink r) as [[|c u]|].
Qed.

Lemma elem_of_flat_map {A B : Type} (f : A → list B) (l : list A) (y : B) :
  y ∈ flat_map f l ↔ ∃ x, x ∈ l ∧ y ∈ f x.
Proof.
  rewrite list_elem_of_In, in_flat_map. setoid_rewrite list_elem_of_In. done.
Qed.

End Links.

(** ** The world after a call *)

Section Calls.

Context {TextStyle : Type}.

Implicit Types (w : World TextStyle) (v src res : RichTextValue TextStyle).

Lemma applyEffect_frame (eff : Effect TextStyle) w r w' :
  applyEffect eff w = Done r w' →
  ∀ l o, heap w !! l = Some o → heap w' !! l = Some o.
Proof.
  destruct eff as [|lines|lines res]; cbn; [done | by intros [= <- <-] |].
  intros [= <- <-] l o Hl. cbn.
  set (b := fresh (dom (heap w))).
  set (l' := fresh (dom (<[b:=ObjBuilder res]> (heap w)))).
  assert (l ∈ dom (heap w)) as Hdom by (apply elem_of_dom; by eexists).
  assert (l ≠ b) as Hb by (intros ->; by apply (is_fresh (dom (heap w)))).
  assert (l ≠ l') as Hl'.
  { intros ->. apply (is_fresh (dom (<[b:=ObjBuilder res]> (heap w)))).
    fold l'. rewrite dom_insert. set_solver. }
  by rewrite !lookup_insert_ne.
Qed.

Lemma applyEffect_Some (eff : Effect TextStyle) w l w' :
  applyEffect eff w = Done (Some l) w' →
  ∃ lines res, eff = ReturnsNew lines res
    ∧ console w' = console w ++ lines
    ∧ heap w !! l = None
    ∧ heap w' !! l = Some (ObjRichText res).
Proof.
  destruct eff as [|lines|lines res]; cbn; [done | done |].
  intros H. injection H as <- <-. exists lines, res. cbn. split; [done|]. split; [done|]. split.
  - apply not_elem_of_dom. intros Hin.
    apply (is_fresh (dom (<[fresh (dom (heap w)):=ObjBuilder res]> (heap w)))).
    rewrite dom_insert_L in Hin |- *. by apply elem_of_union_r.
  - apply lookup_insert_eq.
Qed.



Lemma extract_bad_reference fuel richText startRe stopRe w :
  (∀ src, heap w !! richText ≠ Some (ObjRichText src)) →
  extractRichTextSection_ fuel richText startRe stopRe w = Throw TypeError w.
Proof.
  intros H. unfold extractRichTextSection_, mbind, M_bind, getText.
  destruct (heap w !! richText) as [[src|b]|] eqn:Hl; try done.
  by destruct (H src).
Qed.

Lemma extract_cases fuel richText startRe stopRe w :
  (∃ src, heap w !! richText = Some (ObjRichText src)
          ∧ extractRichTextSection_ fuel richText startRe stopRe w
            = applyEffect (effectOf fuel src startRe stopRe) w)
  ∨ extractRichTextSection_ fuel richText startRe stopRe w = Throw TypeError w.
Proof.
  destruct (heap w !! richText) as [[src|b]|] eqn:Hl.
  - left. exists src. split; [done|]. by apply extract_applyEffect.
  - right. apply extract_bad_reference. intros src. congruence.
  - right. apply extract_bad_reference. intros src. congruence.
Qed.

(** A call that returns a value: the match, the range and the value. *)
Lemma extract_Some fuel richText startRe stopRe w src l w' :
  heap w !! richText = Some (ObjRichText src) →
  extractRichTextSection_ fuel richText startRe stopRe w = Done (Some l) w' →
  ∃ sm s e,
    str_match (rtText src) startRe = Some sm
    ∧ trimmedSlice (rtText src) (rawStart (rtText src) sm)
        (rawEnd (rtText src) (rawStart (rtText src) sm) stopRe) s e
    ∧ console w' = console w ++ linesUpTo (rtText src) startRe stopRe sm
                     ++ [LogTrimmedSlice s e]
    ∧ heap w !! l = None
    ∧ heap w' !! l
      = Some (ObjRichText (fold_left (copied s e) (rtRuns src)
                             {| rtText := substring (rtText src) s e;
                                rtRuns := [] |})).
Proof.
  intros Hsrc. rewrite (extract_applyEffect _ _ _ _ _ _ Hsrc).
  intros (lines & res & Heff & Hcon & Hnew & Hl)%applyEffect_Some.
  apply effectOf_ReturnsNew in Heff as (sm & s & e & Hsm & Htrim & -> & ->).
  exists sm, s, e. by rewrite Hcon.
Qed.

Lemma last_console (lines : list LogLine) (x : LogLine) l :
  last (l ++ lines ++ [x]) = Some x.
Proof. by rewrite app_assoc, last_snoc. Qed.

End Calls.

(** ** Trimming, as a function on strings *)

Lemma trimStart_app (a l : str) :
  Forall (λ c, isWhiteSpace c = true) a →
  (∀ c, head l = Some c → isWhiteSpace c = false) →
  trimStart (a ++ l) = l.
Proof.
  intros Ha Hl. induction Ha as [|c a Hc _ IH]; cbn.
  - destruct l as [|c l]; [done|]. cbn. by rewrite (Hl c).
  - by rewrite Hc.
Qed.

Lemma blank_Forall (t : str) (a b : Z) :
  0 <= a → a <= b → b <= js_length t → blank t a b →
  Forall (λ c, isWhiteSpace c = true) (substring t a b).
Proof.
  intros H1 H2 H3 Hb. apply Forall_lookup. intros i c Hi.
  assert (Z.of_nat i < b - a) as Hlt.
  { apply lookup_lt_Some in Hi. pose proof (substring_length t a b H1 H2 H3).
    unfold js_length in *. lia. }
  specialize (Hb (a + Z.of_nat i)). rewrite <- (substring_charAt t a b) in Hb by lia.
  unfold charAt in Hb. destruct (_ <? 0) eqn:?; [lia|].
  rewrite Nat2Z.id, Hi in Hb. apply Hb. lia.
Qed.

Lemma charAt_drop (t : str) (a i : Z) :
  0 <= a → 0 <= i → charAt (drop (Z.to_nat a) t) i = charAt t (a + i).
Proof.
  intros Ha Hi. unfold charAt. destruct (i <? 0) eqn:?; [lia|].
  destruct (a + i <? 0) eqn:?; [lia|]. rewrite lookup_drop. f_equal. lia.
Qed.

Lemma substring_to_end (t : str) (s : Z) :
  0 <= s → s <= js_length t → substring t s (js_length t) = drop (Z.to_nat s) t.
Proof.
  intros H1 H2. rewrite substring_inside by lia. apply take_ge.
  rewrite length_drop. unfold js_length. lia.
Qed.

Lemma substring_app (t : str) (a b c : Z) :
  0 <= a → a <= b → b <= c → c <= js_length t →
  substring t a c = substring t a b ++ substring t b c.
Proof.
  intros H1 H2 H3 H4. rewrite !substring_inside by lia.
  replace (Z.to_nat (c - a)) with (Z.to_nat (b - a) + Z.to_nat (c - b))%nat by lia.
  rewrite <- take_take_drop, drop_drop. do 3 f_equal. lia.
Qed.

(** The section is the raw slice, trimmed. *)
Lemma trimmedSlice_trim (t : str) (s0 e0 s e : Z) :
  trimmedSlice t s0 e0 s e → substring t s e = trim (substring t s0 e0).
Proof.
  intros (H1 & H2 & H3 & H4 & H5 & H6 & H7 & H8 & H9).
  rewrite (substring_app t s0 s e0), (substring_app t s e e0) by lia.
  unfold trim. rewrite trimStart_app.
  - unfold trimEnd. rewrite reverse_app, trimStart_app, reverse_involutive; [done| |].
    + apply Forall_reverse. apply blank_Forall; [lia..|done].
    + intros c. rewrite head_reverse. rewrite <- charAt_last.
      rewrite substring_length, substring_charAt by lia.
      replace (s + (e - s - 1)) with (e - 1) by lia. intros Hc. by rewrite Hc in H9.
  - apply blank_Forall; [lia..|done].
  - intros c. destruct (substring t s e) as [|c' u] eqn:Hu.
    + pose proof (substring_length t s e ltac:(lia) ltac:(lia) ltac:(lia)) as Hlen.
      rewrite Hu in Hlen. unfold js_length in Hlen at 1. cbn in Hlen. lia.
    + cbn. intros [= ->]. rewrite <- (Z.add_0_r s) in H8.
      rewrite <- (substring_charAt t s e) in H8 by lia. by rewrite Hu in H8.
Qed.

(** ** The raw slice of lawful patterns *)

Lemma indexOf_found (t p : str) (i : Z) :
  occursAt t i p → 0 <= indexOf t p ∧ indexOf t p <= i.
Proof.
  intros [Hi Hocc]. unfold indexOf. apply take_prefix in Hocc.
  destruct (indexOf_from_spec t p 0) as [[_ Hno]|(n & Hj & Hn & Hpre & Hmin)].
  - destruct (decide (Z.to_nat i ≤ length t)%nat) as [Hle|Hgt].
    + by destruct (Hno _ Hle).
    + rewrite drop_ge in Hocc by lia. destruct (Hno (length t)); [done|].
      by rewrite drop_ge.
  - rewrite Hj. split; [lia|].
    destruct (decide (Z.of_nat n <= i)); [lia|].
    destruct (Hmin (Z.to_nat i)); [lia | done].
Qed.

Lemma rawSlice_in_text (text : str) (startRe stopRe : RegExp) (sm : MatchResult) :
  lawful startRe → lawful stopRe →
  str_match text startRe = Some sm →
  0 <= rawStart text sm
  ∧ rawStart text sm <= rawEnd text (rawStart text sm) stopRe
  ∧ rawEnd text (rawStart text sm) stopRe <= js_length text.
Proof.
  intros Hstart Hstop Hsm. apply Hstart in Hsm as Hocc.
  pose proof (indexOf_found _ _ _ Hocc) as [H1 H2].
  destruct (indexOf_bounds text (m_0 sm)) as [H3|[_ H3]]; [lia|].
  assert (0 <= rawStart text sm <= js_length text) as Hs0
    by (unfold rawStart, js_length in *; lia).
  split; [lia|]. unfold rawEnd. cbn zeta.
  destruct (str_match (slice text (rawStart text sm)) stopRe) as [m|] eqn:Hm; [|lia].
  apply Hstop in Hm as Hocc'.
  pose proof (indexOf_found _ _ _ Hocc') as [H4 H5].
  destruct (indexOf_bounds (slice text (rawStart text sm)) (m_0 m)) as [H6|[_ H6]]; [lia|].
  rewrite slice_nonneg in H4, H5, H6 |- * by lia. unfold js_length in *.
  rewrite length_drop in H6. lia.
Qed.

(** ** Blank slices and [trim] *)

Lemma trimStart_blank (u : str) :
  Forall (λ c, isWhiteSpace c = true) u → trimStart u = [].
Proof. induction 1 as [|c u Hc _ IH]; [done|]. cbn. by rewrite Hc. Qed.

Lemma trimStart_nil (u : str) :
  trimStart u = [] → Forall (λ c, isWhiteSpace c = true) u.
Proof.
  induction u as [|c u IH]; [done|]. cbn.
  destruct (isWhiteSpace c) eqn:Hc; [|done]. intros H. constructor; [done|by apply IH].
Qed.

Lemma trimStart_suffix (u : str) :
  ∃ a, u = a ++ trimStart u ∧ Forall (λ c, isWhiteSpace c = true) a.
Proof.
  induction u as [|c u (a & Ha & Hws)]; [by exists []|]. cbn.
  destruct (isWhiteSpace c) eqn:Hc.
  - exists (c :: a). split; [by rewrite Ha at 1|by constructor].
  - by exists [].
Qed.

Lemma trimStart_head (u : str) (c : N) :
  head (trimStart u) = Some c → isWhiteSpace c = false.
Proof.
  induction u as [|c' u IH]; [done|]. cbn.
  destruct (isWhiteSpace c') eqn:Hc; [done|]. cbn. by intros [= <-].
Qed.

Lemma trim_nil (u : str) :
  trim u = [] ↔ Forall (λ c, isWhiteSpace c = true) u.
Proof.
  unfold trim, trimEnd. split.
  - intros H. apply (f_equal reverse) in H. rewrite reverse_involutive in H.
    cbn in H. apply trimStart_nil, Forall_reverse in H.
    rewrite reverse_involutive in H.
    destruct (trimStart_suffix u) as (a & Ha & Hws).
    destruct (trimStart u) as [|c v] eqn:Hv.
    + rewrite Ha, app_nil_r. done.
    + apply Forall_cons in H as [Hc _].
      by rewrite (trimStart_head u c) in Hc by (by rewrite Hv).
  - intros H. by rewrite (trimStart_blank u H).
Qed.

(** A slice of the text is blank when trimming leaves nothing of it. *)
Lemma blank_iff_trim_nil (t : str) (a b : Z) :
  0 <= a → a <= b → b <= js_length t →
  blank t a b ↔ trim (substring t a b) = [].
Proof.
  intros H1 H2 H3. rewrite trim_nil. split; [by apply blank_Forall|].
  intros Hws i Hi. rewrite Forall_lookup in Hws.
  replace i with (a + (i - a)) by lia.
  rewrite <- (substring_charAt t a b) by lia.
  pose proof (substring_length t a b H1 H2 H3) as Hlen. unfold js_length in Hlen.
  unfold charAt. destruct (_ <? 0) eqn:?; [lia|].
  destruct (substring t a b !! Z.to_nat (i - a)) as [c|] eqn:Hc.
  - cbn. by apply (Hws _ _ Hc).
  - apply lookup_ge_None in Hc. lia.
Qed.

(** ** The patterns of the engine *)

Module RegexFacts.
Import Regex.

Lemma iterate_suffix step k n : 
  (∀ s k' x, step s k' = Some x → ∃ s', s' `suffix_of` s ∧ k' s' = Some x) →
  ∀ s x, iterate step k n s = Some x → ∃ s', s' `suffix_of` s ∧ k s' = Some x.
Proof.
  intros Hstep. induction n as [|n IH]; intros s x; cbn [iterate].
  - intros H. by exists s.
  - destruct (step s _) as [y|] eqn:Hy.
    + intros [= ->]. apply Hstep in Hy as (s' & Hs' & Hk).
      destruct (length s' <? length s)%nat; [|done]. apply IH in Hk as (s'' & Hs'' & Hk).
      exists s''. split; [by etrans|done].
    + intros H. by exists s.
Qed.

Lemma run_suffix r : ∀ s k x,
  run r s k = Some x → ∃ s', s' `suffix_of` s ∧ k s' = Some x.
Proof.
  induction r as [c| | |r1 IH1 r2 IH2|r1 IH1 r2 IH2|r IH| |r IH]; intros s k x; cbn.
  - destruct s as [|a s]; [done|]. destruct (a =? c)%N; [|done].
    intros H. exists s. split; [by apply suffix_cons_r|done].
  - destruct s as [|a s]; [done|]. destruct (isWhiteSpace a); [|done].
    intros H. exists s. split; [by apply suffix_cons_r|done].
  - intros H. by exists s.
  - intros (s1 & Hs1 & H)%IH1. apply IH2 in H as (s2 & Hs2 & H).
    exists s2. split; [by etrans|done].
  - destruct (run r1 s k) as [y|] eqn:Hy.
    + intros [= ->]. by apply IH1.
    + apply IH2.
  - by apply iterate_suffix.
  - destruct s; [|done]. intros H. by exists [].
  - destruct (run r s Some); [|done]. intros H. by exists s.
Qed.

Lemma take_up_to_suffix (l u rest : str) :
  l = u ++ rest → l = take (length l - length rest) l ++ rest.
Proof.
  intros ->. rewrite length_app.
  replace (length u + length rest - length rest)%nat with (length u) by lia.
  by rewrite take_app_length.
Qed.

Lemma search_spec r : ∀ s i m,
  search r s i = Some m →
  ∃ (n : nat) rest,
    m_index m = i + Z.of_nat n
    ∧ drop n s = m_0 m ++ rest
    ∧ run r (drop n s) Some = Some rest
    ∧ ∀ n', (n' < n)%nat → run r (drop n' s) Some = None.
Proof.
  induction s as [|c s IH]; intros i m; cbn [search].
  - destruct (run r [] Some) as [rest|] eqn:Hrun; [|done].
    intros [= <-]. exists 0%nat, rest. cbn.
    apply run_suffix in Hrun as H. destruct H as (s' & Hs' & [= ->]).
    apply suffix_nil_inv in Hs' as ->. split_and!; [lia | done | done | lia].
  - destruct (run r (c :: s) Some) as [rest|] eqn:Hrun.
    + intros [= <-]. exists 0%nat, rest. cbn [m_index m_0 drop].
      apply run_suffix in Hrun as H. destruct H as (s' & [u Hu] & [= ->]).
      split_and!; [lia | | done | lia].
      change (S (length s)) with (length (c :: s)). by apply (take_up_to_suffix _ u).
    + intros (n & rest & H1 & H2 & H3 & H4)%IH.
      exists (S n), rest. cbn [drop]. split_and!; [lia | done | done |].
      intros [|n'] Hn'; [done|]. cbn. apply H4. lia.
Qed.

Lemma compile_lawful src r : lawful (compile src r).
Proof.
  intros t m. cbn. intros (n & rest & H1 & H2 & _)%search_spec.
  split; [lia|]. rewrite H1, Z.add_0_l, Nat2Z.id, H2. apply take_app_length.
Qed.

Lemma iterate_sound (P : str → Prop) step k n :
  (∀ s k' x, step s k' = Some x → ∃ u s', s = u ++ s' ∧ P u ∧ k' s' = Some x) →
  ∀ s x, iterate step k n s = Some x →
    ∃ us s', s = concat us ++ s' ∧ Forall P us ∧ k s' = Some x.
Proof.
  intros Hstep. induction n as [|n IH]; intros s x; cbn [iterate].
  - intros H. by exists [], s.
  - destruct (step s _) as [y|] eqn:Hy.
    + intros [= ->]. apply Hstep in Hy as (u & s' & -> & Hu & Hk).
      destruct (length s' <? length (u ++ s'))%nat; [|done].
      apply IH in Hk as (us & s'' & -> & Hus & Hk).
      exists (u :: us), s''. cbn. rewrite <- app_assoc.
      split; [done|]. split; [by constructor|done].
    + intros H. by exists [], s.
Qed.

Lemma run_sound r : assertionFree r = true → ∀ s k x,
  run r s k = Some x → ∃ u s', s = u ++ s' ∧ matches r u ∧ k s' = Some x.
Proof.
  induction r as [c| | |r1 IH1 r2 IH2|r1 IH1 r2 IH2|r IH| |r IH];
    cbn [assertionFree]; intros Hfree s k x; cbn [run matches]; try done.
  - destruct s as [|a s]; [done|]. destruct (a =? c)%N eqn:Hc; [|done].
    apply N.eqb_eq in Hc as ->. intros H. by exists [c], s.
  - destruct s as [|a s]; [done|]. destruct (isWhiteSpace a) eqn:Ha; [|done].
    intros H. exists [a], s. split; [done|]. split; [by exists a|done].
  - intros H. by exists [], s.
  - apply andb_true_iff in Hfree as [H1 H2].
    intros (u1 & s1 & -> & Hu1 & H)%IH1; [|done].
    apply IH2 in H as (u2 & s2 & -> & Hu2 & H); [|done].
    exists (u1 ++ u2), s2. rewrite <- app_assoc. split; [done|]. split; [|done].
    by exists u1, u2.
  - apply andb_true_iff in Hfree as [H1 H2].
    destruct (run r1 s k) as [y|] eqn:Hy.
    + intros [= ->]. apply IH1 in Hy as (u & s' & -> & Hu & Hk); [|done].
      exists u, s'. split; [done|]. split; [by left|done].
    + intros (u & s' & -> & Hu & Hk)%IH2; [|done].
      exists u, s'. split; [done|]. split; [by right|done].
  - intros (us & s' & -> & Hus & Hk)%(iterate_sound (matches r)); [|by apply IH].
    exists (concat us), s'. split; [done|]. split; [|done]. by exists us.
Qed.

Lemma iterate_complete (P : str → Prop) step k :
  (∀ u s k', P u → is_Some (k' s) → is_Some (step (u ++ s) k')) →
  ∀ us n s, Forall P us → (length (concat us) ≤ n)%nat → is_Some (k s) →
    is_Some (iterate step k n (concat us ++ s)).
Proof.
  intros Hstep. induction us as [|u us IH]; intros n s Hus Hn Hk.
  - cbn [concat app]. destruct n as [|n]; cbn [iterate]; [done|].
    by destruct (step s _).
  - apply Forall_cons in Hus as [Hu Hus]. cbn [concat] in *.
    destruct u as [|c u]; [by apply IH|].
    rewrite length_app in Hn. cbn [length] in Hn.
    destruct n as [|n]; [lia|]. cbn [iterate].
    destruct (step _ _) as [y|] eqn:Hy; [done|].
    destruct (Hstep (c :: u) (concat us ++ s)
      (λ s', if (length s' <? length (((c :: u) ++ concat us) ++ s))%nat
             then iterate step k n s' else None)) as [y' Hy']; [done| |].
    + destruct (_ <? _)%nat eqn:Hlt.
      * apply IH; [done|lia|done].
      * apply Nat.ltb_ge in Hlt. rewrite !length_app in Hlt. cbn [length] in Hlt. lia.
    + rewrite (app_assoc (c :: u)) in Hy'. congruence.
Qed.

Lemma run_complete r : assertionFree r = true → ∀ u s k,
  matches r u → is_Some (k s) → is_Some (run r (u ++ s) k).
Proof.
  induction r as [c| | |r1 IH1 r2 IH2|r1 IH1 r2 IH2|r IH| |r IH];
    cbn [assertionFree]; intros Hfree u s k; cbn [run matches]; try done.
  - intros -> Hk. cbn. by rewrite N.eqb_refl.
  - intros (c & -> & Hc) Hk. cbn. by rewrite Hc.
  - by intros ->.
  - apply andb_true_iff in Hfree as [H1 H2].
    intros (u1 & u2 & -> & Hu1 & Hu2) Hk. rewrite <- app_assoc.
    apply IH1; [done..|]. by apply IH2.
  - apply andb_true_iff in Hfree as [H1 H2].
    intros [Hu|Hu] Hk.
    + destruct (IH1 H1 u s k Hu Hk) as [y ->]. done.
    + destruct (run r1 (u ++ s) k); [done|]. by apply IH2.
  - intros (us & -> & Hus) Hk.
    apply (iterate_complete (matches r)); [by apply IH | done | | done].
    rewrite length_app. lia.
Qed.

(** The match of an assertion-free pattern stands at the first occurrence
    of the text it matched. *)
Lemma search_first_occurrence r t m :
  assertionFree r = true → search r t 0 = Some m → atFirstOccurrence t m.
Proof.
  intros Hfree (n & rest & H1 & H2 & H3 & H4)%search_spec.
  unfold atFirstOccurrence. rewrite H1, Z.add_0_l. apply indexOf_first.
  - split; [lia|]. rewrite Nat2Z.id, H2. apply take_app_length.
  - intros j Hj [_ Hocc].
    apply run_sound in H3 as (u & s' & Hu & Hm & [= ->]); [|done].
    rewrite H2 in Hu. apply app_inv_tail in Hu as <-.
    apply take_prefix in Hocc as [rest' Hocc].
    destruct (run_complete r Hfree (m_0 m) rest' Some Hm) as [y Hy]; [done|].
    rewrite <- Hocc, H4 in Hy by lia. done.
Qed.

End RegexFacts.

(** ** What is seen of a call *)

Section Invocations.

Context {TextStyle : Type}.

Implicit Types (w : World TextStyle) (v src res : RichTextValue TextStyle).

Lemma effectOf_fuel fuel src startRe stopRe :
  (length (rtText src) < fuel)%nat →
  effectOf fuel src startRe stopRe
  = effectOf (S (length (rtText src))) src startRe stopRe.
Proof.
  intros Hfuel.
  assert (effectOf (S (length (rtText src))) src startRe stopRe ≠ Diverges) as Htot
    by (apply effectOf_total; lia).
  revert Htot. unfold effectOf. cbn zeta.
  destruct (str_match (rtText src) startRe) as [sm|]; [|done].
  destruct (while (S _) (leadingSpace _ _) _ _) as [s|] eqn:Hs; [|done].
  destruct (while (S _) (trailingSpace _ _) _ _) as [e|] eqn:He; [|done].
  intros _.
  apply (while_fuel_mono _ _ _ fuel) in Hs; [|lia].
  apply (while_fuel_mono _ _ _ fuel) in He; [|lia].
  by rewrite Hs, He.
Qed.

Lemma observe_applyEffect (eff : Effect TextStyle) w :
  observe (applyEffect eff w) = seenOf eff.
Proof.
  destruct eff as [|lines|lines res]; cbn; [done..|]. by rewrite lookup_insert_eq.
Qed.

(** What is seen of a call depends on the source and the patterns only. *)
Lemma observe_extract fuel richText startRe stopRe w src :
  heap w !! richText = Some (ObjRichText src) →
  (length (rtText src) < fuel)%nat →
  observe (extractRichTextSection_ fuel richText startRe stopRe w)
  = seenOf (effectOf (S (length (rtText src))) src startRe stopRe).
Proof.
  intros Hsrc Hfuel.
  by rewrite (extract_applyEffect _ _ _ _ _ _ Hsrc), observe_applyEffect, effectOf_fuel.
Qed.

Lemma extract_frame fuel richText startRe stopRe w w' :
  worldAfter (extractRichTextSection_ fuel richText startRe stopRe w) = Some w' →
  ∀ l o, heap w !! l = Some o → heap w' !! l = Some o.
Proof.
  destruct (extract_cases fuel richText startRe stopRe w) as [(src & Hsrc & Heq)|Heq];
    rewrite Heq.
  - destruct (applyEffect _ w) as [r w''|e w''|] eqn:Hrun; cbn; intros [= <-].
    + by eapply applyEffect_frame.
    + by destruct (effectOf fuel src startRe stopRe).
  - cbn. by intros [= <-].
Qed.

Lemma calls_frame w w' :
  calls w w' → ∀ l o, heap w !! l = Some o → heap w' !! l = Some o.
Proof.
  induction 1 as [|w w1 w2 fuel richText startRe stopRe _ IH Hcall]; [done|].
  intros l o Hl. eapply extract_frame; [done|]. by apply IH.
Qed.

(** Whatever calls are made in between, a later call on the same source
    is seen to do what the earlier one did. *)
Lemma later_call_same_result fuel richText startRe stopRe w w' src :
  heap w !! richText = Some (ObjRichText src) →
  (length (rtText src) < fuel)%nat →
  calls w w' →
  observe (extractRichTextSection_ fuel richText startRe stopRe w')
  = observe (extractRichTextSection_ fuel richText startRe stopRe w).
Proof.
  intros Hsrc Hfuel Hcalls.
  rewrite (observe_extract _ _ _ _ w src), (observe_extract _ _ _ _ w' src); try done.
  by apply (calls_frame w w').
Qed.

End Invocations.

(** ** Where the section lies *)

Section Position.

Context {TextStyle : Type}.

Implicit Types (w : World TextStyle) (v src res : RichTextValue TextStyle).

(** The raw slice starts after the first occurrence of the text the start
    pattern matched: after the match itself when the two coincide. *)
Lemma rawStart_after_match text sm :
  atFirstOccurrence text sm →
  rawStart text sm = m_index sm + js_length (m_0 sm).
Proof. unfold atFirstOccurrence, rawStart. by intros ->. Qed.

Lemma rawEnd_before_match text s0 stopRe sm :
  str_match (slice text s0) stopRe = Some sm →
  atFirstOccurrence (slice text s0) sm →
  rawEnd text s0 stopRe = s0 + m_index sm.
Proof. unfold atFirstOccurrence, rawEnd. cbn zeta. by intros -> ->. Qed.

(** For patterns without assertions, as all those of SECTIONS are, the
    raw slice runs from the end of the first match of the start pattern
    to the first match of the stop pattern in what follows. *)
Lemma rawSlice_assertionFree text (p1 p2 : str) r1 r2 sm :
  Regex.assertionFree r1 = true → Regex.assertionFree r2 = true →
  str_match text (Regex.compile p1 r1) = Some sm →
  let s0 := m_index sm + js_length (m_0 sm) in
  rawStart text sm = s0
  ∧ ∀ sm', str_match (slice text s0) (Regex.compile p2 r2) = Some sm' →
      rawEnd text s0 (Regex.compile p2 r2) = s0 + m_index sm'.
Proof.
  intros H1 H2 Hsm. cbn zeta. split.
  - apply rawStart_after_match. by apply (RegexFacts.search_first_occurrence r1).
  - intros sm' Hsm'. apply rawEnd_before_match; [done|].
    by apply (RegexFacts.search_first_occurrence r2).
Qed.

(** When the stop pattern has no match after the raw start, the text of
    the result is the rest of the source from there on, trimmed. *)
Lemma no_stop_text_is_rest_trimmed fuel richText startRe stopRe w src l w' sm :
  heap w !! richText = Some (ObjRichText src) →
  extractRichTextSection_ fuel richText startRe stopRe w = Done (Some l) w' →
  str_match (rtText src) startRe = Some sm →
  str_match (slice (rtText src) (rawStart (rtText src) sm)) stopRe = None →
  ∃ res, heap w' !! l = Some (ObjRichText res)
    ∧ rtText res = trim (drop (Z.to_nat (rawStart (rtText src) sm)) (rtText src)).
Proof.
  intros Hsrc Hrun Hsm Hstop.
  destruct (extract_Some _ _ _ _ _ _ _ _ Hsrc Hrun)
    as (sm' & s & e & Hsm' & Htrim & Hcon & Hnew & Hl).
  assert (sm' = sm) as -> by congruence.
  eexists. split; [exact Hl|]. rewrite fold_copied_text. cbn [rtText].
  rewrite (trimmedSlice_trim _ _ _ _ _ Htrim).
  assert (rawEnd (rtText src) (rawStart (rtText src) sm) stopRe = js_length (rtText src))
    as He0 by (unfold rawEnd; cbn zeta; by rewrite Hstop).
  rewrite He0 in *. destruct Htrim as (H1 & H2 & H3 & H4 & _).
  by rewrite substring_to_end by lia.
Qed.

End Position.

(** ** The claims *)

Section Claims.

Context {TextStyle : Type}.

Implicit Types (w : World TextStyle) (v src res : RichTextValue TextStyle).


(** C3, amended. In a source whose runs do not overlap, a run that lies
    inside the trimmed range [s, e) the routine reports, and whose link
    is absent or a non-empty string, is found in the result with its
    style and link, its two offsets lowered by [s]. *)
Theorem C3_run_inside_is_rebased fuel richText startRe stopRe w src l w' :
  heap w !! richText = Some (ObjRichText src) →
  extractRichTextSection_ fuel richText startRe stopRe w = Done (Some l) w' →
  nonOverlapping (rtRuns src) = true →
  ∃ s e res,
    last (console w') = Some (LogTrimmedSlice s e)
    ∧ heap w' !! l = Some (ObjRichText res)
    ∧ ∀ r, r ∈ rtRuns src →
        s <= runStart r → runStart r < runEnd r → runEnd r <= e →
        runLink r ≠ Some [] →
        rebased s r ∈ rtRuns res.
Proof.
  intros Hsrc Hrun Hno.
  destruct (extract_Some _ _ _ _ _ _ _ _ Hsrc Hrun)
    as (sm & s & e & Hsm & Htrim & Hcon & Hnew & Hl).
  eexists s, e, _. split; [|split; [exact Hl|]].
  { rewrite Hcon. apply last_console. }
  intros r Hr H1 H2 H3 Hlink.
  rewrite fold_copied_runs by (done || by apply Forall_nil).
  cbn [rtRuns app]. apply elem_of_flat_map. exists r. split; [done|].
  rewrite emitted_inside by done. by apply list_elem_of_singleton.
Qed.

(** C4. The runs of the result are, in order, the portions of the source
    runs inside the trimmed range [s, e) the routine reports: a run whose
    portion is not empty gives one run of the result, over that portion
    lowered by [s] and with its style; any other run gives none. *)
Theorem C4_runs_are_the_clipped_runs fuel richText startRe stopRe w src l w' :
  heap w !! richText = Some (ObjRichText src) →
  extractRichTextSection_ fuel richText startRe stopRe w = Done (Some l) w' →
  ∃ s e res,
    last (console w') = Some (LogTrimmedSlice s e)
    ∧ heap w' !! l = Some (ObjRichText res)
    ∧ extent <$> rtRuns res = flat_map (clipped s e) (rtRuns src).
Proof.
  intros Hsrc Hrun.
  destruct (extract_Some _ _ _ _ _ _ _ _ Hsrc Hrun)
    as (sm & s & e & Hsm & Htrim & Hcon & Hnew & Hl).
  eexists s, e, _. split; [|split; [exact Hl|]].
  { rewrite Hcon. apply last_console. }
  by rewrite fold_copied_extents.
Qed.

(** C6. Every run of a result lies in the text of the result and is not
    empty; the runs of the result are sorted by start offset when those
    of the source are, and do not overlap when those of the source do
    not. *)
Theorem C6_result_runs_well_formed fuel richText startRe stopRe w src l w' :
  heap w !! richText = Some (ObjRichText src) →
  extractRichTextSection_ fuel richText startRe stopRe w = Done (Some l) w' →
  ∃ res,
    heap w' !! l = Some (ObjRichText res)
    ∧ Forall (runInText (js_length (rtText res))) (rtRuns res)
    ∧ (sortedByStart (rtRuns src) = true → sortedByStart (rtRuns res) = true)
    ∧ (nonOverlapping (rtRuns src) = true → nonOverlapping (rtRuns res) = true).
Proof.
  intros Hsrc Hrun.
  destruct (extract_Some _ _ _ _ _ _ _ _ Hsrc Hrun)
    as (sm & s & e & Hsm & Htrim & Hcon & Hnew & Hl).
  eexists. split; [exact Hl|].
  split; [|split; [apply copied_sortedByStart | apply copied_nonOverlapping]].
  rewrite fold_copied_text. cbn [rtText].
  destruct Htrim as (H1 & H2 & H3 & H4 & H5 & _).
  rewrite substring_length by lia.
  apply Forall_forall. intros r Hr.
  assert (extent r ∈ extent <$> rtRuns (fold_left (copied s e) (rtRuns src)
            {| rtText := substring (rtText src) s e; rtRuns := [] |})) as Hx
    by (by apply list_elem_of_fmap_2).
  rewrite fold_copied_extents in Hx. cbn [rtRuns fmap list_fmap app] in Hx.
  apply elem_of_flat_map in Hx as (r0 & _ & Hx).
  apply clipped_bounds in Hx. unfold extent in Hx. cbn in Hx. unfold runInText. lia.
Qed.



(** C9. With a budget above the length of the text no loop of the routine
    runs out of it, on any input. Each round of the first trimming loop
    moves [startIdx] one position towards [endIdx] without passing it,
    and each round of the second moves [endIdx] one position towards
    [startIdx] without passing it; so a loop entered with
    [startIdx <= endIdx] is left with [startIdx <= endIdx], inside the
    interval it was entered with. *)
Theorem C9_terminates fuel richText startRe stopRe w :
  (∀ src, heap w !! richText = Some (ObjRichText src) →
     (length (rtText src) < fuel)%nat) →
  extractRichTextSection_ fuel richText startRe stopRe w ≠ OutOfFuel
  ∧ (∀ text endIdx startIdx, leadingSpace text endIdx startIdx = true →
       0 <= endIdx - (startIdx + 1) < endIdx - startIdx)
  ∧ (∀ text startIdx endIdx, trailingSpace text startIdx endIdx = true →
       0 <= (endIdx - 1) - startIdx < endIdx - startIdx)
  ∧ (∀ n text startIdx endIdx startIdx',
       while n (leadingSpace text endIdx) (λ i, i + 1) startIdx = Some startIdx' →
       startIdx <= endIdx → startIdx <= startIdx' <= endIdx)
  ∧ (∀ n text startIdx endIdx endIdx',
       while n (trailingSpace text startIdx) (λ i, i - 1) endIdx = Some endIdx' →
       startIdx <= endIdx → startIdx <= endIdx' <= endIdx).
Proof.
  intros Hfuel.
  split; [|split; [apply leadingSpace_shrinks|split; [apply trailingSpace_shrinks|split]]].
  - destruct (extract_cases fuel richText startRe stopRe w) as [(src & Hsrc & Heq)|Heq];
      rewrite Heq; [|done].
    pose proof (effectOf_total fuel src startRe stopRe (Hfuel src Hsrc)) as Htot.
    by destruct (effectOf fuel src startRe stopRe).
  - intros n text s0 e0 s (H1 & H2 & _)%leading_result Hle. lia.
  - intros n text s e0 e (H1 & H2 & _)%trailing_result Hle. lia.
Qed.

(** C10. The text of a result is a piece of the source text, is not
    empty, and neither begins nor ends with white space. *)
Theorem C10_result_text_trimmed fuel richText startRe stopRe w src l w' :
  heap w !! richText = Some (ObjRichText src) →
  extractRichTextSection_ fuel richText startRe stopRe w = Done (Some l) w' →
  ∃ res,
    heap w' !! l = Some (ObjRichText res)
    ∧ rtText res ≠ []
    ∧ (∃ c, head (rtText res) = Some c ∧ isWhiteSpace c = false)
    ∧ (∃ c, last (rtText res) = Some c ∧ isWhiteSpace c = false)
    ∧ ∃ before after, rtText src = before ++ rtText res ++ after.
Proof.
  intros Hsrc Hrun.
  destruct (extract_Some _ _ _ _ _ _ _ _ Hsrc Hrun)
    as (sm & s & e & Hsm & Htrim & Hcon & Hnew & Hl).
  eexists. split; [exact Hl|]. rewrite fold_copied_text. cbn [rtText].
  destruct Htrim as (H1 & H2 & H3 & H4 & H5 & _ & _ & H8 & H9).
  pose proof (substring_length (rtText src) s e ltac:(lia) ltac:(lia) ltac:(lia)) as Hlen.
  assert (∀ i, 0 <= i < e - s → test_ws (charAt (rtText src) (s + i)) = false →
            ∃ c, charAt (substring (rtText src) s e) i = Some c ∧ isWhiteSpace c = false)
    as Hchar.
  { intros i Hi Hws. rewrite substring_charAt by lia.
    destruct (charAt (rtText src) (s + i)) as [c|] eqn:Hc; [by exists c|].
    unfold charAt in Hc. destruct (_ <? 0) eqn:?; [lia|].
    apply lookup_ge_None in Hc. unfold js_length in *. lia. }
  split; [|split; [|split]].
  - intros Hnil. rewrite Hnil in Hlen. unfold js_length in Hlen. cbn in Hlen. lia.
  - rewrite <- charAt_head. apply Hchar; [lia|]. by rewrite Z.add_0_r.
  - rewrite <- charAt_last, Hlen. apply Hchar; [lia|].
    by replace (s + (e - s - 1)) with (e - 1) by lia.
  - eexists _, _. apply substring_split; lia.
Qed.

End Claims.

(** ** The routine on concrete inputs *)

Module Checks.

Import Regex Examples.

(** The engine on small cases: the leftmost match, a greedy star that
    gives back what the rest of the pattern needs, alternatives in order,
    and the two assertions. *)
Example engine_leftmost :
  search (Seq (Star Space) (Chr 120)) (codeUnits "a   x") 0
  = Some {| m_index := 1; m_0 := codeUnits "   x" |}.
Proof. vm_compute. reflexivity. Qed.

Example engine_star_backtracks :
  search (Seq (Star (Chr 97)) (Lit (codeUnits "ab"))) (codeUnits "xaaab") 0
  = Some {| m_index := 1; m_0 := codeUnits "aaab" |}.
Proof. vm_compute. reflexivity. Qed.

Example engine_alternatives :
  search (Seq (Alt (Chr 97) (Lit (codeUnits "ab"))) (Chr 99)) (codeUnits "abc") 0
  = Some {| m_index := 0; m_0 := codeUnits "abc" |}.
Proof. vm_compute. reflexivity. Qed.

Example engine_end_of_input :
  search (Seq (Chr 97) Eoi) (codeUnits "a b a") 0
  = Some {| m_index := 4; m_0 := codeUnits "a" |}.
Proof. vm_compute. reflexivity. Qed.

Example engine_look_ahead :
  search (Seq (Chr 97) (Ahead (Chr 98))) (codeUnits "acab") 0
  = Some {| m_index := 2; m_0 := codeUnits "a" |}.
Proof. vm_compute. reflexivity. Qed.

(** The scenario of the specification: the Appraiser section of the
    sheet is "Call John at 555-1234.", with the link on the number. *)
Example appraiser_section :
  observe appraiserCall
  = SeesValue
      {| rtText := codeUnits "Call John at 555-1234.";
         rtRuns :=
           [ {| runStart := 0; runEnd := 13; runStyle := Regular; runLink := None |};
             {| runStart := 13; runEnd := 21; runStyle := Italic;
                runLink := Some (codeUnits "tel:555-1234") |};
             {| runStart := 21; runEnd := 22; runStyle := Regular; runLink := None |} ] |}.
Proof. vm_compute. reflexivity. Qed.

Example missing_marker :
  observe (extractRichTextSection_ 60 1%positive utilitiesRe taxesRe sheet) = SeesNull.
Proof. vm_compute. reflexivity. Qed.

(** A start marker without the stop marker after it: the section runs to
    the end of the text. *)
Example no_stop_marker :
  observe (extractRichTextSection_ 60 1%positive taxesRe utilitiesRe sheet)
  = SeesValue
      {| rtText := codeUnits "...";
         rtRuns := [ {| runStart := 0; runEnd := 3; runStyle := Regular;
                        runLink := None |} ] |}.
Proof. vm_compute. reflexivity. Qed.

(** Without a budget the first loop gives no answer. *)
Example no_budget :
  extractRichTextSection_ 0 1%positive appraiserRe taxesRe sheet = OutOfFuel.
Proof. vm_compute. reflexivity. Qed.

(** A reference that holds no rich text value: the call throws. *)
Example bad_reference :
  extractRichTextSection_ 60 2%positive appraiserRe taxesRe sheet
  = Throw TypeError sheet.
Proof. vm_compute. reflexivity. Qed.


(** C1, on the text "a b a" with start pattern [/a$/]: the first match of
    the pattern is the last character, at index 4, so that nothing
    follows it; the routine takes the raw slice from index 1 on, after
    the first "a" of the text, and returns "b a". *)
Theorem C1_start_is_after_first_occurrence_of_matched_text :
  str_match (codeUnits "a b a") aAtEndRe
    = Some {| m_index := 4; m_0 := codeUnits "a" |}
  ∧ ∃ l w',
      extractRichTextSection_ 10 1%positive aAtEndRe zRe (holding (plain "a b a"))
        = Done (Some l) w'
      ∧ console w'
        = [LogSearchStart (codeUnits "/a$/"); LogMatchResult (Some (codeUnits "a"));
           LogSearchStop (codeUnits "/z/"); LogMatchResult None;
           LogRawSlice 1 5; LogTrimmedSlice 2 5]
      ∧ heap w' !! l = Some (ObjRichText (plain "b a")).
Proof.
  split; [vm_compute; reflexivity|].
  eexists _, _. split; [vm_compute; reflexivity|]. split; vm_compute; reflexivity.
Qed.

(** The same for the stop pattern: on "x: a b a" with [/x:/] and [/a$/]
    the stop pattern matches the last character of what follows the
    start marker, but the raw slice ends before the first "a", and the
    routine returns [null]. *)
Lemma stop_is_before_first_occurrence_of_matched_text :
  str_match (slice (codeUnits "x: a b a") 2) aAtEndRe
    = Some {| m_index := 5; m_0 := codeUnits "a" |}
  ∧ ∃ w',
      extractRichTextSection_ 10 1%positive
        (compile (codeUnits "/x:/") (Lit (codeUnits "x:"))) aAtEndRe
        (holding (plain "x: a b a"))
        = Done None w'
      ∧ LogRawSlice 2 3 ∈ console w'.
Proof.
  split; [vm_compute; reflexivity|].
  eexists. split; [vm_compute; reflexivity|].
  do 4 apply list_elem_of_further. apply list_elem_of_here.
Qed.

(** C5, on the text "a b a c" with start pattern [/a(?= c)/] and stop
    pattern [/z/]: the start pattern matches at index 4, the stop pattern
    has no match in " c", which trimmed is "c"; the routine returns
    "b a c". *)
Theorem C5_rest_is_taken_after_first_occurrence_of_matched_text :
  str_match (codeUnits "a b a c") aBeforeCRe
    = Some {| m_index := 4; m_0 := codeUnits "a" |}
  ∧ str_match (slice (codeUnits "a b a c") 5) zRe = None
  ∧ trim (slice (codeUnits "a b a c") 5) = codeUnits "c"
  ∧ ∃ l w',
      extractRichTextSection_ 10 1%positive aBeforeCRe zRe (holding (plain "a b a c"))
        = Done (Some l) w'
      ∧ heap w' !! l = Some (ObjRichText (plain "b a c")).
Proof.
  split; [vm_compute; reflexivity|]. split; [vm_compute; reflexivity|].
  split; [vm_compute; reflexivity|].
  eexists _, _. split; vm_compute; reflexivity.
Qed.

(** C3 as stated fails on a run whose link is the empty string: the run
    over "bc" of "a: bc" lies inside the trimmed range [3, 5), and the
    only run of the result has no link. *)
Lemma C3_counterexample_empty_link :
  ∃ l w',
    extractRichTextSection_ 10 1%positive aColonRe zRe (holding emptyLinkEntry)
      = Done (Some l) w'
    ∧ last (console w') = Some (LogTrimmedSlice 3 5)
    ∧ heap w' !! l
      = Some (ObjRichText
                {| rtText := codeUnits "bc";
                   rtRuns := [ {| runStart := 0; runEnd := 2; runStyle := Bold;
                                  runLink := None |} ] |})
    ∧ nonOverlapping (rtRuns emptyLinkEntry) = true
    ∧ emptyLinkRun ∈ rtRuns emptyLinkEntry
    ∧ 3 <= runStart emptyLinkRun
    ∧ runStart emptyLinkRun < runEnd emptyLinkRun
    ∧ runEnd emptyLinkRun <= 5
    ∧ rebased 3 emptyLinkRun
      ∉ [ {| runStart := 0; runEnd := 2; runStyle := Bold; runLink := None |} ].
Proof.
  eexists _, _. split; [vm_compute; reflexivity|].
  split; [vm_compute; reflexivity|]. split; [vm_compute; reflexivity|].
  split; [reflexivity|]. split; [apply list_elem_of_here|].
  split; [done|]. split; [done|]. split; [done|].
  intros H%list_elem_of_singleton. discriminate H.
Qed.


End Checks.

(** ** The theorems at the sheet of the examples *)

Module Witnesses.

Import Regex Examples Checks.

(** The theorems with hypotheses, at the call for the Appraiser section
    of the sheet. *)


Lemma C3_witness :
  heap sheet !! 1%positive = Some (ObjRichText rolodexEntry)
  ∧ appraiserCall = Done (Some 3%positive) sheetAfter
  ∧ nonOverlapping (rtRuns rolodexEntry) = true
  ∧ ∃ s e res,
      last (console sheetAfter) = Some (LogTrimmedSlice s e)
      ∧ heap sheetAfter !! 3%positive = Some (ObjRichText res)
      ∧ ∀ r, r ∈ rtRuns rolodexEntry →
          s <= runStart r → runStart r < runEnd r → runEnd r <= e →
          runLink r ≠ Some [] →
          rebased s r ∈ rtRuns res.
Proof.
  split; [reflexivity|]. split; [vm_compute; reflexivity|]. split; [reflexivity|].
  apply (C3_run_inside_is_rebased 60 1%positive appraiserRe taxesRe sheet
           rolodexEntry 3%positive sheetAfter);
    [reflexivity | vm_compute; reflexivity | reflexivity].
Defined.

Lemma C4_witness :
  heap sheet !! 1%positive = Some (ObjRichText rolodexEntry)
  ∧ appraiserCall = Done (Some 3%positive) sheetAfter
  ∧ ∃ s e res,
      last (console sheetAfter) = Some (LogTrimmedSlice s e)
      ∧ heap sheetAfter !! 3%positive = Some (ObjRichText res)
      ∧ extent <$> rtRuns res = flat_map (clipped s e) (rtRuns rolodexEntry).
Proof.
  split; [reflexivity|]. split; [vm_compute; reflexivity|].
  apply (C4_runs_are_the_clipped_runs 60 1%positive appraiserRe taxesRe sheet
           rolodexEntry 3%positive sheetAfter);
    [reflexivity | vm_compute; reflexivity].
Defined.

Lemma C6_witness :
  heap sheet !! 1%positive = Some (ObjRichText rolodexEntry)
  ∧ appraiserCall = Done (Some 3%positive) sheetAfter
  ∧ ∃ res,
      heap sheetAfter !! 3%positive = Some (ObjRichText res)
      ∧ Forall (runInText (js_length (rtText res))) (rtRuns res)
      ∧ (sortedByStart (rtRuns rolodexEntry) = true → sortedByStart (rtRuns res) = true)
      ∧ (nonOverlapping (rtRuns rolodexEntry) = true →
           nonOverlapping (rtRuns res) = true).
Proof.
  split; [reflexivity|]. split; [vm_compute; reflexivity|].
  apply (C6_result_runs_well_formed 60 1%positive appraiserRe taxesRe sheet
           rolodexEntry 3%positive sheetAfter);
    [reflexivity | vm_compute; reflexivity].
Defined.



Lemma C9_witness :
  extractRichTextSection_ 60 1%positive appraiserRe taxesRe sheet ≠ OutOfFuel
  ∧ (∀ text endIdx startIdx, leadingSpace text endIdx startIdx = true →
       0 <= endIdx - (startIdx + 1) < endIdx - startIdx)
  ∧ (∀ text startIdx endIdx, trailingSpace text startIdx endIdx = true →
       0 <= (endIdx - 1) - startIdx < endIdx - startIdx)
  ∧ (∀ n text startIdx endIdx startIdx',
       while n (leadingSpace text endIdx) (λ i, i + 1) startIdx = Some startIdx' →
       startIdx <= endIdx → startIdx <= startIdx' <= endIdx)
  ∧ (∀ n text startIdx endIdx endIdx',
       while n (trailingSpace text startIdx) (λ i, i - 1) endIdx = Some endIdx' →
       startIdx <= endIdx → startIdx <= endIdx' <= endIdx).
Proof.
  apply (C9_terminates 60 1%positive appraiserRe taxesRe sheet).
  intros src H. vm_compute in H. injection H as <-. vm_compute. lia.
Defined.

Lemma C10_witness :
  heap sheet !! 1%positive = Some (ObjRichText rolodexEntry)
  ∧ appraiserCall = Done (Some 3%positive) sheetAfter
  ∧ ∃ res,
      heap sheetAfter !! 3%positive = Some (ObjRichText res)
      ∧ rtText res ≠ []
      ∧ (∃ c, head (rtText res) = Some c ∧ isWhiteSpace c = false)
      ∧ (∃ c, last (rtText res) = Some c ∧ isWhiteSpace c = false)
      ∧ ∃ before after, rtText rolodexEntry = before ++ rtText res ++ after.
Proof.
  split; [reflexivity|]. split; [vm_compute; reflexivity|].
  apply (C10_result_text_trimmed 60 1%positive appraiserRe taxesRe sheet
           rolodexEntry 3%positive sheetAfter);
    [reflexivity | vm_compute; reflexivity].
Defined.

End Witnesses.

(** * Properties of the script around the extractor *)

Module ScriptFacts.

Import Script.

(** ** Running a script *)

Section Running.

Context {TextStyle : Type}.

Implicit Types (s : App TextStyle).

Lemma bind_Ret {A B : Type} (m : Script TextStyle A) (f : A → Script TextStyle B)
    s a s' :
  m s = Ret a s' → (m ≫= f) s = f a s'.
Proof. unfold mbind, Script_bind. by intros ->. Qed.

Lemma bind_Raise {A B : Type} (m : Script TextStyle A)
    (f : A → Script TextStyle B) s e s' :
  m s = Raise e s' → (m ≫= f) s = Raise e s'.
Proof. unfold mbind, Script_bind. by intros ->. Qed.

Lemma bind_Starved {A B : Type} (m : Script TextStyle A)
    (f : A → Script TextStyle B) s :
  m s = Starved → (m ≫= f) s = Starved.
Proof. unfold mbind, Script_bind. by intros ->. Qed.

Lemma bind_run {A B : Type} (m : Script TextStyle A)
    (f : A → Script TextStyle B) s :
  (m ≫= f) s = match m s with
               | Ret a s' => f a s'
               | Raise e s' => Raise e s'
               | Starved => Starved
               end.
Proof. done. Qed.

Lemma try_Ret {A : Type} (m : Script TextStyle A) h s a s' :
  m s = Ret a s' → try_catch m h s = Ret a s'.
Proof. unfold try_catch. by intros ->. Qed.

Lemma try_Raise {A : Type} (m : Script TextStyle A) h s e s' :
  m s = Raise e s' → try_catch m h s = h e s'.
Proof. unfold try_catch. by intros ->. Qed.

End Running.

(** ** The last row of a sheet *)

Section LastRow.

Context {TextStyle : Type}.

Implicit Types (cells : Sheet TextStyle).

Lemma lastRow_nonneg cells : 0 <= lastRow cells.
Proof.
  unfold lastRow. induction (map_to_list cells) as [|kv l IH]; cbn; lia.
Qed.

Lemma lastRow_bounds cells k c : cells !! k = Some c → k.1 <= lastRow cells.
Proof.
  intros Hk. apply (elem_of_map_to_list (M:=gmap (Z * Z))) in Hk.
  unfold lastRow.
  revert Hk. generalize (map_to_list cells). intros l.
  induction l as [|kv l IH]; [by intros ?%elem_of_nil|].
  intros [<-|Hin]%elem_of_cons; cbn [foldr fst]; [lia|].
  specialize (IH Hin). lia.
Qed.

Lemma lastRow_empty : lastRow (∅ : Sheet TextStyle) = 0.
Proof. unfold lastRow. by rewrite map_to_list_empty. Qed.

(** Below the last row the sheet is empty. *)
Lemma below_lastRow cells row column :
  lastRow cells < row → cells !! (row, column) = None.
Proof.
  intros Hrow. destruct (cells !! (row, column)) as [c|] eqn:Hc; [|done].
  apply lastRow_bounds in Hc. cbn in Hc. lia.
Qed.

End LastRow.

(** ** The search of a column *)

Section Search.

Context {TextStyle : Type}.

Context (toUpperCase : str → str).

Implicit Types (s : App TextStyle) (cells : Sheet TextStyle).

Lemma findRow_spec values u i r :
  findRow toUpperCase values u i = r →
  (r = -1 ∧ ∀ j row, values !! j = Some row → ¬ hit toUpperCase u row)
  ∨ ∃ j row, r = i + Z.of_nat j + 1 ∧ values !! j = Some row ∧ hit toUpperCase u row
      ∧ ∀ j' row', (j' < j)%nat → values !! j' = Some row' → ¬ hit toUpperCase u row'.
Proof.
  revert i r. induction values as [|row values IH]; intros i r; cbn [findRow].
  { intros <-. left. split; [done|]. by intros j row' ?. }
  assert (¬ hit toUpperCase u row →
    findRow toUpperCase values u (i + 1) = r →
    (r = -1 ∧ ∀ j row0, (row :: values) !! j = Some row0 → ¬ hit toUpperCase u row0)
    ∨ ∃ j row0, r = i + Z.of_nat j + 1 ∧ (row :: values) !! j = Some row0
        ∧ hit toUpperCase u row0
        ∧ ∀ j' row', (j' < j)%nat → (row :: values) !! j' = Some row'
            → ¬ hit toUpperCase u row') as Hnext.
  { intros Hno Hr. destruct (IH _ _ Hr) as [[-> Hall]|(j & row0 & -> & Hj & Hhit & Hmin)].
    - left. split; [done|]. intros [|j] row0; cbn; [by intros [= <-]|apply Hall].
    - right. exists (S j), row0. split; [lia|]. split; [done|]. split; [done|].
      intros [|j'] row'; cbn; [by intros _ [= <-]|].
      intros ?. apply Hmin. lia. }
  destruct (row !! 0%nat) as [[|c v]|] eqn:Hrow.
  - apply Hnext. intros (c & v & Heq & _). by rewrite Hrow in Heq.
  - case_bool_decide as Hu.
    + intros <-. right. exists 0%nat, row. split; [lia|]. split; [done|].
      split; [by exists c, v|]. intros j' row' ?. lia.
    + apply Hnext. intros (c' & v' & Heq & ?). rewrite Hrow in Heq.
      by injection Heq as <- <-.
  - apply Hnext. intros (c & v & Heq & _). by rewrite Hrow in Heq.
Qed.

(** The values of column [colNum] down to the last row. *)
Lemma column_values cells colNum (j : nat) :
  ((λ row, (λ column, displayOf (cells !! (row, column))) <$> seqZ colNum 1)
     <$> seqZ 1 (lastRow cells)) !! j
  = if decide (Z.of_nat j < lastRow cells)
    then Some [displayOf (cells !! (1 + Z.of_nat j, colNum))]
    else None.
Proof.
  rewrite list_lookup_fmap. case_decide as Hj.
  - by rewrite lookup_seqZ_lt by done.
  - by rewrite lookup_seqZ_ge by lia.
Qed.

Lemma hit_rowMatches cells colNum searchTerm row :
  hit toUpperCase (toUpperCase searchTerm) [displayOf (cells !! (row, colNum))]
  ↔ rowMatches toUpperCase cells colNum searchTerm row.
Proof.
  unfold hit, rowMatches. generalize (displayOf (cells !! (row, colNum))).
  intros d. split.
  - intros (c & v & Heq & Hu). cbn in Heq. injection Heq as ->. by rewrite Hu.
  - intros [Hne Hu]. destruct d as [|c v]; [done|]. by exists c, v.
Qed.

(** On a sheet that holds a value the search completes, leaves the state
    as it is, and returns what the loop finds in the column. *)
Lemma findRowInSheet_Ret sheet searchTerm colNum s cells :
  sheetAt sheet s = Some cells → 1 <= colNum → 1 <= lastRow cells →
  findRowInSheet_ toUpperCase sheet searchTerm colNum s
  = Ret (findRow toUpperCase
           ((λ row, (λ column, displayOf (cells !! (row, column)))
                      <$> seqZ colNum 1) <$> seqZ 1 (lastRow cells))
           (toUpperCase searchTerm) 0) s.
Proof.
  intros Hsheet Hcol Hlast. unfold findRowInSheet_, getLastRow.
  assert (readSheet sheet s = Ret cells s) as Hread
    by (unfold readSheet; by rewrite Hsheet).
  erewrite bind_Ret; [|erewrite bind_Ret by exact Hread; reflexivity].
  erewrite bind_Ret; cycle 1.
  { unfold getRange.
    destruct (Z.leb_spec 1 colNum); [|lia].
    destruct (Z.leb_spec 1 (lastRow cells)); [|lia]. reflexivity. }
  unfold getDisplayValues. cbn [rangeSheet rangeRect top left numRows numColumns].
  erewrite bind_Ret; [|erewrite bind_Ret by exact Hread; reflexivity].
  reflexivity.
Qed.

Lemma findRowInSheet_result sheet searchTerm colNum s cells :
  sheetAt sheet s = Some cells → 1 <= colNum → 1 <= lastRow cells →
  ∃ r,
    findRowInSheet_ toUpperCase sheet searchTerm colNum s = Ret r s
    ∧ ((r = -1 ∧ ∀ row, 1 <= row →
                   ¬ rowMatches toUpperCase cells colNum searchTerm row)
       ∨ (1 <= r <= lastRow cells
          ∧ rowMatches toUpperCase cells colNum searchTerm r
          ∧ ∀ row, 1 <= row < r →
              ¬ rowMatches toUpperCase cells colNum searchTerm row)).
Proof.
  intros Hsheet Hcol Hlast. eexists. split; [by apply findRowInSheet_Ret|].
  match goal with |- context [findRow ?f ?vs ?u ?i] =>
    destruct (findRow_spec vs u i _ eq_refl)
      as [[Hr Hall]|(j & row0 & Hr & Hj & Hhit & Hmin)]; rewrite Hr end.
  - left. split; [done|]. intros row Hrow Hm.
    destruct (decide (row <= lastRow cells)) as [Hle|Hgt].
    + apply (Hall (Z.to_nat (row - 1)) [displayOf (cells !! (row, colNum))]).
      * rewrite column_values, decide_True by lia.
        by replace (1 + Z.of_nat (Z.to_nat (row - 1))) with row by lia.
      * by apply hit_rowMatches.
    + destruct Hm as [Hne _]. by rewrite below_lastRow in Hne by lia.
  - right. rewrite column_values in Hj. case_decide as Hlt; [|done].
    injection Hj as <-. apply hit_rowMatches in Hhit.
    replace (0 + Z.of_nat j + 1) with (1 + Z.of_nat j) by lia.
    split; [lia|]. split; [done|]. intros row Hrow Hm.
    apply (Hmin (Z.to_nat (row - 1)) [displayOf (cells !! (row, colNum))]); [lia| |].
    + rewrite column_values, decide_True by lia.
        by replace (1 + Z.of_nat (Z.to_nat (row - 1))) with row by lia.
    + by apply hit_rowMatches.
Qed.

(** The search of a sheet that holds no value: [getRange] is called
    with no rows, which the host refuses. *)
Lemma findRowInSheet_empty sheet searchTerm colNum s cells :
  sheetAt sheet s = Some cells → lastRow cells = 0 →
  findRowInSheet_ toUpperCase sheet searchTerm colNum s = Raise RangeRefused s.
Proof.
  intros Hsheet Hlast. unfold findRowInSheet_, getLastRow.
  assert (readSheet sheet s = Ret cells s) as Hread
    by (unfold readSheet; by rewrite Hsheet).
  erewrite bind_Ret; [|erewrite bind_Ret by exact Hread; reflexivity].
  apply bind_Raise. unfold getRange. rewrite Hlast.
  by rewrite !andb_false_r.
Qed.

End Search.

(** ** Cells *)

Section Cells.

Context {TextStyle : Type}.

Implicit Types (s : App TextStyle) (cells : Sheet TextStyle).

Lemma elem_of_cellsOf r k : k ∈ cellsOf r ↔ inRect r k = true.
Proof.
  unfold cellsOf, inRect. rewrite list_elem_of_bind.
  setoid_rewrite elem_of_seqZ. setoid_rewrite list_elem_of_fmap.
  setoid_rewrite elem_of_seqZ.
  destruct k as [row column]. cbn [fst snd].
  rewrite !andb_true_iff, !Z.leb_le, !Z.ltb_lt. split.
  - intros (row' & (column' & [= -> ->] & ?) & ?). lia.
  - intros ?. exists row. split; [exists column|]; split; try done; lia.
Qed.

Lemma lookup_clearCells r cells k :
  clearCells r cells !! k = if inRect r k then None else cells !! k.
Proof.
  unfold clearCells. destruct (inRect r k) eqn:Hin.
  - apply map_lookup_filter_None. right. intros c _. cbn. by rewrite Hin.
  - destruct (cells !! k) as [c|] eqn:Hk.
    + by apply map_lookup_filter_Some.
    + apply map_lookup_filter_None. by left.
Qed.

Lemma lookup_setCells r c cells k :
  setCells r c cells !! k = if inRect r k then Some c else cells !! k.
Proof.
  unfold setCells. pose proof (elem_of_cellsOf r k) as Hk. revert Hk.
  generalize (cellsOf r). intros l. revert k.
  induction l as [|k' l IH]; intros k Hk; cbn [foldr].
  - destruct (inRect r k); [|done]. by apply proj2, elem_of_nil in Hk.
  - destruct (decide (k = k')) as [->|Hne].
    + rewrite lookup_insert_eq. destruct (inRect r k'); [done|].
      apply proj1 in Hk. exfalso; by specialize (Hk (proj2 (elem_of_cons _ _ _) (or_introl eq_refl))).
    + rewrite lookup_insert_ne by done.
      destruct (decide (k ∈ l)) as [Hl|Hl].
      * assert (inRect r k = true) as Hin by (apply Hk; by right).
        rewrite Hin. clear IH Hk Hin. induction l as [|k'' l IH]; [by apply elem_of_nil in Hl|].
        cbn [foldr]. destruct (decide (k = k'')) as [->|Hne'].
        -- by rewrite lookup_insert_eq.
        -- rewrite lookup_insert_ne by done. apply IH.
           apply elem_of_cons in Hl as [|]; done.
      * assert (inRect r k = false) as Hin.
        { destruct (inRect r k); [|done]. apply proj2 in Hk.
          specialize (Hk eq_refl). apply elem_of_cons in Hk as [|]; done. }
        rewrite Hin. clear IH Hk Hin. induction l as [|k'' l IH]; [done|].
        cbn [foldr]. rewrite lookup_insert_ne by (intros ->; apply Hl; by left).
        apply IH. intros ?. apply Hl. by right.
Qed.

(** Writing a sheet. *)
Lemma sheetAt_insert sheet cells' s book sheet' :
  files s !! sheet.1 = Some book →
  sheetAt sheet' (withFiles (<[sheet.1 := <[sheet.2 := cells']> book]> (files s)) s)
  = if decide (sheet' = sheet) then Some cells' else sheetAt sheet' s.
Proof.
  intros Hbook. unfold sheetAt. cbn [files withFiles].
  destruct sheet as [id nm], sheet' as [id' nm']. cbn [fst snd] in *.
  destruct (decide (id' = id)) as [->|Hid].
  - rewrite lookup_insert_eq, Hbook. cbn.
    destruct (decide (nm' = nm)) as [->|Hnm].
    + by rewrite lookup_insert_eq, decide_True.
    + rewrite lookup_insert_ne by done. by rewrite decide_False by congruence.
  - rewrite lookup_insert_ne by done. by rewrite decide_False by congruence.
Qed.

Lemma writeSheet_Ret sheet cells cells' s :
  sheetAt sheet s = Some cells →
  ∃ f, writeSheet sheet cells' s = Ret tt (withFiles f s)
       ∧ ∀ sheet', sheetAt sheet' (withFiles f s)
                   = if decide (sheet' = sheet) then Some cells'
                     else sheetAt sheet' s.
Proof.
  unfold writeSheet. intros Hsheet. unfold sheetAt in Hsheet.
  destruct (files s !! sheet.1) as [book|] eqn:Hbook; [|done]. cbn in Hsheet.
  rewrite Hsheet. eexists. split; [done|]. intros sheet'. by apply sheetAt_insert.
Qed.

Lemma writeSheet_None sheet cells' s :
  sheetAt sheet s = None → writeSheet sheet cells' s = Raise (Js TypeError) s.
Proof.
  unfold writeSheet, sheetAt.
  destruct (files s !! sheet.1) as [book|]; [|done]. cbn. by intros ->.
Qed.

Lemma readSheet_Ret sheet cells s :
  sheetAt sheet s = Some cells → readSheet sheet s = Ret cells s.
Proof. unfold readSheet. by intros ->. Qed.

End Cells.

(** ** What a script leaves as it is *)

Section Frames.

Context {TextStyle : Type}.

Implicit Types (s : App TextStyle) (allowed : SheetRef → Z * Z → Prop).
Implicit Types (sheet : SheetRef) (cells : Sheet TextStyle).

Lemma evolves_refl allowed s : evolves allowed s s.
Proof.
  unfold evolves. split_and!; try done.
  - exists []. by rewrite app_nil_r.
  - exists []. by rewrite app_nil_r.
  - intros sheet cells cells' k Hc Hc' _. congruence.
Qed.

Lemma evolves_trans allowed s1 s2 s3 :
  evolves allowed s1 s2 → evolves allowed s2 s3 → evolves allowed s1 s3.
Proof.
  intros (Hu & Ha & Ht & [l1 Ho] & [a1 Hal] & Hobj & Hsh & Hc)
         (Hu' & Ha' & Ht' & [l2 Ho'] & [a2 Hal'] & Hobj' & Hsh' & Hc').
  unfold evolves. split_and!; try congruence.
  - exists (l1 ++ l2). by rewrite Ho', Ho, app_assoc.
  - exists (a1 ++ a2). by rewrite Hal', Hal, app_assoc.
  - intros l o Hl. by apply Hobj', Hobj.
  - intros sheet. by rewrite Hsh', Hsh.
  - intros sheet cells cells' k H1 H3 Hk.
    destruct (proj2 (Hsh sheet) (mk_is_Some _ _ H1)) as [cells2 H2].
    rewrite (Hc' _ _ _ _ H2 H3 Hk). by apply (Hc sheet).
Qed.

Lemma evolves_mono allowed allowed' s s' :
  (∀ sheet k, allowed sheet k → allowed' sheet k) →
  evolves allowed s s' → evolves allowed' s s'.
Proof.
  intros Hsub (Hu & Ha & Ht & Ho & Hal & Hobj & Hsh & Hc).
  unfold evolves. split_and!; try done.
  intros sheet cells cells' k H1 H2 Hk. apply (Hc sheet); try done.
  intros ?. by apply Hk, Hsub.
Qed.

(** What a run that writes to one sheet only leaves of another. *)
Lemma evolves_other_sheet (allowed : SheetRef → Z * Z → Prop) s s' sheet :
  evolves allowed s s' → (∀ k, ¬ allowed sheet k) →
  sheetAt sheet s' = sheetAt sheet s.
Proof.
  intros (_ & _ & _ & _ & _ & _ & Hsome & Hcells) Hno.
  destruct (sheetAt sheet s) as [cells|] eqn:Hs.
  - destruct (proj2 (Hsome sheet)) as [cells' Hs']; [by rewrite Hs|].
    rewrite Hs'. f_equal. apply map_eq. intros k.
    by apply (Hcells sheet cells cells').
  - destruct (sheetAt sheet s') as [cells'|] eqn:Hs'; [|done].
    destruct (proj1 (Hsome sheet)) as [cells Hc]; [by rewrite Hs'|].
    by rewrite Hs in Hc.
Qed.

Lemma evolves_withOutput allowed s lines :
  evolves allowed s (withOutput (output s ++ lines) s).
Proof.
  unfold evolves. split_and!; try done.
  - by exists lines.
  - exists []. by rewrite app_nil_r.
  - intros sheet cells cells' k Hc Hc' _. unfold sheetAt in *. cbn in *. congruence.
Qed.

Lemma evolves_withAlerts allowed s shown :
  evolves allowed s (withAlerts (alerts s ++ shown) s).
Proof.
  unfold evolves. split_and!; try done.
  - exists []. by rewrite app_nil_r.
  - by exists shown.
  - intros sheet cells cells' k Hc Hc' _. unfold sheetAt in *. cbn in *. congruence.
Qed.

Lemma evolves_withObjects allowed s h :
  (∀ l o, objects s !! l = Some o → h !! l = Some o) →
  evolves allowed s (withObjects h s).
Proof.
  intros Hh. unfold evolves. split_and!; try done.
  - exists []. by rewrite app_nil_r.
  - exists []. by rewrite app_nil_r.
  - intros sheet cells cells' k Hc Hc' _. unfold sheetAt in *. cbn in *. congruence.
Qed.

Lemma keeps_mono {A : Type} allowed allowed' (m : Script TextStyle A) :
  (∀ sheet k, allowed sheet k → allowed' sheet k) →
  keeps allowed m → keeps allowed' m.
Proof. intros Hsub Hm s s' Hs. eapply evolves_mono; [done|]. by apply Hm. Qed.

Lemma keeps_unchanged {A : Type} allowed (m : Script TextStyle A) :
  (∀ s s', stateAfter (m s) = Some s' → s' = s) → keeps allowed m.
Proof. intros Hm s s' Hs. rewrite (Hm _ _ Hs). apply evolves_refl. Qed.

Lemma keeps_ret {A : Type} allowed (a : A) :
  keeps allowed (mret a : Script TextStyle A).
Proof. apply keeps_unchanged. by intros s s' [= <-]. Qed.

Lemma keeps_bind {A B : Type} allowed (m : Script TextStyle A)
    (f : A → Script TextStyle B) :
  keeps allowed m → (∀ a, keeps allowed (f a)) → keeps allowed (m ≫= f).
Proof.
  intros Hm Hf s s'. unfold mbind, Script_bind.
  destruct (m s) as [a s1|e s1|] eqn:Hms; [| |done].
  - intros Hs. eapply evolves_trans; [apply (Hm s); by rewrite Hms|].
    by apply (Hf a).
  - intros [= <-]. apply (Hm s). by rewrite Hms.
Qed.

Lemma keeps_try_catch {A : Type} allowed (m : Script TextStyle A) h :
  keeps allowed m → (∀ e, keeps allowed (h e)) → keeps allowed (try_catch m h).
Proof.
  intros Hm Hh s s'. unfold try_catch.
  destruct (m s) as [a s1|e s1|] eqn:Hms; [| |done].
  - intros [= <-]. apply (Hm s). by rewrite Hms.
  - intros Hs. eapply evolves_trans; [apply (Hm s); by rewrite Hms|].
    by apply (Hh e).
Qed.

Lemma keeps_forEach {A : Type} allowed (l : list A) (f : A → Script TextStyle unit) :
  (∀ x, x ∈ l → keeps allowed (f x)) → keeps allowed (forEach l f).
Proof.
  induction l as [|x l IH]; intros Hf; cbn [forEach]; [apply keeps_ret|].
  apply keeps_bind; [apply Hf; by left|]. intros _. apply IH.
  intros y Hy. apply Hf. by right.
Qed.

Lemma keeps_console allowed level m : keeps allowed (console_ (TextStyle:=TextStyle) level m).
Proof. intros s s' [= <-]. apply evolves_withOutput. Qed.

Lemma keeps_alert allowed a : keeps allowed (alert (TextStyle:=TextStyle) a).
Proof.
  intros s s'. unfold alert. destruct (hasUi s); intros [= <-].
  - apply evolves_withAlerts.
  - apply evolves_refl.
Qed.

Lemma keeps_lift {A : Type} allowed (m : M TextStyle A) :
  framed m → keeps allowed (lift m).
Proof.
  intros Hm s s'. unfold lift.
  destruct (m _) as [a w|e w|] eqn:Hmw; [| |done]; intros [= <-].
  all: eapply evolves_trans; [apply evolves_withOutput|].
  all: apply evolves_withObjects; cbn; intros l o Hl.
  all: eapply (Hm _ w); [by rewrite Hmw|done].
Qed.

Lemma keeps_getActive allowed : keeps allowed (getActive (TextStyle:=TextStyle)).
Proof. apply keeps_unchanged. by intros s s' [= <-]. Qed.

Lemma keeps_openById allowed id : keeps allowed (openById (TextStyle:=TextStyle) id).
Proof.
  apply keeps_unchanged. intros s s'. unfold openById.
  by destruct (files s !! id); intros [= <-].
Qed.

Lemma keeps_getSheetByName allowed ss nm :
  keeps allowed (getSheetByName (TextStyle:=TextStyle) ss nm).
Proof.
  apply keeps_unchanged. intros s s'. unfold getSheetByName.
  destruct ss as [id|]; [|by intros [= <-]].
  by destruct (files s !! id); intros [= <-].
Qed.

Lemma keeps_readSheet allowed sheet :
  keeps allowed (readSheet (TextStyle:=TextStyle) sheet).
Proof.
  apply keeps_unchanged. intros s s'. unfold readSheet.
  by destruct (sheetAt sheet s); intros [= <-].
Qed.

Lemma keeps_getRange allowed sheet row column n m :
  keeps allowed (getRange (TextStyle:=TextStyle) sheet row column n m).
Proof.
  apply keeps_unchanged. intros s s'. unfold getRange.
  by destruct (_ && _); intros [= <-].
Qed.

Lemma keeps_getRangeA1 allowed a1Notation sheet a1 :
  keeps allowed (getRangeA1 (TextStyle:=TextStyle) a1Notation sheet a1).
Proof.
  apply keeps_unchanged. intros s s'. unfold getRangeA1.
  by destruct (a1Notation a1); intros [= <-].
Qed.

Lemma keeps_getLastRow allowed sheet :
  keeps allowed (getLastRow (TextStyle:=TextStyle) sheet).
Proof.
  apply keeps_bind; [apply keeps_readSheet|]. intros ?. apply keeps_ret.
Qed.

Lemma keeps_getDisplayValue allowed rg :
  keeps allowed (getDisplayValue (TextStyle:=TextStyle) rg).
Proof.
  apply keeps_bind; [apply keeps_readSheet|]. intros ?. apply keeps_ret.
Qed.

Lemma keeps_getDisplayValues allowed rg :
  keeps allowed (getDisplayValues (TextStyle:=TextStyle) rg).
Proof.
  apply keeps_bind; [apply keeps_readSheet|]. intros ?. apply keeps_ret.
Qed.

Lemma framed_alloc (o : HostObject TextStyle) : framed (alloc o).
Proof.
  intros w w' [= <-] l o' Hl. cbn.
  rewrite lookup_insert_ne; [done|]. intros <-.
  apply (is_fresh (dom (heap w))). apply elem_of_dom. by eexists.
Qed.

Lemma framed_getText (rt : loc) : framed (getText (TextStyle:=TextStyle) rt).
Proof.
  intros w w'. unfold getText.
  by destruct (heap w !! rt) as [[]|]; intros [= <-].
Qed.

Lemma framed_extract fuel rt startRe stopRe :
  framed (extractRichTextSection_ (TextStyle:=TextStyle) fuel rt startRe stopRe).
Proof. intros w w' Hw. by eapply extract_frame. Qed.

Lemma keeps_getRichTextValue allowed rg :
  keeps allowed (getRichTextValue (TextStyle:=TextStyle) rg).
Proof.
  apply keeps_bind; [apply keeps_readSheet|]. intros cells.
  destruct (cells !! _) as [[v|d]|].
  - apply keeps_bind; [apply keeps_lift, framed_alloc|]. intros ?. apply keeps_ret.
  - apply keeps_ret.
  - apply keeps_bind; [apply keeps_lift, framed_alloc|]. intros ?. apply keeps_ret.
Qed.

Lemma writeSheet_evolves allowed sheet (cells' : Sheet TextStyle) s s' :
  (∀ cells k, sheetAt sheet s = Some cells → ¬ allowed sheet k →
     cells' !! k = cells !! k) →
  stateAfter (writeSheet sheet cells' s) = Some s' → evolves allowed s s'.
Proof.
  intros Hsame.
  destruct (sheetAt sheet s) as [cells|] eqn:Hsheet.
  - destruct (writeSheet_Ret sheet cells cells' s Hsheet) as (f & -> & Hf).
    intros [= <-]. unfold evolves. split_and!; try done.
    + exists []. by rewrite app_nil_r.
    + exists []. by rewrite app_nil_r.
    + intros sheet'. rewrite Hf. case_decide as Heq; [|done].
      subst sheet'. by rewrite Hsheet.
    + intros sheet' c c' k. rewrite Hf. case_decide as Heq.
      * subst sheet'. rewrite Hsheet. intros [= <-] [= <-] Hk. by apply Hsame.
      * congruence.
  - rewrite writeSheet_None by done. intros [= <-]. apply evolves_refl.
Qed.

Lemma keeps_clearContent allowed rg :
  (∀ k, inRect (rangeRect rg) k = true → allowed (rangeSheet rg) k) →
  keeps allowed (clearContent (TextStyle:=TextStyle) rg).
Proof.
  intros Hin. unfold clearContent. intros s s'.
  unfold mbind, Script_bind, readSheet.
  destruct (sheetAt (rangeSheet rg) s) as [cells|] eqn:Hsheet;
    [|intros [= <-]; apply evolves_refl].
  apply writeSheet_evolves. intros cells0 k Hc Hk.
  rewrite Hsheet in Hc. injection Hc as <-.
  rewrite lookup_clearCells. destruct (inRect _ k) eqn:Hk'; [|done].
  destruct Hk. by apply Hin.
Qed.

Lemma keeps_setRichTextValue allowed rg value :
  (∀ k, inRect (rangeRect rg) k = true → allowed (rangeSheet rg) k) →
  keeps allowed (setRichTextValue (TextStyle:=TextStyle) rg value).
Proof.
  intros Hin. unfold setRichTextValue.
  apply keeps_bind.
  { apply keeps_lift. intros w w'.
    by destruct (heap w !! value) as [[]|]; intros [= <-]. }
  intros v s s'. unfold mbind, Script_bind, readSheet.
  destruct (sheetAt (rangeSheet rg) s) as [cells|] eqn:Hsheet;
    [|intros [= <-]; apply evolves_refl].
  apply writeSheet_evolves. intros cells0 k Hc Hk.
  rewrite Hsheet in Hc. injection Hc as <-.
  rewrite lookup_setCells. destruct (inRect _ k) eqn:Hk'; [|done].
  destruct Hk. by apply Hin.
Qed.

Lemma keeps_findRowInSheet allowed toUpperCase sheet searchTerm colNum :
  keeps allowed
    (findRowInSheet_ (TextStyle:=TextStyle) toUpperCase sheet searchTerm colNum).
Proof.
  unfold findRowInSheet_.
  apply keeps_bind; [apply keeps_getLastRow|]. intros ?.
  apply keeps_bind; [apply keeps_getRange|]. intros ?.
  apply keeps_bind; [apply keeps_getDisplayValues|]. intros ?.
  apply keeps_ret.
Qed.

Lemma keeps_bind_val {A B : Type} allowed (m : Script TextStyle A)
    (f : A → Script TextStyle B) (P : A → Prop) :
  keeps allowed m → (∀ s a s', m s = Ret a s' → P a) →
  (∀ a, P a → keeps allowed (f a)) → keeps allowed (m ≫= f).
Proof.
  intros Hm HP Hf s s'. unfold mbind, Script_bind.
  destruct (m s) as [a s1|e s1|] eqn:Hms; [| |done].
  - intros Hs. eapply evolves_trans; [apply (Hm s); by rewrite Hms|].
    apply (Hf a); [by eapply HP|done].
  - intros [= <-]. apply (Hm s). by rewrite Hms.
Qed.

Lemma bind_evolves {A B : Type} allowed (m : Script TextStyle A)
    (f : A → Script TextStyle B) s s' :
  keeps allowed m →
  (∀ a s1, m s = Ret a s1 → stateAfter (f a s1) = Some s' →
     evolves allowed s1 s') →
  stateAfter ((m ≫= f) s) = Some s' → evolves allowed s s'.
Proof.
  intros Hm Hf. unfold mbind, Script_bind.
  destruct (m s) as [a s1|e s1|] eqn:Hms; [| |done].
  - intros Hs. eapply evolves_trans; [apply (Hm s); by rewrite Hms|].
    by apply (Hf a).
  - intros [= <-]. apply (Hm s). by rewrite Hms.
Qed.

Lemma try_catch_evolves {A : Type} allowed (m : Script TextStyle A) h s s' :
  (∀ s1, stateAfter (m s) = Some s1 → evolves allowed s s1) →
  (∀ e, keeps allowed (h e)) →
  stateAfter (try_catch m h s) = Some s' → evolves allowed s s'.
Proof.
  intros Hm Hh. unfold try_catch.
  destruct (m s) as [a s1|e s1|] eqn:Hms; [| |done].
  - intros [= <-]. by apply Hm.
  - intros Hs. eapply evolves_trans; [by apply Hm|]. by apply (Hh e).
Qed.

Lemma keeps_at {A : Type} allowed (m : Script TextStyle A) s s' :
  keeps allowed m → stateAfter (m s) = Some s' → evolves allowed s s'.
Proof. intros Hm. apply Hm. Qed.

End Frames.

Ltac keeps_leaf :=
  first
    [ apply keeps_ret | apply keeps_console | apply keeps_alert
    | apply keeps_getActive | apply keeps_openById | apply keeps_getSheetByName
    | apply keeps_getRange | apply keeps_getRangeA1 | apply keeps_getLastRow
    | apply keeps_getDisplayValue | apply keeps_getDisplayValues
    | apply keeps_getRichTextValue | apply keeps_findRowInSheet
    | apply keeps_lift; first [apply framed_getText | apply framed_extract
                              | apply framed_alloc] ].

Ltac keeps_step :=
  first [ keeps_leaf | apply keeps_bind; [solve [keeps_leaf]|intros ?] ].

(** ** What the functions of the script leave as it is *)

Section ScriptFrames.

Context {TextStyle : Type}.

Context (toUpperCase : str → str).
Context (a1Notation : str → option Rect).
Context (settings : Settings).

Implicit Types (s : App TextStyle) (sheet : SheetRef) (cells : Sheet TextStyle).

Lemma getRangeA1_Ret sheet a1 s rg s' :
  getRangeA1 a1Notation sheet a1 s = Ret rg s' →
  rangeSheet rg = sheet ∧ a1Notation a1 = Some (rangeRect rg).
Proof.
  unfold getRangeA1. destruct (a1Notation a1) as [r|]; [|done].
  by intros [= <- <-].
Qed.

Lemma keeps_clearTargets sheet :
  keeps (targetsOn a1Notation sheet)
    (clearTargets (TextStyle:=TextStyle) a1Notation sheet).
Proof.
  apply keeps_forEach. intros sec Hsec.
  eapply keeps_bind_val; [apply keeps_getRangeA1|apply getRangeA1_Ret|].
  intros rg [Hsheet Hrect]. apply keeps_clearContent. intros k Hk.
  split; [done|]. by exists sec, (rangeRect rg).
Qed.

Lemma keeps_fillSection fuel sheet richTextValue sec :
  sec ∈ SECTIONS →
  keeps (targetsOn a1Notation sheet)
    (fillSection (TextStyle:=TextStyle) a1Notation fuel sheet richTextValue sec).
Proof.
  intros Hsec. unfold fillSection, logs.
  do 2 keeps_step. rename a0 into extractedRichText.
  eapply keeps_bind_val; [apply keeps_getRangeA1|apply getRangeA1_Ret|].
  intros rg [Hsheet Hrect].
  assert (∀ k, inRect (rangeRect rg) k = true
               → targetsOn a1Notation sheet (rangeSheet rg) k) as Hin.
  { intros k Hk. split; [done|]. by exists sec, (rangeRect rg). }
  destruct extractedRichText.
  - apply keeps_bind; [by apply keeps_setRichTextValue|]. intros ?. keeps_step.
  - apply keeps_bind; [by apply keeps_clearContent|]. intros ?. keeps_step.
Qed.

End ScriptFrames.

Ltac keeps_crunch :=
  unfold logs, warns, errors;
  repeat first
    [ keeps_leaf
    | apply keeps_clearTargets
    | apply keeps_forEach; intros ? ?; by apply keeps_fillSection
    | apply keeps_bind; [|intros ?]
    | match goal with
      | |- keeps _ (match ?x with _ => _ end) => destruct x
      | |- keeps _ (if ?b then _ else _) => destruct b
      end ].

Section FunctionFrames.

Context {TextStyle : Type}.

Context (toUpperCase : str → str).
Context (a1Notation : str → option Rect).
Context (settings : Settings).

Implicit Types (s : App TextStyle) (sheet : SheetRef) (cells : Sheet TextStyle).

Lemma fillFormattedSections_evolves fuel s s' :
  stateAfter (fillFormattedSections toUpperCase a1Notation settings fuel s)
  = Some s' →
  evolves (λ sheet k, active s = Some sheet.1
                      ∧ sheet.2 = TEMPLATE_SHEET settings
                      ∧ inTarget a1Notation k) s s'.
Proof.
  set (allowed := λ sheet k, _). unfold fillFormattedSections, logs at 1.
  apply bind_evolves; [apply keeps_console|]. intros [] s1 [= <-].
  assert (active (withOutput (output s ++ [(LevelLog, MsgStarting)]) s)
          = active s) as Hact by done.
  revert Hact. generalize (withOutput (output s ++ [(LevelLog, MsgStarting)]) s).
  intros s1 Hact.
  apply try_catch_evolves; [|intros e; keeps_crunch]. intros s2.
  apply bind_evolves; [apply keeps_getActive|]. intros ss s1' [= <- <-].
  apply bind_evolves; [apply keeps_getSheetByName|]. intros templateSheet s1' Hget.
  destruct templateSheet as [templateSheet|];
    [|apply keeps_at; keeps_crunch].
  assert (active s = Some templateSheet.1
          ∧ templateSheet.2 = TEMPLATE_SHEET settings) as [Hid Hname].
  { revert Hget. unfold getSheetByName. rewrite Hact.
    destruct (active s) as [id|]; [|done].
    destruct (files s1 !! id) as [book|]; [|done].
    destruct (book !! _); [|done]. by intros [= <- _]. }
  intros Hrest. apply (evolves_mono (targetsOn a1Notation templateSheet)).
  { intros sheet k [-> Hk]. done. }
  revert Hrest. apply keeps_at. keeps_crunch.
Qed.

Lemma try_catch_Raise {A : Type} (m : Script TextStyle A) h s e s' :
  try_catch m h s = Raise e s' →
  ∃ e0 s0, m s = Raise e0 s0 ∧ h e0 s0 = Raise e s'.
Proof.
  unfold try_catch. destruct (m s) as [a s0|e0 s0|]; [done| |done].
  intros Hh. by exists e0, s0.
Qed.

(** An exception leaves [fillFormattedSections] only from the dialog of
    its own handler. *)
Lemma fillFormattedSections_Raise fuel s e s' :
  fillFormattedSections toUpperCase a1Notation settings fuel s = Raise e s' →
  e = NoUi ∧ hasUi s' = false.
Proof.
  unfold fillFormattedSections. erewrite bind_Ret by reflexivity.
  intros (e0 & s0 & _ & Hh)%try_catch_Raise. revert Hh.
  erewrite bind_Ret by reflexivity. unfold alert. cbn [hasUi withOutput].
  destruct (hasUi s0) eqn:Hui; [done|]. by intros [= <- <-].
Qed.

Lemma muniEditHandler_evolves fuel e s s' :
  stateAfter (muniEditHandler toUpperCase a1Notation settings fuel e s)
  = Some s' →
  evolves (λ sheet k, sheet.2 = TEMPLATE_SHEET settings
                      ∧ inTarget a1Notation k
                      ∧ (active s = Some sheet.1
                         ∨ ∃ rg, e ≫= range = Some rg ∧ editedSheet rg = sheet))
    s s'.
Proof.
  set (allowed := λ sheet k, _). unfold muniEditHandler.
  apply try_catch_evolves; [|intros err; keeps_crunch]. intros s1.
  destruct (e ≫= range) as [rg|] eqn:Hrg; [|apply keeps_at; keeps_crunch].
  case_bool_decide as Hname; [apply keeps_at; keeps_crunch|].
  case_bool_decide as Ha1; [apply keeps_at; keeps_crunch|]. cbn [orb].
  unfold getName in Hname.
  destruct (notBlank _).
  - apply bind_evolves; [keeps_crunch|]. intros [] s2 [= <-] Hfill.
    apply fillFormattedSections_evolves in Hfill.
    eapply evolves_mono; [|exact Hfill]. intros sheet k (Hid & Hnm & Hk).
    split; [done|]. split; [done|]. by left.
  - intros Hrest. apply (evolves_mono (targetsOn a1Notation (editedSheet rg))).
    { intros sheet k [-> Hk]. split; [done|]. split; [done|]. right. by exists rg. }
    revert Hrest. apply keeps_at. keeps_crunch.
Qed.

End FunctionFrames.

(** ** The trigger of the edit handler *)

Section Triggers.

Context {TextStyle : Type}.

Context (settings : Settings).

Implicit Types (s : App TextStyle) (ts : gmap positive Trigger).

Lemma withTriggers_same s : withTriggers (triggers s) s = s.
Proof. by destruct s. Qed.

Lemma otherTriggers_none ts :
  ¬ handlerInstalled ts → otherTriggers ts = ts.
Proof.
  intros Hno. apply map_filter_id. intros k t Hk Ht. apply Hno. by exists k, t.
Qed.

Lemma otherTriggers_lookup ts k t :
  otherTriggers ts !! k = Some t
  ↔ ts !! k = Some t ∧ handlerFunction t ≠ muniEditHandlerName.
Proof. apply map_lookup_filter_Some. Qed.

Lemma otherTriggers_not_installed ts : ¬ handlerInstalled (otherTriggers ts).
Proof. intros (k & t & [_ Hne]%otherTriggers_lookup & Heq). done. Qed.

Lemma deleteIfHandler_yes (b : bool) k t ts s :
  handlerFunction t = muniEditHandlerName → ts !! k = Some t →
  deleteIfHandler b (k, t) (withTriggers ts s)
  = Ret true (withTriggers (delete k ts) s).
Proof.
  intros Hh Hk. unfold deleteIfHandler, getHandlerFunction. cbn [snd].
  rewrite bool_decide_eq_true_2 by done.
  erewrite bind_Ret; [reflexivity|]. unfold deleteTrigger.
  cbn [triggers withTriggers fst]. by rewrite Hk.
Qed.

Lemma deleteIfHandler_no (b : bool) k t s :
  handlerFunction t ≠ muniEditHandlerName →
  deleteIfHandler b (k, t) s = Ret b s.
Proof.
  intros Hh. unfold deleteIfHandler, getHandlerFunction. cbn [snd].
  by rewrite bool_decide_eq_false_2 by done.
Qed.

(** The loop of [disableMuniAuto] over triggers that are all installed. *)
Lemma forEachWith_deleteIfHandler (l : list (positive * Trigger)) :
  ∀ ts (b : bool) s,
    NoDup l.*1 →
    (∀ k t, (k, t) ∈ l → ts !! k = Some t) →
    ∃ ts',
      forEachWith l deleteIfHandler b (withTriggers ts s)
      = Ret (b || existsb (λ t, bool_decide (getHandlerFunction t
                                              = muniEditHandlerName)) l)
          (withTriggers ts' s)
      ∧ ∀ k, ts' !! k
             = match ts !! k with
               | Some t =>
                   if bool_decide (k ∈ l.*1
                                   ∧ handlerFunction t = muniEditHandlerName)
                   then None else Some t
               | None => None
               end.
Proof.
  induction l as [|[k0 t0] l IH]; intros ts b s Hdup Hin;
    cbn [forEachWith existsb].
  { exists ts. split; [by rewrite orb_false_r|]. intros k.
    destruct (ts !! k) as [t|]; [|done]. rewrite bool_decide_eq_false_2; [done|].
    intros [[]%elem_of_nil _]. }
  rewrite fmap_cons in Hdup |- *. cbn [fst] in Hdup |- *.
  apply NoDup_cons in Hdup as [Hk0 Hdup].
  assert (ts !! k0 = Some t0) as Hts by (apply Hin; by left).
  destruct (decide (handlerFunction t0 = muniEditHandlerName)) as [Hh|Hh].
  - destruct (IH (delete k0 ts) true s Hdup) as (ts' & Hrun & Hts').
    { intros k t Hkt. rewrite lookup_delete_ne; [apply Hin; by right|].
      intros <-. apply Hk0. apply list_elem_of_fmap. by exists (k0, t). }
    exists ts'. split.
    + erewrite bind_Ret by (by apply deleteIfHandler_yes).
      rewrite Hrun.
      rewrite (bool_decide_eq_true_2
                 (getHandlerFunction (k0, t0) = muniEditHandlerName)) by exact Hh.
      cbn [orb]. by rewrite orb_true_r.
    + intros k. rewrite Hts'. destruct (decide (k = k0)) as [->|Hne].
      * rewrite lookup_delete_eq, Hts. rewrite bool_decide_eq_true_2; [done|].
        split; [by left|done].
      * rewrite lookup_delete_ne by done. destruct (ts !! k) as [t|]; [|done].
        rewrite (bool_decide_ext
                   (k ∈ k0 :: l.*1 ∧ handlerFunction t = muniEditHandlerName)
                   (k ∈ l.*1 ∧ handlerFunction t = muniEditHandlerName));
          [done|].
        rewrite elem_of_cons. split.
        -- intros [[?|?] ?]; done.
        -- intros [? ?]. split; [by right|done].
  - destruct (IH ts b s Hdup) as (ts' & Hrun & Hts').
    { intros k t Hkt. apply Hin. by right. }
    exists ts'. split.
    + erewrite bind_Ret by (by apply deleteIfHandler_no).
      rewrite Hrun.
      by rewrite (bool_decide_eq_false_2
                    (getHandlerFunction (k0, t0) = muniEditHandlerName))
        by exact Hh.
    + intros k. rewrite Hts'. destruct (ts !! k) as [t|] eqn:Hk; [|done].
      rewrite (bool_decide_ext
                   (k ∈ k0 :: l.*1 ∧ handlerFunction t = muniEditHandlerName)
                   (k ∈ l.*1 ∧ handlerFunction t = muniEditHandlerName));
          [done|].
      rewrite elem_of_cons. split.
      * intros [[->|?] ?]; [|done]. congruence.
      * intros [? ?]. split; [by right|done].
Qed.

Lemma existsb_handler ts :
  existsb (λ t, bool_decide (getHandlerFunction t = muniEditHandlerName))
    (map_to_list ts) = true
  ↔ handlerInstalled ts.
Proof.
  rewrite existsb_exists. unfold handlerInstalled. split.
  - intros ([k t] & Hin & Hh). exists k, t.
    apply list_elem_of_In, elem_of_map_to_list in Hin.
    by apply bool_decide_eq_true in Hh.
  - intros (k & t & Hk & Hh). exists (k, t). split.
    + by apply list_elem_of_In, elem_of_map_to_list.
    + by apply bool_decide_eq_true.
Qed.

(** The state with the triggers of the edit handler removed. *)
Lemma disableMuniAuto_loop s :
  (getProjectTriggers ≫= λ allTriggers,
     forEachWith allTriggers deleteIfHandler false) s
  = Ret (bool_decide (handlerInstalled (triggers s)))
      (withTriggers (otherTriggers (triggers s)) s).
Proof.
  erewrite bind_Ret by reflexivity.
  destruct (forEachWith_deleteIfHandler (map_to_list (triggers s))
              (triggers s) false s) as (ts' & Hrun & Hts').
  { apply NoDup_fst_map_to_list. }
  { intros k t. apply elem_of_map_to_list. }
  rewrite withTriggers_same in Hrun. rewrite Hrun. cbn [orb]. f_equal.
  - apply eq_true_iff_eq. by rewrite existsb_handler, bool_decide_eq_true.
  - f_equal. apply map_eq. intros k. rewrite Hts'. unfold otherTriggers.
    symmetry. destruct (triggers s !! k) as [t|] eqn:Hk.
    + case_bool_decide as Hh.
      * apply map_lookup_filter_None. right. intros t' Ht' Hne. cbn [snd] in Hne.
        destruct Hh as [_ Hh]. congruence.
      * apply map_lookup_filter_Some. split; [done|]. cbn [snd]. intros Hh'.
        apply Hh. split; [|done]. apply list_elem_of_fmap. exists (k, t).
        split; [done|]. by apply elem_of_map_to_list.
    + apply map_lookup_filter_None. by left.
Qed.

End Triggers.

End ScriptFacts.

(** ** The steps of a run *)

Module ScriptRuns.

Import Script ScriptFacts.

Section Steps.

Context {TextStyle : Type}.

Implicit Types (s : App TextStyle) (sheet : SheetRef) (cells : Sheet TextStyle).

Lemma withOutput_nil s : withOutput (output s ++ []) s = s.
Proof. rewrite app_nil_r. by destruct s. Qed.

Lemma sheetAt_files sheet s cells :
  sheetAt sheet s = Some cells → is_Some (files s !! sheet.1).
Proof. unfold sheetAt. by destruct (files s !! sheet.1). Qed.

Lemma getSheetByName_Some id nm s cells :
  sheetAt (id, nm) s = Some cells →
  getSheetByName (Some id) nm s = Ret (Some (id, nm)) s.
Proof.
  unfold sheetAt, getSheetByName. cbn [fst snd].
  destruct (files s !! id) as [book|]; [|done]. cbn. by intros ->.
Qed.

Lemma getRangeA1_Some a1Notation sheet a1 r s :
  a1Notation a1 = Some r →
  getRangeA1 a1Notation sheet a1 s
  = Ret {| rangeSheet := sheet; rangeRect := r |} s.
Proof. unfold getRangeA1. by intros ->. Qed.

Lemma getDisplayValue_Ret rg s cells :
  sheetAt (rangeSheet rg) s = Some cells →
  getDisplayValue rg s
  = Ret (displayOf (cells !! (top (rangeRect rg), left (rangeRect rg)))) s.
Proof.
  intros Hsheet. unfold getDisplayValue.
  by erewrite bind_Ret by (by apply readSheet_Ret).
Qed.

Lemma openById_Ret id nm s cells :
  sheetAt (id, nm) s = Some cells → openById id s = Ret id s.
Proof.
  intros [book Hbook]%sheetAt_files. unfold openById. cbn in Hbook.
  by rewrite Hbook.
Qed.

Lemma getRange_Ret sheet row column s :
  1 <= row → 1 <= column →
  getRange sheet row column 1 1 s
  = Ret {| rangeSheet := sheet;
           rangeRect := {| top := row; left := column;
                           numRows := 1; numColumns := 1 |} |} s.
Proof.
  intros Hrow Hcolumn. unfold getRange.
  destruct (Z.leb_spec 1 row); [|lia]. by destruct (Z.leb_spec 1 column); [|lia].
Qed.

(** [getRichTextValue] of a text cell: a new object with the value. *)
Lemma lift_alloc (o : HostObject TextStyle) s :
  lift (alloc o) s
  = Ret (fresh (dom (objects s)))
      (withObjects (<[fresh (dom (objects s)) := o]> (objects s)) s).
Proof.
  unfold lift, alloc. cbn [heap console fmap list_fmap].
  by rewrite withOutput_nil.
Qed.

Lemma getRichTextValue_text rg s cells v :
  sheetAt (rangeSheet rg) s = Some cells →
  cells !! (top (rangeRect rg), left (rangeRect rg)) = Some (CellText v) →
  getRichTextValue rg s
  = Ret (Some (fresh (dom (objects s))))
      (withObjects (<[fresh (dom (objects s)) := ObjRichText v]> (objects s)) s).
Proof.
  intros Hsheet Hcell. unfold getRichTextValue.
  erewrite bind_Ret by (by apply readSheet_Ret). rewrite Hcell.
  by erewrite bind_Ret by apply lift_alloc.
Qed.

Lemma getRichTextValue_empty rg s cells :
  sheetAt (rangeSheet rg) s = Some cells →
  cells !! (top (rangeRect rg), left (rangeRect rg)) = None →
  getRichTextValue rg s
  = Ret (Some (fresh (dom (objects s))))
      (withObjects (<[fresh (dom (objects s)) :=
                        ObjRichText {| rtText := []; rtRuns := [] |}]>
                      (objects s)) s).
Proof.
  intros Hsheet Hcell. unfold getRichTextValue.
  erewrite bind_Ret by (by apply readSheet_Ret). rewrite Hcell.
  by erewrite bind_Ret by apply lift_alloc.
Qed.

Lemma getRichTextValue_other rg s cells d :
  sheetAt (rangeSheet rg) s = Some cells →
  cells !! (top (rangeRect rg), left (rangeRect rg)) = Some (CellOther d) →
  getRichTextValue rg s = Ret None s.
Proof.
  intros Hsheet Hcell. unfold getRichTextValue.
  erewrite bind_Ret by (by apply readSheet_Ret). by rewrite Hcell.
Qed.

Lemma lift_getText rt s v :
  objects s !! rt = Some (ObjRichText v) →
  lift (getText rt) s = Ret (rtText v) s.
Proof.
  intros Hrt. unfold lift, getText. cbn [heap console]. rewrite Hrt.
  cbn [heap console fmap list_fmap]. rewrite withOutput_nil. by destruct s.
Qed.

Lemma lift_read value s v :
  objects s !! value = Some (ObjRichText v) →
  lift (λ w, match heap w !! value with
             | Some (ObjRichText v) => Done v w
             | _ => Throw TypeError w
             end) s = Ret v s.
Proof.
  intros Hvalue. unfold lift. cbn [heap console]. rewrite Hvalue.
  cbn [heap console fmap list_fmap]. rewrite withOutput_nil. by destruct s.
Qed.

(** Writing to a range of a sheet that is there. *)
Lemma clearContent_Ret rg s cells :
  sheetAt (rangeSheet rg) s = Some cells →
  ∃ f, clearContent rg s = Ret tt (withFiles f s)
       ∧ ∀ sheet', sheetAt sheet' (withFiles f s)
                   = if decide (sheet' = rangeSheet rg)
                     then Some (clearCells (rangeRect rg) cells)
                     else sheetAt sheet' s.
Proof.
  intros Hsheet. unfold clearContent.
  erewrite bind_Ret by (by apply readSheet_Ret).
  by apply writeSheet_Ret with (cells := cells).
Qed.

Lemma setRichTextValue_Ret rg value s cells v :
  sheetAt (rangeSheet rg) s = Some cells →
  objects s !! value = Some (ObjRichText v) →
  ∃ f, setRichTextValue rg value s = Ret tt (withFiles f s)
       ∧ ∀ sheet', sheetAt sheet' (withFiles f s)
                   = if decide (sheet' = rangeSheet rg)
                     then Some (setCells (rangeRect rg) (CellText v) cells)
                     else sheetAt sheet' s.
Proof.
  intros Hsheet Hvalue. unfold setRichTextValue.
  erewrite bind_Ret by (by apply lift_read).
  erewrite bind_Ret by (by apply readSheet_Ret).
  by apply writeSheet_Ret with (cells := cells).
Qed.

End Steps.

(** ** The loops over SECTIONS *)

Section Loops.

Context {TextStyle : Type}.

Context (a1Notation : str → option Rect).

Implicit Types (s : App TextStyle) (sheet : SheetRef) (cells : Sheet TextStyle).

Lemma targeted_inTarget k :
  targeted a1Notation SECTIONS k = true ↔ inTarget a1Notation k.
Proof.
  unfold targeted, inTarget. rewrite existsb_exists. split.
  - intros (sec & Hsec%list_elem_of_In & Hk).
    destruct (a1Notation (targetA1 sec)) as [r|] eqn:Hr; [|done].
    by exists sec, r.
  - intros (sec & r & Hsec & Hr & Hk). exists sec.
    split; [by apply list_elem_of_In|]. by rewrite Hr.
Qed.

(** Clearing the targets of the sections [l] on a sheet. *)
Lemma forEach_clear (l : list SectionSpec) sheet :
  ∀ s cells,
    (∀ sec, sec ∈ l → is_Some (a1Notation (targetA1 sec))) →
    sheetAt sheet s = Some cells →
    ∃ f cells',
      forEach l (λ sec, rg ← getRangeA1 a1Notation sheet (targetA1 sec);
                        clearContent rg) s
      = Ret tt (withFiles f s)
      ∧ sheetAt sheet (withFiles f s) = Some cells'
      ∧ ∀ k, cells' !! k
             = if targeted a1Notation l k then None else cells !! k.
Proof.
  induction l as [|sec l IH]; intros s cells Hres Hsheet; cbn [forEach].
  { exists (files s), cells. split; [by destruct s|]. split; [by destruct s|].
    done. }
  destruct (Hres sec) as [r Hr]; [by left|].
  destruct (clearContent_Ret {| rangeSheet := sheet; rangeRect := r |} s cells
              Hsheet) as (f1 & Hclear & Hf1).
  destruct (IH (withFiles f1 s) (clearCells r cells)) as (f & cells' & Hrun & Hf & Hk).
  { intros sec' Hsec'. apply Hres. by right. }
  { rewrite Hf1. cbn [rangeSheet]. by rewrite decide_True. }
  exists f, cells'. split.
  - erewrite bind_Ret; [exact Hrun|].
    erewrite bind_Ret by (by apply getRangeA1_Some). exact Hclear.
  - split; [exact Hf|]. intros k. rewrite Hk, lookup_clearCells.
    cbn [targeted existsb]. rewrite Hr. fold (targeted a1Notation l k).
    destruct (inRect r k), (targeted a1Notation l k); done.
Qed.

(** The extractor, run by the script on a source that is there. *)
Lemma lift_extract fuel richTextValue (src : RichTextValue TextStyle)
    startRe stopRe s :
  objects s !! richTextValue = Some (ObjRichText src) →
  lift (extractRichTextSection_ fuel richTextValue startRe stopRe) s
  = match effectOf fuel src startRe stopRe with
    | Diverges => Starved
    | ReturnsNull lines =>
        Ret None
          (withOutput
             (output s ++ ((λ l, (LevelLog, OfExtractor l)) <$> lines)) s)
    | ReturnsNew lines res =>
        let b := fresh (dom (objects s)) in
        let h := <[b := ObjBuilder res]> (objects s) in
        let l := fresh (dom h) in
        Ret (Some l)
          (withObjects (<[l := ObjRichText res]> h)
             (withOutput
                (output s ++ ((λ l, (LevelLog, OfExtractor l)) <$> lines)) s))
    end.
Proof.
  intros Hsrc. unfold lift.
  rewrite (extract_applyEffect _ _ _ _ _ src) by done.
  destruct (effectOf fuel src startRe stopRe) as [|lines|lines res];
    cbn [applyEffect logged heap console app]; [done| |done].
  by destruct s.
Qed.

(** One section: the text extracted from [src] reaches the target, or
    the target is cleared. *)
Lemma fillSection_run fuel sheet richTextValue src sec r s cells :
  a1Notation (targetA1 sec) = Some r →
  (length (rtText src) < fuel)%nat →
  objects s !! richTextValue = Some (ObjRichText src) →
  sheetAt sheet s = Some cells →
  ∃ s',
    fillSection a1Notation fuel sheet richTextValue sec s = Ret tt s'
    ∧ objects s' !! richTextValue = Some (ObjRichText src)
    ∧ sheetAt sheet s' = Some (placeSection a1Notation fuel src cells sec)
    ∧ alerts s' = alerts s.
Proof.
  intros Hr Hfuel Hsrc Hsheet. unfold fillSection, placeSection, sectionValue.
  rewrite Hr. erewrite bind_Ret by reflexivity.
  pose proof (effectOf_total fuel src (start sec) (stop sec) Hfuel) as Htotal.
  rewrite bind_run, (lift_extract _ _ src) by done.
  destruct (effectOf fuel src (start sec) (stop sec)) as [|lines|lines res];
    [done| |]; cbn beta iota zeta.
  - erewrite bind_Ret by (by apply getRangeA1_Some). rewrite bind_run.
    match goal with |- context [clearContent ?rg ?s1] =>
      destruct (clearContent_Ret rg s1 cells) as (f & Hclear & Hf); [done|] end.
    rewrite Hclear.
    eexists. split; [reflexivity|]. split; [done|]. split; [|done].
    specialize (Hf sheet). cbn [rangeSheet] in Hf. by rewrite decide_True in Hf.
  - set (b := fresh (dom (objects s))).
    set (h := <[b := ObjBuilder res]> (objects s)).
    set (l := fresh (dom h)).
    erewrite bind_Ret by (by apply getRangeA1_Some). rewrite bind_run.
    match goal with |- context [setRichTextValue ?rg ?v ?s1] =>
      destruct (setRichTextValue_Ret rg v s1 cells res) as (f & Hset & Hf);
        [done|apply lookup_insert_eq|] end.
    rewrite Hset.
    eexists. split; [reflexivity|]. split; [|split; [|done]].
    + cbn [objects withOutput withFiles withObjects heap].
      assert (richTextValue ∈ dom (objects s)) as Hdom
        by (apply elem_of_dom; by eexists).
      rewrite !lookup_insert_ne; [done| |].
      * intros <-. by apply (is_fresh (dom (objects s))).
      * intros <-. apply (is_fresh (dom h)). fold l. unfold h.
        rewrite dom_insert_L. by apply elem_of_union_r.
    + specialize (Hf sheet). cbn [rangeSheet] in Hf. by rewrite decide_True in Hf.
Qed.

Lemma forEach_fillSection fuel sheet richTextValue src (l : list SectionSpec) :
  (length (rtText src) < fuel)%nat →
  (∀ sec, sec ∈ l → is_Some (a1Notation (targetA1 sec))) →
  ∀ s cells,
    objects s !! richTextValue = Some (ObjRichText src) →
    sheetAt sheet s = Some cells →
    ∃ s',
      forEach l (fillSection a1Notation fuel sheet richTextValue) s = Ret tt s'
      ∧ sheetAt sheet s'
        = Some (foldl (placeSection a1Notation fuel src) cells l)
      ∧ alerts s' = alerts s.
Proof.
  intros Hfuel. induction l as [|sec l IH]; intros Hres s cells Hsrc Hsheet;
    cbn [forEach foldl].
  { by exists s. }
  destruct (Hres sec) as [r Hr]; [by left|].
  destruct (fillSection_run fuel sheet richTextValue src sec r s cells)
    as (s1 & Hrun1 & Hsrc1 & Hsheet1 & Hal1); try done.
  destruct (IH (λ sec' Hsec', Hres sec' (proj2 (elem_of_cons _ _ _) (or_intror Hsec')))
              s1 _ Hsrc1 Hsheet1) as (s' & Hrun & Hsheet' & Hal).
  exists s'. split; [by erewrite bind_Ret by exact Hrun1|].
  split; [done|congruence].
Qed.

(** What the loop leaves in the target of a section, when the targets
    are apart. *)
Lemma lookup_placed fuel (src : RichTextValue TextStyle) (l : list SectionSpec)
    cells sec r k :
  (∀ sec1 sec2 r1 r2,
     sec1 ∈ l → sec2 ∈ l →
     a1Notation (targetA1 sec1) = Some r1 →
     a1Notation (targetA1 sec2) = Some r2 →
     inRect r1 k = true → inRect r2 k = true → sec1 = sec2) →
  sec ∈ l → a1Notation (targetA1 sec) = Some r → inRect r k = true →
  foldl (placeSection a1Notation fuel src) cells l !! k
  = sectionValue fuel src sec.
Proof.
  revert cells. induction l as [|sec' l IH] using rev_ind; intros cells Hapart Hsec Hr Hk.
  { by apply elem_of_nil in Hsec. }
  rewrite foldl_app. cbn [foldl]. unfold placeSection at 1.
  destruct (a1Notation (targetA1 sec')) as [r'|] eqn:Hr'.
  - destruct (inRect r' k) eqn:Hk'.
    + assert (sec = sec') as <-.
      { apply (Hapart sec sec' r r'); try done.
        apply elem_of_app. by right; left. }
      destruct (sectionValue fuel src sec) as [c|].
      * by rewrite lookup_setCells, Hk'.
      * by rewrite lookup_clearCells, Hk'.
    + assert (sec ∈ l) as Hl.
      { apply elem_of_app in Hsec as [?|Hs]; [done|].
        apply elem_of_cons in Hs as [->|[]%elem_of_nil]. congruence. }
      assert (foldl (placeSection a1Notation fuel src) cells l !! k
              = sectionValue fuel src sec) as Hprev.
      { apply IH; try done. intros ???? H1 H2. apply Hapart; apply elem_of_app; by left. }
      destruct (sectionValue fuel src sec') as [c|].
      * by rewrite lookup_setCells, Hk'.
      * by rewrite lookup_clearCells, Hk'.
  - apply IH; try done.
    + intros ???? H1 H2. apply Hapart; apply elem_of_app; by left.
    + apply elem_of_app in Hsec as [?|Hs]; [done|].
      apply elem_of_cons in Hs as [->|[]%elem_of_nil]. congruence.
Qed.

(** What the loop leaves in a cell does not depend on what the cell held,
    unless the cell lies in no target. *)
Lemma lookup_foldl_place fuel (src : RichTextValue TextStyle)
    (l : list SectionSpec) :
  ∃ v : Z * Z → option (option (CellValue TextStyle)),
    (∀ k, v k = None ↔ targeted a1Notation l k = false)
    ∧ ∀ cells k,
        foldl (placeSection a1Notation fuel src) cells l !! k
        = default (cells !! k) (v k).
Proof.
  induction l as [|sec l (v & Hv & IH)]; cbn [foldl].
  { by exists (λ _, None). }
  exists (λ k, match v k with
               | Some x => Some x
               | None =>
                   match a1Notation (targetA1 sec) with
                   | Some r =>
                       if inRect r k then Some (sectionValue fuel src sec)
                       else None
                   | None => None
                   end
               end).
  split.
  - intros k. cbn [targeted existsb]. fold (targeted a1Notation l k).
    specialize (Hv k). destruct (v k) as [x|].
    + destruct (targeted a1Notation l k).
      * by rewrite orb_true_r.
      * destruct Hv as [_ Hv]. by specialize (Hv eq_refl).
    + rewrite (proj1 Hv eq_refl), orb_false_r.
      destruct (a1Notation (targetA1 sec)) as [r|]; [|done].
      by destruct (inRect r k).
  - intros cells k. rewrite IH. destruct (v k) as [x|]; [done|]. cbn [default].
    unfold placeSection. destruct (a1Notation (targetA1 sec)) as [r|]; [|done].
    destruct (sectionValue fuel src sec) as [c|].
    + rewrite lookup_setCells. by destruct (inRect r k).
    + rewrite lookup_clearCells. by destruct (inRect r k).
Qed.

Lemma foldl_place_idemp fuel (src : RichTextValue TextStyle)
    (l : list SectionSpec) cells :
  foldl (placeSection a1Notation fuel src)
    (foldl (placeSection a1Notation fuel src) cells l) l
  = foldl (placeSection a1Notation fuel src) cells l.
Proof.
  destruct (lookup_foldl_place fuel src l) as (v & _ & Hv).
  apply map_eq. intros k. rewrite !Hv. by destruct (v k).
Qed.

Lemma foldl_place_untargeted fuel (src : RichTextValue TextStyle)
    (l : list SectionSpec) cells k :
  targeted a1Notation l k = false →
  foldl (placeSection a1Notation fuel src) cells l !! k = cells !! k.
Proof.
  destruct (lookup_foldl_place fuel src l) as (v & Hv' & Hv). intros Hk.
  by rewrite Hv, (proj2 (Hv' k) Hk).
Qed.

End Loops.

(** ** Runs of [fillFormattedSections] *)

Section Fill.

Context {TextStyle : Type}.

Context (toUpperCase : str → str).
Context (a1Notation : str → option Rect).
Context (settings : Settings).

Implicit Types (s : App TextStyle) (sheet : SheetRef) (cells : Sheet TextStyle).
Implicit Types (template rolodex : Sheet TextStyle).

Lemma match_cons {A B : Type} (l : list A) (a b : B) :
  l ≠ [] → match l with [] => a | _ :: _ => b end = b.
Proof. by destruct l. Qed.

(** The run up to the search of the Rolodex. *)
Ltac to_search Hready :=
  let Hact := fresh "Hact" in
  let Htemplate := fresh "Htemplate" in
  let rm := fresh "rm" in
  let Hrm := fresh "Hrm" in
  let Hmuni := fresh "Hmuni" in
  let Hne := fresh "Hne" in
  let Hrolodex := fresh "Hrolodex" in
  destruct Hready as (Hact & Htemplate & (rm & Hrm & Hmuni) & Hne & Hrolodex);
  unfold fillFormattedSections;
  erewrite bind_Ret by reflexivity;
  unfold try_catch;
  erewrite bind_Ret by reflexivity;
  cbn [active withOutput]; rewrite Hact;
  erewrite bind_Ret by (eapply getSheetByName_Some; exact Htemplate);
  cbn beta iota;
  erewrite bind_Ret by (by apply getRangeA1_Some);
  erewrite bind_Ret by (eapply getDisplayValue_Ret; exact Htemplate);
  cbn [rangeRect]; rewrite Hmuni;
  rewrite match_cons by exact Hne;
  erewrite bind_Ret by reflexivity;
  erewrite bind_Ret by (eapply openById_Ret; exact Hrolodex);
  erewrite bind_Ret by (eapply getSheetByName_Some; exact Hrolodex);
  cbn beta iota.

(** The search, in the state that the run has reached. *)
Ltac search_result Hrolodex r Hfind Hcases :=
  match goal with
  | |- context [(findRowInSheet_ ?up ?sh ?m ?col ≫= _) ?s1] =>
      destruct (findRowInSheet_result up sh m col s1 _ Hrolodex)
        as (r & Hfind & Hcases); [done|first [done|lia]|];
      erewrite bind_Ret by exact Hfind
  end.

Lemma fill_not_found fuel s id template muni rolodex :
  ready a1Notation settings s id template muni rolodex →
  1 <= lastRow rolodex →
  (∀ row, 1 <= row →
     ¬ rowMatches toUpperCase rolodex ROLODEX_MUNI_COL muni row) →
  targetsResolve a1Notation →
  hasUi s = true →
  ∃ s' template',
    fillFormattedSections toUpperCase a1Notation settings fuel s = Ret tt s'
    ∧ alerts s' = alerts s ++ [AlertMuniNotFound muni]
    ∧ sheetAt (id, TEMPLATE_SHEET settings) s' = Some template'
    ∧ ∀ k, template' !! k
           = if targeted a1Notation SECTIONS k then None else template !! k.
Proof.
  intros Hready Hlast Hnone Hres Hui. to_search Hready.
  search_result Hrolodex r Hfind Hcases.
  destruct Hcases as [[-> _]|(Hr & Hm & _)]; 
    [|exfalso; apply (Hnone r); [lia|done]].
  cbn [Z.eqb Pos.eqb]. unfold clearTargets.
  match goal with |- context [(forEach SECTIONS ?f ≫= _) ?s1] =>
    destruct (forEach_clear a1Notation SECTIONS (id, TEMPLATE_SHEET settings)
                s1 template Hres) as (f' & template' & Hclear & Hsheet' & Hk);
      [exact Htemplate|] end.
  erewrite bind_Ret by exact Hclear.
  erewrite bind_Ret by (unfold alert; cbn [hasUi withFiles withOutput];
                        rewrite Hui; reflexivity).
  cbn beta iota. eexists _, template'. split; [reflexivity|].
  split; [done|]. split; [exact Hsheet'|exact Hk].
Qed.

Lemma rowMatches_lastRow rolodex colNum searchTerm row :
  rowMatches toUpperCase rolodex colNum searchTerm row → row <= lastRow rolodex.
Proof.
  intros [Hne _]. destruct (rolodex !! (row, colNum)) as [c|] eqn:Hc; [|done].
  by apply lastRow_bounds in Hc.
Qed.

(** The search finds the first row that matches. *)
Lemma search_first rolodex muni row r :
  1 <= row →
  rowMatches toUpperCase rolodex ROLODEX_MUNI_COL muni row →
  (∀ row', 1 <= row' < row →
     ¬ rowMatches toUpperCase rolodex ROLODEX_MUNI_COL muni row') →
  (r = -1 ∧ ∀ row, 1 <= row →
              ¬ rowMatches toUpperCase rolodex ROLODEX_MUNI_COL muni row)
  ∨ (1 <= r <= lastRow rolodex
     ∧ rowMatches toUpperCase rolodex ROLODEX_MUNI_COL muni r
     ∧ ∀ row, 1 <= row < r →
         ¬ rowMatches toUpperCase rolodex ROLODEX_MUNI_COL muni row) →
  r = row.
Proof.
  intros Hrow Hm Hfirst [[_ Hnone]|(Hr & Hmr & Hfirst')].
  - by destruct (Hnone row).
  - destruct (Z.lt_trichotomy r row) as [Hlt|[->|Hgt]]; [|done|].
    + destruct (Hfirst r); [lia|done].
    + destruct (Hfirst' row); [lia|done].
Qed.

Lemma fill_found fuel s id template muni rolodex row src :
  ready a1Notation settings s id template muni rolodex →
  1 <= row →
  rowMatches toUpperCase rolodex ROLODEX_MUNI_COL muni row →
  (∀ row', 1 <= row' < row →
     ¬ rowMatches toUpperCase rolodex ROLODEX_MUNI_COL muni row') →
  rolodex !! (row, ROLODEX_TEXT_COL) = Some (CellText src) →
  trim (rtText src) ≠ [] →
  (length (rtText src) < fuel)%nat →
  targetsResolve a1Notation →
  ∃ s',
    fillFormattedSections toUpperCase a1Notation settings fuel s = Ret tt s'
    ∧ alerts s' = alerts s
    ∧ sheetAt (id, TEMPLATE_SHEET settings) s'
      = Some (foldl (placeSection a1Notation fuel src) template SECTIONS).
Proof.
  intros Hready Hrow Hm Hfirst Hcell Htext Hfuel Hres.
  pose proof (rowMatches_lastRow _ _ _ _ Hm) as Hlast.
  to_search Hready. search_result Hrolodex r Hfind Hcases.
  apply (search_first _ _ row) in Hcases as ->; try done.
  destruct (Z.eqb_spec row (-1)) as [?|_]; [lia|].
  erewrite bind_Ret by reflexivity.
  erewrite bind_Ret by (by apply getRange_Ret).
  erewrite bind_Ret by (eapply getRichTextValue_text; [exact Hrolodex|exact Hcell]).
  cbn beta iota.
  erewrite bind_Ret; cycle 1.
  { erewrite bind_Ret; [reflexivity|].
    apply (lift_getText _ _ src), lookup_insert_eq. }
  rewrite bool_decide_eq_false_2 by done. cbn beta iota.
  erewrite bind_Ret by reflexivity.
  match goal with |- context [(forEach SECTIONS (fillSection _ _ ?sh ?rt) ≫= _) ?s1] =>
    destruct (forEach_fillSection a1Notation fuel sh rt src SECTIONS Hfuel Hres
                s1 template) as (s2 & Hloop & Hsheet2 & Hal2);
      [apply lookup_insert_eq|exact Htemplate|] end.
  erewrite bind_Ret by exact Hloop.
  eexists. split; [reflexivity|]. split; [exact Hal2|exact Hsheet2].
Qed.

(** The Rolodex tab holds no value: the search throws, the handler of
    [fillFormattedSections] reports it, and no cell is written. *)
Lemma fill_empty_rolodex fuel s id template muni rolodex :
  ready a1Notation settings s id template muni rolodex →
  lastRow rolodex = 0 →
  hasUi s = true →
  fillFormattedSections toUpperCase a1Notation settings fuel s
  = Ret tt
      (withAlerts (alerts s ++ [AlertError])
         (withOutput
            (output s ++ [(LevelLog, MsgStarting); (LevelLog, MsgLooking muni);
                          (LevelError, MsgUnexpected RangeRefused)]) s)).
Proof.
  intros Hready Hlast Hui. to_search Hready.
  erewrite bind_Raise by (eapply findRowInSheet_empty; [exact Hrolodex|done]).
  erewrite bind_Ret by reflexivity. unfold alert. cbn [hasUi withOutput].
  rewrite Hui. cbn [alerts output withOutput]. by rewrite <- !app_assoc.
Qed.

(** The municipality is found, but its row holds no text to extract. *)
Lemma fill_no_text fuel s id template muni rolodex row :
  ready a1Notation settings s id template muni rolodex →
  1 <= row →
  rowMatches toUpperCase rolodex ROLODEX_MUNI_COL muni row →
  (∀ row', 1 <= row' < row →
     ¬ rowMatches toUpperCase rolodex ROLODEX_MUNI_COL muni row') →
  match rolodex !! (row, ROLODEX_TEXT_COL) with
  | Some (CellText src) => trim (rtText src) = []
  | _ => True
  end →
  targetsResolve a1Notation →
  ∃ s' template',
    fillFormattedSections toUpperCase a1Notation settings fuel s = Ret tt s'
    ∧ alerts s' = alerts s
    ∧ last (output s') = Some (LevelWarn, MsgNoRichText muni)
    ∧ sheetAt (id, TEMPLATE_SHEET settings) s' = Some template'
    ∧ ∀ k, template' !! k
           = if targeted a1Notation SECTIONS k then None else template !! k.
Proof.
  intros Hready Hrow Hm Hfirst Hcell Hres.
  pose proof (rowMatches_lastRow _ _ _ _ Hm) as Hlast.
  to_search Hready. search_result Hrolodex r Hfind Hcases.
  apply (search_first _ _ row) in Hcases as ->; try done.
  destruct (Z.eqb_spec row (-1)) as [?|_]; [lia|].
  erewrite bind_Ret by reflexivity.
  erewrite bind_Ret by (by apply getRange_Ret).
  assert (∀ s1 : App TextStyle,
    sheetAt (id, TEMPLATE_SHEET settings) s1 = Some template →
    alerts s1 = alerts s →
    ∃ s' template',
      (clearTargets a1Notation (id, TEMPLATE_SHEET settings)
         ≫= λ _, warns (MsgNoRichText muni)) s1 = Ret tt s'
      ∧ alerts s' = alerts s
      ∧ last (output s') = Some (LevelWarn, MsgNoRichText muni)
      ∧ sheetAt (id, TEMPLATE_SHEET settings) s' = Some template'
      ∧ ∀ k, template' !! k
             = if targeted a1Notation SECTIONS k then None else template !! k)
    as Hclears.
  { intros s1 Hs1 Hal1. unfold clearTargets.
    destruct (forEach_clear a1Notation SECTIONS (id, TEMPLATE_SHEET settings)
                s1 template Hres Hs1) as (f' & template' & Hclear & Hsheet' & Hk).
    erewrite bind_Ret by exact Hclear.
    eexists _, template'. split; [reflexivity|]. split; [exact Hal1|].
    split; [apply last_snoc|]. split; [exact Hsheet'|exact Hk]. }
  destruct (rolodex !! (row, ROLODEX_TEXT_COL)) as [[src|d]|] eqn:Hc.
  - erewrite bind_Ret
      by (eapply getRichTextValue_text; [exact Hrolodex|exact Hc]).
    cbn beta iota.
    erewrite bind_Ret; cycle 1.
    { erewrite bind_Ret; [reflexivity|].
      apply (lift_getText _ _ src), lookup_insert_eq. }
    rewrite bool_decide_eq_true_2 by done. cbn beta iota.
    match goal with |- context [(clearTargets _ _ ≫= _) ?s1] =>
      destruct (Hclears s1) as (s' & template' & Hrun & Hrest); [done|done|] end.
    rewrite Hrun. by exists s', template'.
  - erewrite bind_Ret
      by (eapply getRichTextValue_other; [exact Hrolodex|exact Hc]).
    cbn beta iota. erewrite bind_Ret by reflexivity.
    match goal with |- context [(clearTargets _ _ ≫= _) ?s1] =>
      destruct (Hclears s1) as (s' & template' & Hrun & Hrest); [done|done|] end.
    rewrite Hrun. by exists s', template'.
  - erewrite bind_Ret
      by (eapply getRichTextValue_empty; [exact Hrolodex|exact Hc]).
    cbn beta iota.
    erewrite bind_Ret; cycle 1.
    { erewrite bind_Ret; [reflexivity|].
      apply (lift_getText _ _ {| rtText := []; rtRuns := [] |}), lookup_insert_eq. }
    rewrite bool_decide_eq_true_2 by done. cbn beta iota.
    match goal with |- context [(clearTargets _ _ ≫= _) ?s1] =>
      destruct (Hclears s1) as (s' & template' & Hrun & Hrest); [done|done|] end.
    rewrite Hrun. by exists s', template'.
Qed.

(** No municipality is selected: a dialog asks for one, and no cell is
    written. *)
Lemma fill_blank_municipality fuel s id template r :
  active s = Some id →
  sheetAt (id, TEMPLATE_SHEET settings) s = Some template →
  a1Notation (TEMPLATE_MUNI_A1 settings) = Some r →
  trim (displayOf (template !! (top r, left r))) = [] →
  hasUi s = true →
  fillFormattedSections toUpperCase a1Notation settings fuel s
  = Ret tt
      (withOutput (output s ++ [(LevelLog, MsgStarting);
                                (LevelLog, MsgNoMunicipality)])
         (withAlerts
            (alerts s ++ [AlertSelectMunicipality (TEMPLATE_MUNI_A1 settings)])
            s)).
Proof.
  intros Hact Htemplate Hr Hblank Hui. unfold fillFormattedSections.
  erewrite bind_Ret by reflexivity. unfold try_catch.
  erewrite bind_Ret by reflexivity. cbn [active withOutput]. rewrite Hact.
  erewrite bind_Ret by (eapply getSheetByName_Some; exact Htemplate).
  cbn beta iota.
  erewrite bind_Ret by (by apply getRangeA1_Some).
  erewrite bind_Ret by (eapply getDisplayValue_Ret; exact Htemplate).
  cbn [rangeRect]. rewrite Hblank. cbn beta iota.
  erewrite bind_Ret by (unfold alert; cbn [hasUi withOutput]; rewrite Hui;
                        reflexivity).
  cbn. by rewrite <- app_assoc.
Qed.

End Fill.

(** ** Runs of the edit handler *)

Section Handler.

Context {TextStyle : Type}.

Context (toUpperCase : str → str).
Context (a1Notation : str → option Rect).
Context (settings : Settings).

Implicit Types (s : App TextStyle) (sheet : SheetRef) (cells : Sheet TextStyle).

Lemma muniEditHandler_no_Raise fuel e s err s' :
  muniEditHandler toUpperCase a1Notation settings fuel e s ≠ Raise err s'.
Proof.
  unfold muniEditHandler. by intros (e0 & s0 & _ & Hh)%try_catch_Raise.
Qed.

(** An edit of another cell: nothing happens. *)
Lemma muniEditHandler_elsewhere fuel e s rg :
  e ≫= range = Some rg →
  getName (editedSheet rg) ≠ TEMPLATE_SHEET settings
  ∨ editedA1 rg ≠ TEMPLATE_MUNI_A1 settings →
  muniEditHandler toUpperCase a1Notation settings fuel e s = Ret tt s.
Proof.
  intros Hrg Hother. unfold muniEditHandler, try_catch. rewrite Hrg.
  destruct Hother as [Hname|Ha1].
  - by rewrite (bool_decide_eq_true_2 _ Hname).
  - rewrite (bool_decide_eq_true_2 (editedA1 rg ≠ _) Ha1). by rewrite orb_true_r.
Qed.

(** In every other case the handler writes to the console. *)
Lemma muniEditHandler_logs fuel e s s' :
  (∀ rg, e ≫= range = Some rg →
     getName (editedSheet rg) = TEMPLATE_SHEET settings
     ∧ editedA1 rg = TEMPLATE_MUNI_A1 settings) →
  stateAfter (muniEditHandler toUpperCase a1Notation settings fuel e s)
  = Some s' →
  ∃ line lines, output s' = output s ++ line :: lines.
Proof.
  intros Hon. unfold muniEditHandler.
  assert (∀ (m : Script TextStyle unit) line s1,
            stateAfter
              (try_catch (logs line ≫= λ _, m)
                 (λ err, errors (MsgHandlerError err)) s) = Some s1 →
            keeps (λ _ _, True) m →
            ∃ line' lines, output s1 = output s ++ line' :: lines) as Hlogs.
  { intros m line s1 Hs1 Hm. revert Hs1. unfold try_catch.
    erewrite bind_Ret by reflexivity.
    set (s0 := withOutput (output s ++ [(LevelLog, line)]) s).
    destruct (m s0) as [[] s2|e2 s2|] eqn:Hm2; [| |done].
    - intros [= <-]. destruct (Hm s0 s2) as (_ & _ & _ & [lines Ho] & _);
        [by rewrite Hm2|].
      exists (LevelLog, line), lines. rewrite Ho. unfold s0.
      cbn [output withOutput]. by rewrite <- app_assoc.
    - intros [= <-]. destruct (Hm s0 s2) as (_ & _ & _ & [lines Ho] & _);
        [by rewrite Hm2|].
      exists (LevelLog, line), (lines ++ [(LevelError, MsgHandlerError e2)]).
      cbn [output withOutput]. rewrite Ho. unfold s0. cbn [output withOutput].
      by rewrite <- !app_assoc. }
  destruct (e ≫= range) as [rg|] eqn:Hrg.
  - destruct (Hon rg eq_refl) as [Hname Ha1].
    rewrite (bool_decide_eq_false_2 (getName _ ≠ _)) by (by intros ?).
    rewrite (bool_decide_eq_false_2 (editedA1 _ ≠ _)) by (by intros ?).
    cbn [orb]. destruct (notBlank _).
    + intros Hs'. eapply Hlogs; [exact Hs'|].
      intros s1 s2 Hs2. apply fillFormattedSections_evolves in Hs2.
      by eapply evolves_mono; [|exact Hs2].
    + intros Hs'. eapply Hlogs; [exact Hs'|].
      eapply keeps_mono; [|apply keeps_clearTargets]. done.
  - unfold try_catch, logs, console_. intros [= <-].
    by exists (LevelLog, MsgMalformedEvent), [].
Qed.

(** The municipality is cleared: the targets on the edited sheet are
    cleared, whether or not there is a user interface. *)
Lemma muniEditHandler_cleared fuel e s rg cells :
  e ≫= range = Some rg →
  getName (editedSheet rg) = TEMPLATE_SHEET settings →
  editedA1 rg = TEMPLATE_MUNI_A1 settings →
  notBlank (e ≫= value) = false →
  sheetAt (editedSheet rg) s = Some cells →
  targetsResolve a1Notation →
  ∃ f cells',
    muniEditHandler toUpperCase a1Notation settings fuel e s
    = Ret tt (withFiles f
                (withOutput
                   (output s ++ [(LevelLog,
                                  MsgMuniCleared (TEMPLATE_MUNI_A1 settings))])
                   s))
    ∧ sheetAt (editedSheet rg)
        (withFiles f
           (withOutput
              (output s ++ [(LevelLog,
                             MsgMuniCleared (TEMPLATE_MUNI_A1 settings))])
              s))
      = Some cells'
    ∧ ∀ k, cells' !! k
           = if targeted a1Notation SECTIONS k then None else cells !! k.
Proof.
  intros Hrg Hname Ha1 Hblank Hsheet Hres. unfold muniEditHandler, try_catch.
  rewrite Hrg, Hblank.
  rewrite (bool_decide_eq_false_2 (getName _ ≠ _)) by (by intros ?).
  rewrite (bool_decide_eq_false_2 (editedA1 _ ≠ _)) by (by intros ?).
  cbn [orb]. erewrite bind_Ret by reflexivity. unfold clearTargets.
  match goal with |- context [forEach SECTIONS ?f ?s1] =>
    destruct (forEach_clear a1Notation SECTIONS (editedSheet rg)
                s1 cells Hres) as (f' & cells' & Hclear & Hsheet' & Hk);
      [exact Hsheet|] end.
  rewrite Hclear. by exists f', cells'.
Qed.

End Handler.

(** ** Runs of [disableMuniAuto] and [enableMuniAuto] *)

Section TriggerRuns.

Context {TextStyle : Type}.

Context (settings : Settings).

Implicit Types (s : App TextStyle) (ts : gmap positive Trigger).

Lemma disableMuniAuto_run s :
  disableMuniAuto s
  = if bool_decide (handlerInstalled (triggers s)) then
      if hasUi s then
        Ret tt
          (withAlerts (alerts s ++ [AlertDisabled])
             (withOutput (output s ++ [(LevelLog, MsgTriggerDisabled)])
                (withTriggers (otherTriggers (triggers s)) s)))
      else
        Raise NoUi
          (withOutput (output s ++ [(LevelLog, MsgTriggerDisabled)])
             (withTriggers (otherTriggers (triggers s)) s))
    else Ret tt s.
Proof.
  unfold disableMuniAuto. cbn zeta.
  change (getProjectTriggers ≫= (λ allTriggers,
            forEachWith allTriggers deleteIfHandler false ≫= ?k))
    with ((getProjectTriggers ≫= λ allTriggers,
             forEachWith allTriggers deleteIfHandler false) ≫= k).
  erewrite bind_Ret by apply disableMuniAuto_loop.
  case_bool_decide as Hin.
  - erewrite bind_Ret by reflexivity. unfold alert.
    cbn [hasUi withOutput withTriggers]. by destruct (hasUi s).
  - by rewrite otherTriggers_none, withTriggers_same by done.
Qed.

Lemma otherTriggers_insert ts k id :
  otherTriggers (<[k := editTrigger id]> ts) = otherTriggers (delete k ts).
Proof.
  unfold otherTriggers. apply map_filter_insert_False. cbn [snd]. by intros ?.
Qed.

Lemma otherTriggers_idemp ts : otherTriggers (otherTriggers ts) = otherTriggers ts.
Proof. apply otherTriggers_none, otherTriggers_not_installed. Qed.

Lemma fresh_trigger ts : ts !! fresh (dom ts) = None.
Proof. apply not_elem_of_dom, is_fresh. Qed.

Lemma installed_insert ts k id : handlerInstalled (<[k := editTrigger id]> ts).
Proof. exists k, (editTrigger id). by rewrite lookup_insert_eq. Qed.

Lemma enableMuniAuto_run s id :
  active s = Some id → hasUi s = true →
  enableMuniAuto settings s
  = Ret tt
      (withAlerts
         (alerts s
            ++ (if bool_decide (handlerInstalled (triggers s))
                then [AlertDisabled] else [])
            ++ [AlertEnabled (TEMPLATE_MUNI_A1 settings)])
         (withOutput
            (output s
               ++ (if bool_decide (handlerInstalled (triggers s))
                   then [(LevelLog, MsgTriggerDisabled)] else [])
               ++ [(LevelLog, MsgTriggerEnabled)])
            (withTriggers
               (<[fresh (dom (otherTriggers (triggers s))) := editTrigger id]>
                  (otherTriggers (triggers s))) s))).
Proof.
  intros Hact Hui. unfold enableMuniAuto.
  erewrite bind_Ret by reflexivity. rewrite Hact.
  rewrite bind_run, disableMuniAuto_run, Hui.
  case_bool_decide as Hin.
  - erewrite bind_Ret by reflexivity. erewrite bind_Ret by reflexivity.
    unfold alert. cbn [hasUi withAlerts withOutput withTriggers]. rewrite Hui.
    cbn [alerts output triggers withAlerts withOutput withTriggers].
    by rewrite <- !app_assoc.
  - erewrite bind_Ret by reflexivity. erewrite bind_Ret by reflexivity.
    unfold alert. cbn [hasUi withAlerts withOutput withTriggers]. rewrite Hui.
    cbn [alerts output triggers withAlerts withOutput withTriggers app].
    by rewrite otherTriggers_none by done.
Qed.

End TriggerRuns.

End ScriptRuns.

(** ** Runs within the budget *)

Module ScriptBudget.

Import Script ScriptFacts ScriptRuns.

Section Settling.

Context {TextStyle : Type}.

Implicit Types (s : App TextStyle) (sheet : SheetRef) (cells : Sheet TextStyle).

Lemma settles_ret {A : Type} (a : A) : settles (mret a : Script TextStyle A).
Proof. by intros s. Qed.

Lemma settles_bind {A B : Type} (m : Script TextStyle A)
    (f : A → Script TextStyle B) :
  settles m → (∀ a, settles (f a)) → settles (m ≫= f).
Proof.
  intros Hm Hf s. rewrite bind_run. specialize (Hm s).
  destruct (m s) as [a s1|e s1|]; [apply Hf|done|done].
Qed.

Lemma settles_try_catch {A : Type} (m : Script TextStyle A) h :
  settles m → (∀ e, settles (h e)) → settles (try_catch m h).
Proof.
  intros Hm Hh s. unfold try_catch. specialize (Hm s).
  destruct (m s) as [a s1|e s1|]; [done|apply Hh|done].
Qed.

Lemma settles_forEach {A : Type} (l : list A) (f : A → Script TextStyle unit) :
  (∀ x, settles (f x)) → settles (forEach l f).
Proof.
  intros Hf. induction l as [|x l IH]; cbn [forEach]; [apply settles_ret|].
  apply settles_bind; [apply Hf|]. by intros _.
Qed.

Lemma settles_console level m : settles (console_ (TextStyle:=TextStyle) level m).
Proof. by intros s. Qed.

Lemma settles_alert a : settles (alert (TextStyle:=TextStyle) a).
Proof. intros s. unfold alert. by destruct (hasUi s). Qed.

Lemma settles_getActive : settles (getActive (TextStyle:=TextStyle)).
Proof. by intros s. Qed.

Lemma settles_openById id : settles (openById (TextStyle:=TextStyle) id).
Proof. intros s. unfold openById. by destruct (files s !! id). Qed.

Lemma settles_getSheetByName ss nm :
  settles (getSheetByName (TextStyle:=TextStyle) ss nm).
Proof.
  intros s. unfold getSheetByName. destruct ss as [id|]; [|done].
  by destruct (files s !! id).
Qed.

Lemma settles_readSheet sheet : settles (readSheet (TextStyle:=TextStyle) sheet).
Proof. intros s. unfold readSheet. by destruct (sheetAt sheet s). Qed.

Lemma settles_writeSheet sheet cells : settles (writeSheet sheet cells).
Proof.
  intros s. unfold writeSheet. destruct (files s !! sheet.1) as [book|]; [|done].
  by destruct (book !! sheet.2).
Qed.

Lemma settles_getRange sheet row column n m :
  settles (getRange (TextStyle:=TextStyle) sheet row column n m).
Proof. intros s. unfold getRange. by destruct (_ && _). Qed.

Lemma settles_getRangeA1 a1Notation sheet a1 :
  settles (getRangeA1 (TextStyle:=TextStyle) a1Notation sheet a1).
Proof. intros s. unfold getRangeA1. by destruct (a1Notation a1). Qed.

Lemma settles_lift_alloc (o : HostObject TextStyle) : settles (lift (alloc o)).
Proof. intros s. by rewrite lift_alloc. Qed.

Lemma settles_lift_getText rt : settles (lift (getText (TextStyle:=TextStyle) rt)).
Proof.
  intros s. unfold lift, getText. cbn [heap].
  by destruct (objects s !! rt) as [[]|].
Qed.

Lemma settles_lift_read value :
  settles (lift (λ w : World TextStyle,
                   match heap w !! value with
                   | Some (ObjRichText v) => Done v w
                   | _ => Throw TypeError w
                   end)).
Proof.
  intros s. unfold lift. cbn [heap].
  by destruct (objects s !! value) as [[]|].
Qed.

Lemma settles_at {A : Type} (m : Script TextStyle A) s :
  settles m → m s ≠ Starved.
Proof. intros Hm. apply Hm. Qed.

End Settling.

Ltac settles_crunch :=
  unfold logs, warns, errors, clearTargets, clearContent, setRichTextValue,
    getRichTextValue, getDisplayValue, getDisplayValues, getLastRow,
    findRowInSheet_;
  repeat first
    [ apply settles_ret | apply settles_console | apply settles_alert
    | apply settles_getActive | apply settles_openById
    | apply settles_getSheetByName | apply settles_readSheet
    | apply settles_writeSheet | apply settles_getRange
    | apply settles_getRangeA1 | apply settles_lift_alloc
    | apply settles_lift_getText | apply settles_lift_read
    | apply settles_forEach; intros ?
    | apply settles_bind; [|intros ?]
    | match goal with
      | |- settles (match ?x with _ => _ end) => destruct x
      | |- settles (if ?b then _ else _) => destruct b
      end ].

Section Budget.

Context {TextStyle : Type}.

Context (toUpperCase : str → str).
Context (a1Notation : str → option Rect).
Context (settings : Settings).

Implicit Types (s : App TextStyle) (sheet : SheetRef) (cells : Sheet TextStyle).

Lemma settles_clearTargets sheet :
  settles (clearTargets (TextStyle:=TextStyle) a1Notation sheet).
Proof. settles_crunch. Qed.

Lemma settles_findRowInSheet sheet searchTerm colNum :
  settles (findRowInSheet_ (TextStyle:=TextStyle) toUpperCase sheet searchTerm
             colNum).
Proof. settles_crunch. Qed.

(** One section, for a source that is shorter than the budget. *)
Lemma fillSection_settles fuel sheet richTextValue src sec s :
  objects s !! richTextValue = Some (ObjRichText src) →
  (length (rtText src) < fuel)%nat →
  fillSection a1Notation fuel sheet richTextValue sec s ≠ Starved.
Proof.
  intros Hsrc Hfuel. unfold fillSection.
  erewrite bind_Ret by reflexivity.
  rewrite bind_run, (lift_extract _ _ src) by done.
  pose proof (effectOf_total fuel src (start sec) (stop sec) Hfuel) as Htotal.
  destruct (effectOf fuel src (start sec) (stop sec)) as [|lines|lines res];
    [done| |]; cbn beta iota zeta.
  - apply settles_at. settles_crunch.
  - apply settles_at. settles_crunch.
Qed.

Lemma forEach_fillSection_settles fuel sheet richTextValue src
    (l : list SectionSpec) :
  (length (rtText src) < fuel)%nat →
  (∀ sec, sec ∈ l → sec ∈ SECTIONS) →
  ∀ s, objects s !! richTextValue = Some (ObjRichText src) →
       forEach l (fillSection a1Notation fuel sheet richTextValue) s ≠ Starved.
Proof.
  intros Hfuel. induction l as [|sec l IH]; intros Hl s Hsrc; cbn [forEach];
    [done|].
  rewrite bind_run.
  pose proof (fillSection_settles fuel sheet richTextValue src sec s Hsrc Hfuel)
    as Hsec.
  destruct (fillSection _ _ _ _ sec s) as [[] s1|e s1|] eqn:Hrun; [|done|done].
  apply IH; [intros sec' Hsec'; apply Hl; by right|].
  destruct (keeps_fillSection a1Notation fuel sheet richTextValue sec
              (Hl sec (proj2 (elem_of_cons _ _ _) (or_introl eq_refl))) s s1)
    as (_ & _ & _ & _ & _ & Hobj & _); [by rewrite Hrun|].
  by apply Hobj.
Qed.

Lemma bind_settles_at {A B : Type} (m : Script TextStyle A)
    (f : A → Script TextStyle B) s :
  settles m → (∀ a s1, m s = Ret a s1 → f a s1 ≠ Starved) →
  (m ≫= f) s ≠ Starved.
Proof.
  intros Hm Hf. rewrite bind_run. specialize (Hm s).
  destruct (m s) as [a s1|e s1|]; [by apply Hf|done|done].
Qed.

Lemma try_catch_settles_at {A : Type} (m : Script TextStyle A) h s :
  m s ≠ Starved → (∀ e, settles (h e)) → try_catch m h s ≠ Starved.
Proof.
  intros Hm Hh. unfold try_catch.
  destruct (m s) as [a s1|e s1|]; [done|apply Hh|done].
Qed.

(** A step that writes to no cell keeps the texts as short as they are. *)
Lemma textsBelow_step {A : Type} fuel (m : Script TextStyle A) s a s1 :
  m s = Ret a s1 → keeps (λ _ _, False) m →
  textsBelow fuel s → textsBelow fuel s1.
Proof.
  intros Hrun Hm Hs sheet cells k v Hsheet Hk.
  apply (Hs sheet cells k v); [|done]. rewrite <- Hsheet. symmetry.
  eapply evolves_other_sheet; [apply (Hm s); by rewrite Hrun|].
  by intros ? ?.
Qed.

Lemma textsBelowb_true fuel s : textsBelowb fuel s = true → textsBelow fuel s.
Proof.
  unfold textsBelowb, textsBelow, sheetAt. intros Hall sheet cells k v Hsheet Hk.
  destruct (files s !! sheet.1) as [book|] eqn:Hbook; [|done]. cbn in Hsheet.
  rewrite forallb_forall in Hall.
  specialize (Hall (sheet.1, book)). cbn [snd] in Hall.
  rewrite forallb_forall in Hall.
  specialize (Hall (proj1 (list_elem_of_In _ _)
                      (proj2 (elem_of_map_to_list _ _ _) Hbook))
                (sheet.2, cells)).
  cbn [snd] in Hall. rewrite forallb_forall in Hall.
  specialize (Hall (proj1 (list_elem_of_In _ _)
                      (proj2 (elem_of_map_to_list _ _ _) Hsheet))
                (k, CellText v)
                (proj1 (list_elem_of_In _ _)
                   (proj2 (elem_of_map_to_list _ _ _) Hk))).
  cbn [snd] in Hall. by apply Nat.ltb_lt in Hall.
Qed.

Lemma getRichTextValue_Some rg s rt s1 :
  getRichTextValue rg s = Ret (Some rt) s1 →
  ∃ v, objects s1 !! rt = Some (ObjRichText v)
       ∧ (rtText v = []
          ∨ ∃ cells k, sheetAt (rangeSheet rg) s = Some cells
                       ∧ cells !! k = Some (CellText v)).
Proof.
  unfold getRichTextValue. rewrite bind_run. unfold readSheet.
  destruct (sheetAt (rangeSheet rg) s) as [cells|] eqn:Hsheet; [|done].
  destruct (cells !! _) as [[v|d]|] eqn:Hcell; [| done |].
  - erewrite bind_Ret by apply lift_alloc. intros [= <- <-].
    exists v. split; [apply lookup_insert_eq|]. right. by eexists cells, _.
  - erewrite bind_Ret by apply lift_alloc. intros [= <- <-].
    eexists. split; [apply lookup_insert_eq|]. by left.
Qed.

Ltac budget_step Hinv a s1 :=
  apply bind_settles_at; [settles_crunch|];
  let Hstep := fresh "Hstep" in
  intros a s1 Hstep;
  apply (textsBelow_step _ _ _ _ _ Hstep) in Hinv; [|keeps_crunch].

(** With a budget above the length of every text of the spreadsheets,
    [fillFormattedSections] does not exhaust it. *)
Lemma fillFormattedSections_settles fuel s :
  textsBelow fuel s →
  fillFormattedSections toUpperCase a1Notation settings fuel s ≠ Starved.
Proof.
  intros Hinv. unfold fillFormattedSections.
  budget_step Hinv u1 s1.
  apply try_catch_settles_at; [|intros e; settles_crunch].
  budget_step Hinv ss s2. budget_step Hinv templateSheet s3.
  destruct templateSheet as [templateSheet|];
    [|apply settles_at; settles_crunch].
  budget_step Hinv rg s4. budget_step Hinv displayValue s5.
  destruct (trim displayValue) as [|c muni];
    [apply settles_at; settles_crunch|].
  budget_step Hinv u2 s6. budget_step Hinv book s7.
  budget_step Hinv rolodexSheet s8.
  destruct rolodexSheet as [rolodexSheet|];
    [|apply settles_at; settles_crunch].
  apply bind_settles_at; [apply settles_findRowInSheet|].
  intros muniRow s9 Hfind.
  apply (textsBelow_step _ _ _ _ _ Hfind) in Hinv; [|keeps_crunch].
  destruct (muniRow =? -1); [apply settles_at; settles_crunch|].
  budget_step Hinv u3 s10. budget_step Hinv rg2 s11.
  apply bind_settles_at; [settles_crunch|]. intros richTextValue s12 Hrich.
  destruct richTextValue as [rt|]; [|apply settles_at; settles_crunch].
  destruct (getRichTextValue_Some _ _ _ _ Hrich) as (v & Hrt & Hv).
  erewrite bind_Ret; cycle 1.
  { erewrite bind_Ret; [reflexivity|]. by apply (lift_getText _ _ v). }
  case_bool_decide as Hblank; [apply settles_at; settles_crunch|].
  destruct Hv as [Hv|(cells & k & Hsheet & Hk)]; [by rewrite Hv in Hblank|].
  erewrite bind_Ret by reflexivity. rewrite bind_run.
  match goal with |- context [forEach SECTIONS ?f ?s0] =>
    pose proof (forEach_fillSection_settles fuel templateSheet rt v SECTIONS
                  (Hinv _ _ _ _ Hsheet Hk) (λ _ H, H) s0 Hrt) as Hloop;
    destruct (forEach SECTIONS f s0) as [[] s13|e s13|] end; done.
Qed.

(** The same for the edit handler, which lets no exception through: it
    always completes. *)
Lemma muniEditHandler_completes fuel e s :
  textsBelow fuel s →
  ∃ s', muniEditHandler toUpperCase a1Notation settings fuel e s = Ret tt s'.
Proof.
  intros Hinv.
  assert (muniEditHandler toUpperCase a1Notation settings fuel e s ≠ Starved)
    as Hsettles.
  { unfold muniEditHandler.
    apply try_catch_settles_at; [|intros err; settles_crunch].
    destruct (e ≫= range) as [rg|]; [|apply settles_at; settles_crunch].
    destruct (_ || _); [apply settles_at; settles_crunch|].
    destruct (notBlank _); [|apply settles_at; settles_crunch].
    erewrite bind_Ret by reflexivity. by apply fillFormattedSections_settles. }
  pose proof (muniEditHandler_no_Raise toUpperCase a1Notation settings fuel e s)
    as Hraise.
  destruct (muniEditHandler _ _ _ _ e s) as [[] s'|err s'|]; [|by destruct (Hraise err s')|done].
  by exists s'.
Qed.

End Budget.

End ScriptBudget.

(** ** The properties of the script *)

Module ScriptProperties.

Import Script ScriptFacts ScriptRuns ScriptBudget.

Section Properties.

Context {TextStyle : Type}.

Context (toUpperCase : str → str).
Context (a1Notation : str → option Rect).
Context (settings : Settings).

Implicit Types (s : App TextStyle) (sheet : SheetRef) (cells : Sheet TextStyle).
Implicit Types (template rolodex : Sheet TextStyle).

(** X1. On a sheet that holds a value, [findRowInSheet_] completes and
    leaves the state as it is. It returns -1 exactly when no row shows the
    search term in the column, apart from case and from white space around
    the value of the cell; otherwise it returns the first such row, which
    lies between 1 and the last row of the sheet. *)
Theorem X1_findRowInSheet_first_match sheet searchTerm colNum s cells :
  sheetAt sheet s = Some cells → 1 <= colNum → 1 <= lastRow cells →
  ∃ r,
    findRowInSheet_ toUpperCase sheet searchTerm colNum s = Ret r s
    ∧ (r = -1 ↔
         ∀ row, 1 <= row →
           ¬ rowMatches toUpperCase cells colNum searchTerm row)
    ∧ (r ≠ -1 →
         1 <= r <= lastRow cells
         ∧ rowMatches toUpperCase cells colNum searchTerm r
         ∧ ∀ row, 1 <= row < r →
             ¬ rowMatches toUpperCase cells colNum searchTerm row).
Proof.
  intros Hsheet Hcol Hlast.
  destruct (findRowInSheet_result toUpperCase sheet searchTerm colNum s cells)
    as (r & Hrun & [[-> Hnone]|(Hr & Hm & Hfirst)]); try done.
  - exists (-1). split; [done|]. split; [done|]. by intros [].
  - exists r. split; [done|]. split; [|done]. split.
    + intros ->. lia.
    + intros Hnone. destruct (Hnone r); [lia|done].
Qed.

(** X2. On a sheet that holds no value [findRowInSheet_] does not return
    -1: the last row is 0, the range asked for has no rows, and [getRange]
    throws. *)
Theorem X2_findRowInSheet_empty_sheet sheet searchTerm colNum s :
  sheetAt sheet s = Some ∅ →
  findRowInSheet_ toUpperCase sheet searchTerm colNum s = Raise RangeRefused s.
Proof.
  intros Hsheet. eapply findRowInSheet_empty; [exact Hsheet|].
  apply lastRow_empty.
Qed.

(** X3. However [fillFormattedSections] ends, it has written to no cell
    but those of the targets of SECTIONS on the template sheet of the
    active spreadsheet: every other cell of every sheet is as before, no
    sheet has appeared or gone, the triggers are as before, the objects
    that were there are unchanged, and the console and the dialogs have
    only grown. *)
Theorem X3_fill_writes_targets_only fuel s s' :
  stateAfter (fillFormattedSections toUpperCase a1Notation settings fuel s)
  = Some s' →
  evolves (λ sheet k, active s = Some sheet.1
                      ∧ sheet.2 = TEMPLATE_SHEET settings
                      ∧ inTarget a1Notation k) s s'.
Proof. apply fillFormattedSections_evolves. Qed.

(** X4. [fillFormattedSections] catches every exception of its body; one
    leaves it only where the script runs without a user interface, and
    then it is the exception of the dialog of its own handler. *)
Theorem X4_fill_throws_only_without_ui fuel s e s' :
  fillFormattedSections toUpperCase a1Notation settings fuel s = Raise e s' →
  e = NoUi ∧ hasUi s = false.
Proof.
  intros Hrun. destruct (fillFormattedSections_Raise _ _ _ _ _ _ _ Hrun) as [-> Hui].
  split; [done|].
  destruct (fillFormattedSections_evolves toUpperCase a1Notation settings fuel s s')
    as (Hui' & _); [by rewrite Hrun|]. congruence.
Qed.

(** X5. A municipality that no row of the Rolodex shows: every cell of
    every target is cleared, every other cell of the template sheet is
    kept, and one dialog says that the municipality was not found. *)
Theorem X5_unknown_municipality fuel s id template muni rolodex :
  ready a1Notation settings s id template muni rolodex →
  1 <= lastRow rolodex →
  (∀ row, 1 <= row →
     ¬ rowMatches toUpperCase rolodex ROLODEX_MUNI_COL muni row) →
  targetsResolve a1Notation →
  hasUi s = true →
  ∃ s' template',
    fillFormattedSections toUpperCase a1Notation settings fuel s = Ret tt s'
    ∧ alerts s' = alerts s ++ [AlertMuniNotFound muni]
    ∧ sheetAt (id, TEMPLATE_SHEET settings) s' = Some template'
    ∧ (∀ k, inTarget a1Notation k → template' !! k = None)
    ∧ (∀ k, ¬ inTarget a1Notation k → template' !! k = template !! k).
Proof.
  intros Hready Hlast Hnone Hres Hui.
  destruct (fill_not_found toUpperCase a1Notation settings fuel s id template
              muni rolodex) as (s' & template' & Hrun & Hal & Hsheet & Hk);
    try done.
  exists s', template'. split_and!; try done.
  - intros k Hin%targeted_inTarget. by rewrite Hk, Hin.
  - intros k Hin. rewrite Hk.
    destruct (targeted a1Notation SECTIONS k) eqn:Ht; [|done].
    by apply targeted_inTarget in Ht.
Qed.

(** X6. The municipality is found and its row holds text: the run
    completes without a dialog; the target of every section holds what
    [extractRichTextSection_] returns for the text and the markers of the
    section, and is empty when that is [null]; every other cell of the
    template sheet is kept. The targets are taken to be apart. *)
Theorem X6_sections_reach_targets fuel s id template muni rolodex row src :
  ready a1Notation settings s id template muni rolodex →
  1 <= row →
  rowMatches toUpperCase rolodex ROLODEX_MUNI_COL muni row →
  (∀ row', 1 <= row' < row →
     ¬ rowMatches toUpperCase rolodex ROLODEX_MUNI_COL muni row') →
  rolodex !! (row, ROLODEX_TEXT_COL) = Some (CellText src) →
  trim (rtText src) ≠ [] →
  (length (rtText src) < fuel)%nat →
  targetsResolve a1Notation →
  targetsApart a1Notation →
  ∃ s' template',
    fillFormattedSections toUpperCase a1Notation settings fuel s = Ret tt s'
    ∧ alerts s' = alerts s
    ∧ sheetAt (id, TEMPLATE_SHEET settings) s' = Some template'
    ∧ (∀ sec r k,
         sec ∈ SECTIONS → a1Notation (targetA1 sec) = Some r →
         inRect r k = true →
         template' !! k = sectionValue fuel src sec)
    ∧ (∀ k, ¬ inTarget a1Notation k → template' !! k = template !! k).
Proof.
  intros Hready Hrow Hm Hfirst Hcell Htext Hfuel Hres Hapart.
  destruct (fill_found toUpperCase a1Notation settings fuel s id template muni
              rolodex row src) as (s' & Hrun & Hal & Hsheet); try done.
  eexists s', _. split_and!; try done.
  - intros sec r k Hsec Hr Hk. apply (lookup_placed _ _ _ _ _ _ r); try done.
    intros sec1 sec2 r1 r2 ? ? ? ? ? ?. by apply (Hapart sec1 sec2 r1 r2 k).
  - intros k Hin. apply foldl_place_untargeted.
    destruct (targeted a1Notation SECTIONS k) eqn:Ht; [|done].
    by apply targeted_inTarget in Ht.
Qed.

(** X7. A Rolodex tab that holds no value: the search throws, which
    [fillFormattedSections] catches; it reports an error in a dialog and
    on the console, and the spreadsheets are as before, so the targets keep
    what they held. *)
Theorem X7_empty_rolodex_tab fuel s id template muni :
  ready a1Notation settings s id template muni ∅ →
  hasUi s = true →
  ∃ s',
    fillFormattedSections toUpperCase a1Notation settings fuel s = Ret tt s'
    ∧ files s' = files s
    ∧ alerts s' = alerts s ++ [AlertError]
    ∧ last (output s') = Some (LevelError, MsgUnexpected RangeRefused).
Proof.
  intros Hready Hui.
  rewrite (fill_empty_rolodex toUpperCase a1Notation settings fuel s id template
             muni ∅ Hready lastRow_empty Hui).
  eexists. split; [reflexivity|]. split; [done|]. split; [done|].
  cbn [output withAlerts withOutput]. by rewrite last_app.
Qed.

(** X8. The municipality is found, but the cell of its text is empty,
    holds a value that is not text, or holds blank text: every target is
    cleared, the other cells of the template sheet are kept, no dialog is
    shown, and the console ends with a warning. *)
Theorem X8_no_text_clears_targets fuel s id template muni rolodex row :
  ready a1Notation settings s id template muni rolodex →
  1 <= row →
  rowMatches toUpperCase rolodex ROLODEX_MUNI_COL muni row →
  (∀ row', 1 <= row' < row →
     ¬ rowMatches toUpperCase rolodex ROLODEX_MUNI_COL muni row') →
  match rolodex !! (row, ROLODEX_TEXT_COL) with
  | Some (CellText src) => trim (rtText src) = []
  | _ => True
  end →
  targetsResolve a1Notation →
  ∃ s' template',
    fillFormattedSections toUpperCase a1Notation settings fuel s = Ret tt s'
    ∧ alerts s' = alerts s
    ∧ last (output s') = Some (LevelWarn, MsgNoRichText muni)
    ∧ sheetAt (id, TEMPLATE_SHEET settings) s' = Some template'
    ∧ (∀ k, inTarget a1Notation k → template' !! k = None)
    ∧ (∀ k, ¬ inTarget a1Notation k → template' !! k = template !! k).
Proof.
  intros Hready Hrow Hm Hfirst Hcell Hres.
  destruct (fill_no_text toUpperCase a1Notation settings fuel s id template
              muni rolodex row)
    as (s' & template' & Hrun & Hal & Hout & Hsheet & Hk); try done.
  exists s', template'. split_and!; try done.
  - intros k Hin%targeted_inTarget. by rewrite Hk, Hin.
  - intros k Hin. rewrite Hk.
    destruct (targeted a1Notation SECTIONS k) eqn:Ht; [|done].
    by apply targeted_inTarget in Ht.
Qed.

(** X9. No municipality is selected (the cell is empty or blank): a
    dialog asks for one, and nothing is written: the spreadsheets are as
    before. *)
Theorem X9_no_municipality_selected fuel s id template r :
  active s = Some id →
  sheetAt (id, TEMPLATE_SHEET settings) s = Some template →
  a1Notation (TEMPLATE_MUNI_A1 settings) = Some r →
  trim (displayOf (template !! (top r, left r))) = [] →
  hasUi s = true →
  ∃ s',
    fillFormattedSections toUpperCase a1Notation settings fuel s = Ret tt s'
    ∧ files s' = files s
    ∧ alerts s'
      = alerts s ++ [AlertSelectMunicipality (TEMPLATE_MUNI_A1 settings)].
Proof.
  intros Hact Htemplate Hr Hblank Hui.
  rewrite (fill_blank_municipality toUpperCase a1Notation settings fuel s id
             template r) by done.
  by eexists.
Qed.

(** X10. [muniEditHandler] lets no exception through, whatever the event
    and the state, with or without a user interface. *)
Theorem X10_handler_never_throws fuel e s err s' :
  muniEditHandler toUpperCase a1Notation settings fuel e s ≠ Raise err s'.
Proof. apply muniEditHandler_no_Raise. Qed.

(** X11. [muniEditHandler] completes and leaves the state exactly as it
    was, without a line on the console, if and only if the event has a
    range that is not the cell of the municipality on the template sheet. *)
Theorem X11_handler_ignores_other_edits fuel e s :
  muniEditHandler toUpperCase a1Notation settings fuel e s = Ret tt s
  ↔ ∃ rg, e ≫= range = Some rg
          ∧ (getName (editedSheet rg) ≠ TEMPLATE_SHEET settings
             ∨ editedA1 rg ≠ TEMPLATE_MUNI_A1 settings).
Proof.
  split.
  - intros Hrun.
    destruct (e ≫= range) as [rg|] eqn:Hrg.
    + exists rg. split; [done|].
      destruct (decide (getName (editedSheet rg) = TEMPLATE_SHEET settings))
        as [Hname|Hname]; [|by left].
      destruct (decide (editedA1 rg = TEMPLATE_MUNI_A1 settings))
        as [Ha1|Ha1]; [|by right].
      exfalso.
      destruct (muniEditHandler_logs toUpperCase a1Notation settings fuel e s s)
        as (line & lines & Hout).
      { intros rg' Hrg'. rewrite Hrg in Hrg'. by injection Hrg' as <-. }
      { by rewrite Hrun. }
      apply (f_equal length) in Hout. rewrite length_app in Hout.
      cbn [length] in Hout. lia.
    + exfalso.
      destruct (muniEditHandler_logs toUpperCase a1Notation settings fuel e s s)
        as (line & lines & Hout).
      { intros rg' Hrg'. by rewrite Hrg in Hrg'. }
      { by rewrite Hrun. }
      apply (f_equal length) in Hout. rewrite length_app in Hout.
      cbn [length] in Hout. lia.
  - intros (rg & Hrg & Hother). by eapply muniEditHandler_elsewhere.
Qed.

(** X12. The municipality is cleared (the event carries no value, or a
    blank one): every target on the edited sheet is cleared, the other
    cells of the sheet are kept, no dialog is shown, and the handler
    completes, with or without a user interface. *)
Theorem X12_cleared_municipality fuel e s rg cells :
  e ≫= range = Some rg →
  getName (editedSheet rg) = TEMPLATE_SHEET settings →
  editedA1 rg = TEMPLATE_MUNI_A1 settings →
  notBlank (e ≫= value) = false →
  sheetAt (editedSheet rg) s = Some cells →
  targetsResolve a1Notation →
  ∃ s' cells',
    muniEditHandler toUpperCase a1Notation settings fuel e s = Ret tt s'
    ∧ alerts s' = alerts s
    ∧ sheetAt (editedSheet rg) s' = Some cells'
    ∧ (∀ k, inTarget a1Notation k → cells' !! k = None)
    ∧ (∀ k, ¬ inTarget a1Notation k → cells' !! k = cells !! k).
Proof.
  intros Hrg Hname Ha1 Hblank Hsheet Hres.
  destruct (muniEditHandler_cleared toUpperCase a1Notation settings fuel e s rg
              cells) as (f & cells' & Hrun & Hsheet' & Hk); try done.
  eexists _, cells'. split; [exact Hrun|]. split_and!; try done.
  - intros k Hin%targeted_inTarget. by rewrite Hk, Hin.
  - intros k Hin. rewrite Hk.
    destruct (targeted a1Notation SECTIONS k) eqn:Ht; [|done].
    by apply targeted_inTarget in Ht.
Qed.

(** X13. [disableMuniAuto] deletes the triggers that call the edit
    handler, all of them, and no other trigger; it touches no sheet. With
    no such trigger it does nothing at all. With one it writes a line to
    the console and shows a dialog; without a user interface the dialog
    throws, after the triggers have been deleted. *)
Theorem X13_disable_removes_handler_triggers s :
  ∃ s',
    stateAfter (disableMuniAuto s) = Some s'
    ∧ triggers s' = otherTriggers (triggers s)
    ∧ files s' = files s
    ∧ (¬ handlerInstalled (triggers s) → disableMuniAuto s = Ret tt s)
    ∧ (handlerInstalled (triggers s) →
         output s' = output s ++ [(LevelLog, MsgTriggerDisabled)]
         ∧ if hasUi s
           then disableMuniAuto s = Ret tt s'
                ∧ alerts s' = alerts s ++ [AlertDisabled]
           else disableMuniAuto s = Raise NoUi s' ∧ alerts s' = alerts s).
Proof.
  rewrite disableMuniAuto_run. case_bool_decide as Hin.
  - destruct (hasUi s) eqn:Hui.
    + eexists. split; [reflexivity|]. by split_and!.
    + eexists. split; [reflexivity|]. by split_and!.
  - exists s. split; [done|]. split; [by rewrite otherTriggers_none|].
    by split_and!.
Qed.

(** X14. With a user interface, [enableMuniAuto] leaves exactly one
    trigger that calls the edit handler, on edits of the active
    spreadsheet, however many there were; the other triggers are kept and
    no sheet is touched. *)
Theorem X14_enable_installs_one_trigger s id :
  active s = Some id → hasUi s = true →
  ∃ s' k,
    enableMuniAuto settings s = Ret tt s'
    ∧ triggers s' !! k = Some (editTrigger id)
    ∧ (∀ k' t, triggers s' !! k' = Some t →
         handlerFunction t = muniEditHandlerName → k' = k)
    ∧ (∀ k' t, handlerFunction t ≠ muniEditHandlerName →
         triggers s' !! k' = Some t ↔ triggers s !! k' = Some t)
    ∧ files s' = files s.
Proof.
  intros Hact Hui. rewrite (enableMuniAuto_run settings s id Hact Hui).
  eexists _, (fresh (dom (otherTriggers (triggers s)))).
  split; [reflexivity|]. cbn [triggers files withAlerts withOutput withTriggers].
  split_and!; try done.
  - apply lookup_insert_eq.
  - intros k' t Hk' Ht.
    destruct (decide (k' = fresh (dom (otherTriggers (triggers s)))))
      as [->|Hne]; [done|].
    rewrite lookup_insert_ne in Hk' by done.
    by apply otherTriggers_lookup in Hk' as [_ ?].
  - intros k' t Ht.
    destruct (decide (k' = fresh (dom (otherTriggers (triggers s)))))
      as [->|Hne].
    + rewrite lookup_insert_eq. split.
      * by intros [= <-].
      * intros Hk'. pose proof (fresh_trigger (otherTriggers (triggers s))) as Hf.
        by rewrite (proj2 (otherTriggers_lookup _ _ _) (conj Hk' Ht)) in Hf.
    + rewrite lookup_insert_ne by done. rewrite otherTriggers_lookup.
      split; [by intros [? ?]|done].
Qed.

(** X15. [enableMuniAuto] followed by [disableMuniAuto] leaves the
    triggers that do not call the edit handler, and nothing else: the
    triggers of before, when the handler was not installed. *)
Theorem X15_enable_then_disable s id :
  active s = Some id → hasUi s = true →
  ∃ s1 s2,
    enableMuniAuto settings s = Ret tt s1
    ∧ disableMuniAuto s1 = Ret tt s2
    ∧ triggers s2 = otherTriggers (triggers s)
    ∧ (¬ handlerInstalled (triggers s) → triggers s2 = triggers s).
Proof.
  intros Hact Hui. rewrite (enableMuniAuto_run settings s id Hact Hui).
  eexists _, _. split; [reflexivity|]. rewrite disableMuniAuto_run.
  cbn [triggers hasUi withAlerts withOutput withTriggers].
  rewrite bool_decide_eq_true_2 by apply installed_insert. rewrite Hui.
  split; [reflexivity|]. cbn [triggers withAlerts withOutput withTriggers].
  rewrite otherTriggers_insert, delete_id by apply fresh_trigger.
  rewrite otherTriggers_idemp. split; [done|]. apply otherTriggers_none.
Qed.

(** X16. Without a user interface [enableMuniAuto] always throws, and it
    leaves the edit handler installed exactly when it was not installed
    before: installed, the dialog of [disableMuniAuto] throws once the
    triggers are deleted and before a new one is created; not installed,
    the trigger is created before the last dialog throws. *)
Theorem X16_enable_without_ui s id :
  active s = Some id → hasUi s = false →
  ∃ s',
    enableMuniAuto settings s = Raise NoUi s'
    ∧ (handlerInstalled (triggers s') ↔ ¬ handlerInstalled (triggers s)).
Proof.
  intros Hact Hui. unfold enableMuniAuto.
  erewrite bind_Ret by reflexivity. rewrite Hact.
  rewrite bind_run, disableMuniAuto_run, Hui.
  case_bool_decide as Hin.
  - eexists. split; [reflexivity|].
    cbn [triggers withOutput withTriggers]. split; [|done].
    by intros ?%otherTriggers_not_installed.
  - erewrite bind_Ret by reflexivity. erewrite bind_Ret by reflexivity.
    unfold alert. cbn [hasUi withOutput withTriggers]. rewrite Hui.
    eexists. split; [reflexivity|]. cbn [triggers withOutput withTriggers].
    split; [done|]. intros _. apply installed_insert.
Qed.

(** X17. A second run of [fillFormattedSections] changes no cell: when
    the first has found the municipality and its text, and the cell of the
    municipality is in no target and the Rolodex is not the template
    sheet, the second run completes as well and leaves every sheet as the
    first left it. *)
Theorem X17_fill_twice fuel s id template muni rolodex row src r :
  ready a1Notation settings s id template muni rolodex →
  1 <= row →
  rowMatches toUpperCase rolodex ROLODEX_MUNI_COL muni row →
  (∀ row', 1 <= row' < row →
     ¬ rowMatches toUpperCase rolodex ROLODEX_MUNI_COL muni row') →
  rolodex !! (row, ROLODEX_TEXT_COL) = Some (CellText src) →
  trim (rtText src) ≠ [] →
  (length (rtText src) < fuel)%nat →
  targetsResolve a1Notation →
  a1Notation (TEMPLATE_MUNI_A1 settings) = Some r →
  ¬ inTarget a1Notation (top r, left r) →
  (ROLODEX_ID settings, ROLODEX_TAB settings) ≠ (id, TEMPLATE_SHEET settings) →
  ∃ s1 s2,
    fillFormattedSections toUpperCase a1Notation settings fuel s = Ret tt s1
    ∧ fillFormattedSections toUpperCase a1Notation settings fuel s1 = Ret tt s2
    ∧ ∀ sheet, sheetAt sheet s2 = sheetAt sheet s1.
Proof.
  intros Hready Hrow Hm Hfirst Hcell Htext Hfuel Hres Hr Hmuni Hother.
  destruct (fill_found toUpperCase a1Notation settings fuel s id template muni
              rolodex row src) as (s1 & Hrun1 & _ & Hsheet1); try done.
  pose proof (fillFormattedSections_evolves toUpperCase a1Notation settings
                fuel s s1) as Hev1.
  rewrite Hrun1 in Hev1. specialize (Hev1 eq_refl).
  destruct Hready as (Hact & Htemplate & (r' & Hr' & Hshown) & Hne & Hrolodex).
  rewrite Hr in Hr'. injection Hr' as <-.
  assert (ready a1Notation settings s1 id
            (foldl (placeSection a1Notation fuel src) template SECTIONS)
            muni rolodex) as Hready1.
  { split_and!; try done.
    - destruct Hev1 as (_ & -> & _). done.
    - exists r. split; [done|]. rewrite foldl_place_untargeted; [done|].
      destruct (targeted a1Notation SECTIONS (top r, left r)) eqn:Ht; [|done].
      by apply targeted_inTarget in Ht.
    - rewrite <- Hrolodex. eapply evolves_other_sheet; [exact Hev1|].
      intros k (Hid & Hname & _). cbn [fst snd] in Hid, Hname.
      rewrite Hact in Hid. injection Hid as Hid. apply Hother. congruence. }
  destruct (fill_found toUpperCase a1Notation settings fuel s1 id _ muni
              rolodex row src Hready1) as (s2 & Hrun2 & _ & Hsheet2); try done.
  rewrite foldl_place_idemp in Hsheet2.
  pose proof (fillFormattedSections_evolves toUpperCase a1Notation settings
                fuel s1 s2) as Hev2.
  rewrite Hrun2 in Hev2. specialize (Hev2 eq_refl).
  exists s1, s2. split; [done|]. split; [done|]. intros sheet.
  destruct (decide (sheet = (id, TEMPLATE_SHEET settings))) as [->|Hsheet].
  - by rewrite Hsheet1, Hsheet2.
  - eapply evolves_other_sheet; [exact Hev2|].
    intros k (Hid & Hname & _). apply Hsheet.
    destruct Hready1 as (Hact1 & _). rewrite Hact1 in Hid.
    injection Hid as Hid. destruct sheet as [id' nm]. cbn [fst snd] in *.
    congruence.
Qed.

(** X18. However [muniEditHandler] ends, it has written to no cell but
    those of the targets of SECTIONS on a sheet with the name of the
    template sheet, the edited one or that of the active spreadsheet; it
    installs and removes no trigger. *)
Theorem X18_handler_writes_targets_only fuel e s s' :
  stateAfter (muniEditHandler toUpperCase a1Notation settings fuel e s)
  = Some s' →
  evolves (λ sheet k, sheet.2 = TEMPLATE_SHEET settings
                      ∧ inTarget a1Notation k
                      ∧ (active s = Some sheet.1
                         ∨ ∃ rg, e ≫= range = Some rg ∧ editedSheet rg = sheet))
    s s'.
Proof. apply muniEditHandler_evolves. Qed.

(** X19. With a budget above the length of every text of the
    spreadsheets, [muniEditHandler] always completes: whatever the event
    and the state, with or without a user interface, it returns, without
    an exception and within the budget of the loops of the extractor. *)
Theorem X19_handler_always_completes fuel e s :
  textsBelow fuel s →
  ∃ s', muniEditHandler toUpperCase a1Notation settings fuel e s = Ret tt s'.
Proof. apply muniEditHandler_completes. Qed.

(** X20. With such a budget and a user interface,
    [fillFormattedSections] always completes, in every state: a missing
    sheet, an unreadable range, a missing spreadsheet end in a dialog, not
    in an exception. *)
Theorem X20_fill_completes_with_ui fuel s :
  textsBelow fuel s → hasUi s = true →
  ∃ s', fillFormattedSections toUpperCase a1Notation settings fuel s = Ret tt s'.
Proof.
  intros Hinv Hui.
  pose proof (fillFormattedSections_settles toUpperCase a1Notation settings
                fuel s Hinv) as Hsettles.
  destruct (fillFormattedSections _ _ _ fuel s) as [[] s'|e s'|] eqn:Hrun;
    [by exists s'| |done].
  destruct (fillFormattedSections_Raise _ _ _ _ _ _ _ Hrun) as [_ Hui'].
  destruct (fillFormattedSections_evolves toUpperCase a1Notation settings fuel s s')
    as (Hsame & _); [by rewrite Hrun|]. congruence.
Qed.

End Properties.

End ScriptProperties.

(** ** The script on the office of the examples *)

Module ScriptChecks.

Import Examples Script ScriptExamples.

(** "springfield" is found in row 2, which shows " Springfield ". *)
Example search_ignores_case_and_padding :
  findRowInSheet_ upper instructions (codeUnits "springfield") 1
    (office "springfield") = Ret 2 (office "springfield").
Proof. vm_compute. reflexivity. Qed.

Example search_not_found :
  findRowInSheet_ upper instructions (codeUnits "Ogdenville") 1
    (office "Ogdenville") = Ret (-1) (office "Ogdenville").
Proof. vm_compute. reflexivity. Qed.

(** The search term itself is not trimmed. *)
Example search_term_not_trimmed :
  findRowInSheet_ upper instructions (codeUnits " springfield") 1
    (office "springfield") = Ret (-1) (office "springfield").
Proof. vm_compute. reflexivity. Qed.

(** After a run for Springfield, B14 holds the Appraiser section with its
    link, B22 the Taxes section, and B93, which no marker of the text
    fills, is empty. *)
Example appraiser_in_B14 :
  sheetAt form
    (after (fillFormattedSections upper cellA1 installed 60
              (office "springfield")) (office "springfield"))
    ≫= (λ cells, cells !! (14, 2))
  = Some (CellText
            {| rtText := codeUnits "Call John at 555-1234.";
               rtRuns :=
                 [ {| runStart := 0; runEnd := 13; runStyle := Regular;
                      runLink := None |};
                   {| runStart := 13; runEnd := 21; runStyle := Italic;
                      runLink := Some (codeUnits "tel:555-1234") |};
                   {| runStart := 21; runEnd := 22; runStyle := Regular;
                      runLink := None |} ] |}).
Proof. vm_compute. reflexivity. Qed.

Example taxes_in_B22 :
  displayOf
    (sheetAt form
       (after (fillFormattedSections upper cellA1 installed 60
                 (office "springfield")) (office "springfield"))
       ≫= (λ cells, cells !! (22, 2)))
  = codeUnits "...".
Proof. vm_compute. reflexivity. Qed.

Example special_cleared :
  sheetAt form
    (after (fillFormattedSections upper cellA1 installed 60
              (office "springfield")) (office "springfield"))
    ≫= (λ cells, cells !! (93, 2))
  = None.
Proof. vm_compute. reflexivity. Qed.

(** With the constants as committed, the run stops at the template sheet,
    which it does not find. *)
Example blank_constants :
  alerts (after (fillFormattedSections upper cellA1 asCommitted 60
                   (office "springfield")) (office "springfield"))
  = [AlertTemplateNotFound []].
Proof. vm_compute. reflexivity. Qed.

(** The handler on an edit of another cell, and on a selection. *)
Example edit_elsewhere :
  muniEditHandler upper cellA1 installed 60 (edited "C7" (Some "x"%string))
    (office "springfield") = Ret tt (office "springfield").
Proof. vm_compute. reflexivity. Qed.

Example edit_selects :
  muniEditHandler upper cellA1 installed 60
    (edited "B2" (Some "springfield"%string)) (office "springfield")
  = Ret tt
      (after
         ((logs (MsgValueDetected (codeUnits "B2"))
             ≫= (λ _, fillFormattedSections upper cellA1 installed 60))
            (office "springfield"))
         (office "springfield")).
Proof. vm_compute. reflexivity. Qed.

End ScriptChecks.

(** ** The properties of the script at the office of the examples *)

Module ScriptWitnesses.

Import Examples Script ScriptExamples ScriptFacts ScriptRuns ScriptBudget.
Import ScriptProperties.

(** The targets of SECTIONS are six cells of column B. *)
Lemma cellA1_targetsResolve : targetsResolve cellA1.
Proof.
  intros sec Hsec. unfold SECTIONS in Hsec.
  repeat (apply elem_of_cons in Hsec as [->|Hsec]; [by eexists|]).
  by apply elem_of_nil in Hsec.
Qed.

Lemma inRect_cell row column k :
  inRect {| top := row; left := column; numRows := 1; numColumns := 1 |} k = true
  → k = (row, column).
Proof.
  unfold inRect. cbn [top left numRows numColumns]. destruct k as [r c].
  cbn [fst snd]. rewrite !andb_true_iff, !Z.leb_le, !Z.ltb_lt.
  intros. f_equal; lia.
Qed.

Lemma cellA1_targetsApart : targetsApart cellA1.
Proof.
  intros sec1 sec2 r1 r2 k Hsec1 Hsec2 Hr1 Hr2 Hk1 Hk2.
  unfold SECTIONS in Hsec1, Hsec2.
  repeat (apply elem_of_cons in Hsec1 as [->|Hsec1]);
    [..|by apply elem_of_nil in Hsec1];
    vm_compute in Hr1; injection Hr1 as <-; apply inRect_cell in Hk1;
    (repeat (apply elem_of_cons in Hsec2 as [->|Hsec2]);
       [..|by apply elem_of_nil in Hsec2]);
    vm_compute in Hr2; injection Hr2 as <-; apply inRect_cell in Hk2;
    first [reflexivity | congruence].
Qed.

(** The cell of the municipality is in no target. *)
Lemma municipality_not_a_target : ¬ inTarget cellA1 (2, 2).
Proof.
  intros Hin%targeted_inTarget. vm_compute in Hin. discriminate.
Qed.

(** The form is ready for the search, whatever is selected. *)
Lemma office_ready (muni : string) :
  trim (codeUnits muni) ≠ [] →
  ready cellA1 installed (office muni) (codeUnits "form") (formCells muni)
    (trim (codeUnits muni)) rolodexCells.
Proof.
  intros Hmuni. unfold ready. split; [reflexivity|]. split; [reflexivity|].
  split; [|split; [exact Hmuni|reflexivity]].
  eexists. split; [vm_compute; reflexivity|]. reflexivity.
Qed.

(** The rows of the Rolodex. *)
Lemma rolodex_lastRow : lastRow rolodexCells = 3.
Proof. vm_compute. reflexivity. Qed.

Lemma springfield_row :
  rowMatches upper rolodexCells ROLODEX_MUNI_COL (codeUnits "springfield") 2
  ∧ ∀ row, 1 <= row < 2 →
      ¬ rowMatches upper rolodexCells ROLODEX_MUNI_COL (codeUnits "springfield")
          row.
Proof.
  split; [split; vm_compute; [discriminate|reflexivity]|].
  intros row Hrow [_ Hm]. assert (row = 1) as -> by lia.
  vm_compute in Hm. discriminate.
Qed.

Lemma shelbyville_row :
  rowMatches upper rolodexCells ROLODEX_MUNI_COL (codeUnits "shelbyville") 3
  ∧ ∀ row, 1 <= row < 3 →
      ¬ rowMatches upper rolodexCells ROLODEX_MUNI_COL (codeUnits "shelbyville")
          row.
Proof.
  split; [split; vm_compute; [discriminate|reflexivity]|].
  intros row Hrow [_ Hm].
  assert (row = 1 ∨ row = 2) as [-> | ->] by lia; vm_compute in Hm; discriminate.
Qed.

Lemma ogdenville_nowhere row :
  1 <= row →
  ¬ rowMatches upper rolodexCells ROLODEX_MUNI_COL (codeUnits "Ogdenville") row.
Proof.
  intros Hrow [Hne Hm]. destruct (decide (row <= 3)) as [Hle|Hgt].
  - assert (row = 1 ∨ row = 2 ∨ row = 3) as [-> | [-> | ->]] by lia;
      vm_compute in Hm; discriminate.
  - rewrite below_lastRow in Hne; [done|]. rewrite rolodex_lastRow. lia.
Qed.

Lemma X1_witness :
  sheetAt instructions (office "springfield") = Some rolodexCells
  ∧ 1 <= lastRow rolodexCells
  ∧ ∃ r,
      findRowInSheet_ upper instructions (codeUnits "springfield") 1
        (office "springfield") = Ret r (office "springfield")
      ∧ (r = -1 ↔
           ∀ row, 1 <= row →
             ¬ rowMatches upper rolodexCells 1 (codeUnits "springfield") row)
      ∧ (r ≠ -1 →
           1 <= r <= lastRow rolodexCells
           ∧ rowMatches upper rolodexCells 1 (codeUnits "springfield") r
           ∧ ∀ row, 1 <= row < r →
               ¬ rowMatches upper rolodexCells 1 (codeUnits "springfield") row).
Proof.
  split; [reflexivity|]. split; [vm_compute; discriminate|].
  apply (X1_findRowInSheet_first_match upper instructions
           (codeUnits "springfield") 1 (office "springfield") rolodexCells);
    [reflexivity | lia | vm_compute; discriminate].
Defined.

Lemma X2_witness :
  sheetAt instructions (emptyRolodex "springfield") = Some ∅
  ∧ findRowInSheet_ upper instructions (codeUnits "springfield") 1
      (emptyRolodex "springfield")
    = Raise RangeRefused (emptyRolodex "springfield").
Proof.
  split; [reflexivity|].
  apply (X2_findRowInSheet_empty_sheet upper instructions
           (codeUnits "springfield") 1 (emptyRolodex "springfield")).
  reflexivity.
Defined.

Lemma X3_witness :
  stateAfter (fillFormattedSections upper cellA1 installed 60
                (office "springfield"))
  = Some (after (fillFormattedSections upper cellA1 installed 60
                   (office "springfield")) (office "springfield"))
  ∧ evolves (λ sheet k, active (office "springfield") = Some sheet.1
                        ∧ sheet.2 = TEMPLATE_SHEET installed
                        ∧ inTarget cellA1 k)
      (office "springfield")
      (after (fillFormattedSections upper cellA1 installed 60
                (office "springfield")) (office "springfield")).
Proof.
  split; [vm_compute; reflexivity|].
  apply (X3_fill_writes_targets_only upper cellA1 installed 60
           (office "springfield")).
  vm_compute. reflexivity.
Defined.

Lemma X4_witness :
  fillFormattedSections upper cellA1 installed 60 (unattended (office " "))
  = Raise NoUi
      (after (fillFormattedSections upper cellA1 installed 60
                (unattended (office " "))) (office " "))
  ∧ NoUi = NoUi ∧ hasUi (unattended (office " ")) = false.
Proof.
  split; [vm_compute; reflexivity|].
  apply (X4_fill_throws_only_without_ui upper cellA1 installed 60
           (unattended (office " ")) NoUi
           (after (fillFormattedSections upper cellA1 installed 60
                     (unattended (office " "))) (office " "))).
  vm_compute. reflexivity.
Defined.

Lemma X5_witness :
  ready cellA1 installed (office "Ogdenville") (codeUnits "form")
    (formCells "Ogdenville") (codeUnits "Ogdenville") rolodexCells
  ∧ hasUi (office "Ogdenville") = true
  ∧ ∃ s' template',
      fillFormattedSections upper cellA1 installed 60 (office "Ogdenville")
      = Ret tt s'
      ∧ alerts s'
        = alerts (office "Ogdenville")
            ++ [AlertMuniNotFound (codeUnits "Ogdenville")]
      ∧ sheetAt (codeUnits "form", TEMPLATE_SHEET installed) s' = Some template'
      ∧ (∀ k, inTarget cellA1 k → template' !! k = None)
      ∧ (∀ k, ¬ inTarget cellA1 k →
           template' !! k = formCells "Ogdenville" !! k).
Proof.
  split; [by apply (office_ready "Ogdenville")|]. split; [reflexivity|].
  apply (X5_unknown_municipality upper cellA1 installed 60 (office "Ogdenville")
           (codeUnits "form") (formCells "Ogdenville") (codeUnits "Ogdenville")
           rolodexCells).
  - by apply (office_ready "Ogdenville").
  - rewrite rolodex_lastRow. lia.
  - apply ogdenville_nowhere.
  - apply cellA1_targetsResolve.
  - reflexivity.
Defined.

Lemma X6_witness :
  ready cellA1 installed (office "springfield") (codeUnits "form")
    (formCells "springfield") (codeUnits "springfield") rolodexCells
  ∧ rolodexCells !! (2, ROLODEX_TEXT_COL) = Some (CellText rolodexEntry)
  ∧ ∃ s' template',
      fillFormattedSections upper cellA1 installed 60 (office "springfield")
      = Ret tt s'
      ∧ alerts s' = alerts (office "springfield")
      ∧ sheetAt (codeUnits "form", TEMPLATE_SHEET installed) s' = Some template'
      ∧ (∀ sec r k,
           sec ∈ SECTIONS → cellA1 (targetA1 sec) = Some r →
           inRect r k = true →
           template' !! k = sectionValue 60 rolodexEntry sec)
      ∧ (∀ k, ¬ inTarget cellA1 k →
           template' !! k = formCells "springfield" !! k).
Proof.
  split; [by apply (office_ready "springfield")|]. split; [reflexivity|].
  apply (X6_sections_reach_targets upper cellA1 installed 60
           (office "springfield") (codeUnits "form") (formCells "springfield")
           (codeUnits "springfield") rolodexCells 2 rolodexEntry).
  - by apply (office_ready "springfield").
  - lia.
  - apply springfield_row.
  - apply springfield_row.
  - reflexivity.
  - vm_compute. discriminate.
  - vm_compute. lia.
  - apply cellA1_targetsResolve.
  - apply cellA1_targetsApart.
Defined.

Lemma X7_witness :
  ready cellA1 installed (emptyRolodex "springfield") (codeUnits "form")
    (formCells "springfield") (codeUnits "springfield") ∅
  ∧ ∃ s',
      fillFormattedSections upper cellA1 installed 60
        (emptyRolodex "springfield") = Ret tt s'
      ∧ files s' = files (emptyRolodex "springfield")
      ∧ alerts s' = alerts (emptyRolodex "springfield") ++ [AlertError]
      ∧ last (output s') = Some (LevelError, MsgUnexpected RangeRefused).
Proof.
  assert (ready cellA1 installed (emptyRolodex "springfield") (codeUnits "form")
            (formCells "springfield") (codeUnits "springfield") ∅) as Hready.
  { unfold ready. split; [reflexivity|]. split; [reflexivity|].
    split; [|split; [vm_compute; discriminate|reflexivity]].
    eexists. split; [vm_compute; reflexivity|]. reflexivity. }
  split; [exact Hready|].
  apply (X7_empty_rolodex_tab upper cellA1 installed 60
           (emptyRolodex "springfield") (codeUnits "form")
           (formCells "springfield") (codeUnits "springfield") Hready).
  reflexivity.
Defined.

Lemma X8_witness :
  ready cellA1 installed (office "shelbyville") (codeUnits "form")
    (formCells "shelbyville") (codeUnits "shelbyville") rolodexCells
  ∧ rolodexCells !! (3, ROLODEX_TEXT_COL) = Some (CellOther (codeUnits "42"))
  ∧ ∃ s' template',
      fillFormattedSections upper cellA1 installed 60 (office "shelbyville")
      = Ret tt s'
      ∧ alerts s' = alerts (office "shelbyville")
      ∧ last (output s')
        = Some (LevelWarn, MsgNoRichText (codeUnits "shelbyville"))
      ∧ sheetAt (codeUnits "form", TEMPLATE_SHEET installed) s' = Some template'
      ∧ (∀ k, inTarget cellA1 k → template' !! k = None)
      ∧ (∀ k, ¬ inTarget cellA1 k →
           template' !! k = formCells "shelbyville" !! k).
Proof.
  split; [by apply (office_ready "shelbyville")|]. split; [reflexivity|].
  apply (X8_no_text_clears_targets upper cellA1 installed 60
           (office "shelbyville") (codeUnits "form") (formCells "shelbyville")
           (codeUnits "shelbyville") rolodexCells 3).
  - by apply (office_ready "shelbyville").
  - lia.
  - apply shelbyville_row.
  - apply shelbyville_row.
  - vm_compute. exact I.
  - apply cellA1_targetsResolve.
Defined.

Lemma X9_witness :
  sheetAt (codeUnits "form", TEMPLATE_SHEET installed) (office "  ")
  = Some (formCells "  ")
  ∧ trim (displayOf (formCells "  " !! (2, 2))) = []
  ∧ ∃ s',
      fillFormattedSections upper cellA1 installed 60 (office "  ") = Ret tt s'
      ∧ files s' = files (office "  ")
      ∧ alerts s'
        = alerts (office "  ")
            ++ [AlertSelectMunicipality (TEMPLATE_MUNI_A1 installed)].
Proof.
  split; [reflexivity|]. split; [reflexivity|].
  apply (X9_no_municipality_selected upper cellA1 installed 60 (office "  ")
           (codeUnits "form") (formCells "  ")
           {| top := 2; left := 2; numRows := 1; numColumns := 1 |});
    reflexivity.
Defined.

Lemma X12_witness :
  notBlank (edited "B2" None ≫= value) = false
  ∧ sheetAt form (office "springfield") = Some (formCells "springfield")
  ∧ ∃ s' cells',
      muniEditHandler upper cellA1 installed 60 (edited "B2" None)
        (unattended (office "springfield")) = Ret tt s'
      ∧ alerts s' = alerts (unattended (office "springfield"))
      ∧ sheetAt form s' = Some cells'
      ∧ (∀ k, inTarget cellA1 k → cells' !! k = None)
      ∧ (∀ k, ¬ inTarget cellA1 k → cells' !! k = formCells "springfield" !! k).
Proof.
  split; [reflexivity|]. split; [reflexivity|].
  apply (X12_cleared_municipality upper cellA1 installed 60 (edited "B2" None)
           (unattended (office "springfield"))
           {| editedSheet := form; editedA1 := codeUnits "B2" |}
           (formCells "springfield"));
    try reflexivity.
  apply cellA1_targetsResolve.
Defined.

Lemma X14_witness :
  active installedTwice = Some (codeUnits "form")
  ∧ hasUi installedTwice = true
  ∧ ∃ s' k,
      enableMuniAuto installed installedTwice = Ret tt s'
      ∧ triggers s' !! k = Some (editTrigger (codeUnits "form"))
      ∧ (∀ k' t, triggers s' !! k' = Some t →
           handlerFunction t = muniEditHandlerName → k' = k)
      ∧ (∀ k' t, handlerFunction t ≠ muniEditHandlerName →
           triggers s' !! k' = Some t ↔ triggers installedTwice !! k' = Some t)
      ∧ files s' = files installedTwice.
Proof.
  split; [reflexivity|]. split; [reflexivity|].
  apply (X14_enable_installs_one_trigger installed installedTwice
           (codeUnits "form")); reflexivity.
Defined.

Lemma X15_witness :
  active (office "springfield") = Some (codeUnits "form")
  ∧ hasUi (office "springfield") = true
  ∧ ∃ s1 s2,
      enableMuniAuto installed (office "springfield") = Ret tt s1
      ∧ disableMuniAuto s1 = Ret tt s2
      ∧ triggers s2 = otherTriggers (triggers (office "springfield"))
      ∧ (¬ handlerInstalled (triggers (office "springfield")) →
           triggers s2 = triggers (office "springfield")).
Proof.
  split; [reflexivity|]. split; [reflexivity|].
  apply (X15_enable_then_disable installed (office "springfield")
           (codeUnits "form")); reflexivity.
Defined.

Lemma X16_witness :
  active (unattended installedTwice) = Some (codeUnits "form")
  ∧ hasUi (unattended installedTwice) = false
  ∧ ∃ s',
      enableMuniAuto installed (unattended installedTwice) = Raise NoUi s'
      ∧ (handlerInstalled (triggers s')
         ↔ ¬ handlerInstalled (triggers (unattended installedTwice))).
Proof.
  split; [reflexivity|]. split; [reflexivity|].
  apply (X16_enable_without_ui installed (unattended installedTwice)
           (codeUnits "form")); reflexivity.
Defined.

Lemma X17_witness :
  ready cellA1 installed (office "springfield") (codeUnits "form")
    (formCells "springfield") (codeUnits "springfield") rolodexCells
  ∧ rolodexCells !! (2, ROLODEX_TEXT_COL) = Some (CellText rolodexEntry)
  ∧ ¬ inTarget cellA1 (2, 2)
  ∧ ∃ s1 s2,
      fillFormattedSections upper cellA1 installed 60 (office "springfield")
      = Ret tt s1
      ∧ fillFormattedSections upper cellA1 installed 60 s1 = Ret tt s2
      ∧ ∀ sheet, sheetAt sheet s2 = sheetAt sheet s1.
Proof.
  split; [by apply (office_ready "springfield")|]. split; [reflexivity|].
  split; [apply municipality_not_a_target|].
  apply (X17_fill_twice upper cellA1 installed 60 (office "springfield")
           (codeUnits "form") (formCells "springfield")
           (codeUnits "springfield") rolodexCells 2 rolodexEntry
           {| top := 2; left := 2; numRows := 1; numColumns := 1 |}).
  - by apply (office_ready "springfield").
  - lia.
  - apply springfield_row.
  - apply springfield_row.
  - reflexivity.
  - vm_compute. discriminate.
  - vm_compute. lia.
  - apply cellA1_targetsResolve.
  - reflexivity.
  - apply municipality_not_a_target.
  - vm_compute. discriminate.
Defined.

Lemma X18_witness :
  stateAfter (muniEditHandler upper cellA1 installed 60
                (edited "B2" (Some "springfield"%string)) (office "springfield"))
  = Some (after (muniEditHandler upper cellA1 installed 60
                   (edited "B2" (Some "springfield"%string)) (office "springfield"))
            (office "springfield"))
  ∧ evolves
      (λ sheet k,
         sheet.2 = TEMPLATE_SHEET installed ∧ inTarget cellA1 k
         ∧ (active (office "springfield") = Some sheet.1
            ∨ ∃ rg, edited "B2" (Some "springfield"%string) ≫= range = Some rg
                    ∧ editedSheet rg = sheet))
      (office "springfield")
      (after (muniEditHandler upper cellA1 installed 60
                (edited "B2" (Some "springfield"%string)) (office "springfield"))
         (office "springfield")).
Proof.
  split; [vm_compute; reflexivity|].
  apply (X18_handler_writes_targets_only upper cellA1 installed 60
           (edited "B2" (Some "springfield"%string)) (office "springfield")).
  vm_compute. reflexivity.
Defined.

Lemma office_textsBelow : textsBelow 60 (office "springfield").
Proof. apply textsBelowb_true. vm_compute. reflexivity. Qed.

Lemma X19_witness :
  textsBelow 60 (unattended (office "springfield"))
  ∧ ∃ s',
      muniEditHandler upper cellA1 installed 60
        (edited "B2" (Some "springfield"%string)) (unattended (office "springfield"))
      = Ret tt s'.
Proof.
  assert (textsBelow 60 (unattended (office "springfield"))) as Hbelow
    by (apply textsBelowb_true; vm_compute; reflexivity).
  split; [exact Hbelow|].
  apply (X19_handler_always_completes upper cellA1 installed 60
           (edited "B2" (Some "springfield"%string))
           (unattended (office "springfield")) Hbelow).
Defined.

Lemma X20_witness :
  textsBelow 60 (office "springfield")
  ∧ hasUi (office "springfield") = true
  ∧ ∃ s',
      fillFormattedSections upper cellA1 installed 60 (office "springfield")
      = Ret tt s'.
Proof.
  split; [apply office_textsBelow|]. split; [reflexivity|].
  apply (X20_fill_completes_with_ui upper cellA1 installed 60
           (office "springfield")); [apply office_textsBelow | reflexivity].
Defined.

End ScriptWitnesses.
